(** * gungale: the first-person movement and camera core

    A shallow embedding of the kinematic integrator [UpdateBody], the camera
    routine [UpdateCameraFPS] and the part of the main loop that feeds them
    (main.cpp), followed by the properties stated for them.

    Numbers.  The program computes with [float].  The embedding idealises
    them as real numbers: a literal such as [0.86f] is the decimal it
    denotes, [+], [*], [/], [sqrt], [sin], [cos] and [acos] are the exact
    operations, comparisons are the order of the reals.  Rounding, overflow
    and NaN are outside the model; the yaw accumulation, of which an exact
    value is stated, is evaluated in binary32 as well ([Binary32]).  A [char]
    key axis is an integer, a [bool] a boolean.

    Effects.  The globals of main.cpp are the fields of one record [World]
    that every frame maps to the next one; a function that writes through a
    pointer or a reference returns the new value.  The only effect that can
    fail, the quotient of [VecAngle], is written in the option monad. *)

From Stdlib Require Import Reals Lra Lia ZArith Bool List Psatz.
From Stdlib Require Import Machin SpecFloat RNsatz.
Import ListNotations.

#[local] Open Scope R_scope.

(** ** Vectors and the glm functions the program calls *)

Module Glm.

Record vec2 : Type := mkVec2 { x2 : R; y2 : R }.

Record vec3 : Type := mkVec3 { x : R; y : R; z : R }.

(** [glm::vec3(s)]: the same scalar in every component. *)
Definition splat (s : R) : vec3 := mkVec3 s s s.

Definition add (a b : vec3) : vec3 :=
  mkVec3 (x a + x b) (y a + y b) (z a + z b).

Definition scale (a : vec3) (s : R) : vec3 :=
  mkVec3 (x a * s) (y a * s) (z a * s).

Definition neg (a : vec3) : vec3 := mkVec3 (- x a) (- y a) (- z a).

Definition dot (a b : vec3) : R := x a * x b + y a * y b + z a * z b.

Definition cross (a b : vec3) : vec3 :=
  mkVec3 (y a * z b - y b * z a)
         (z a * x b - z b * x a)
         (x a * y b - x b * y a).

(** [glm::length(v)] is [sqrt(dot(v, v))]. *)
Definition length (a : vec3) : R := sqrt (dot a a).

(** [glm::normalize(v)] is [v * inversesqrt(dot(v, v))]. *)
Definition normalize (a : vec3) : vec3 := scale a (1 / sqrt (dot a a)).

(** [glm::min(a, b)] is [(b < a) ? b : a]; [glm::max(a, b)] is
    [(a < b) ? b : a]; [glm::clamp(x, lo, hi)] is [min(max(x, lo), hi)]. *)
Definition min (a b : R) : R := if Rlt_dec b a then b else a.

Definition max (a b : R) : R := if Rlt_dec a b then b else a.

Definition clamp (s lo hi : R) : R := min (max s lo) hi.

(** [glm::mix(a, b, t)] is [a * (1 - t) + b * t], component-wise on
    vectors. *)
Definition mix (a b t : R) : R := a * (1 - t) + b * t.

Definition mix3 (a b : vec3) (t : R) : vec3 :=
  mkVec3 (mix (x a) (x b) t) (mix (y a) (y b) t) (mix (z a) (z b) t).

(** [glm::rotate(mat4(1), angle, axis) * vec4(p, 1)]: the rotation matrix
    glm builds from the normalised axis, applied to a point.  [m_cr] is
    the entry [Rotate[c][r]] of the (column-major) matrix. *)
Definition rotate_apply (angle : R) (axis0 p : vec3) : vec3 :=
  let c := cos angle in
  let s := sin angle in
  let axis := normalize axis0 in
  let temp := scale axis (1 - c) in
  let m00 := c + x temp * x axis in
  let m01 := x temp * y axis + s * z axis in
  let m02 := x temp * z axis - s * y axis in
  let m10 := y temp * x axis - s * z axis in
  let m11 := c + y temp * y axis in
  let m12 := y temp * z axis + s * x axis in
  let m20 := z temp * x axis + s * y axis in
  let m21 := z temp * y axis - s * x axis in
  let m22 := c + z temp * z axis in
  mkVec3 (m00 * x p + m10 * y p + m20 * z p + 0 * 1)
         (m01 * x p + m11 * y p + m21 * z p + 0 * 1)
         (m02 * x p + m12 * y p + m22 * z p + 0 * 1).

End Glm.

Import Glm.

(** ** Constants *)

Definition GRAVITY : R := 32.0.
Definition MAX_SPEED : R := 20.0.
Definition CROUCH_SPEED : R := 5.0.
Definition JUMP_FORCE : R := 12.0.
Definition MAX_ACCEL : R := 150.0.
Definition FRICTION : R := 0.86.
Definition AIR_DRAG : R := 0.98.
Definition CONTROL : R := 15.0.
Definition CROUCH_HEIGHT : R := 0.0.
Definition STAND_HEIGHT : R := 1.0.
Definition BOTTOM_HEIGHT : R := 0.5.

Definition PI_F : R := 3.14159265358979323846.

(** ** The body and its integrator *)

Record Body : Type := mkBody {
  position : vec3;
  velocity : vec3;
  dir : vec3;
  isGrounded : bool
}.

(** The global [player]: every vector zero, standing on the ground. *)
Definition player0 : Body :=
  mkBody (splat 0.0) (splat 0.0) (splat 0.0) true.

(** Assignments to one field, as the program writes them. *)
Definition set_x (a : vec3) (s : R) : vec3 := mkVec3 s (y a) (z a).
Definition set_y (a : vec3) (s : R) : vec3 := mkVec3 (x a) s (z a).
Definition set_z (a : vec3) (s : R) : vec3 := mkVec3 (x a) (y a) s.

Definition set_position (b : Body) (p : vec3) : Body :=
  mkBody p (velocity b) (dir b) (isGrounded b).
Definition set_velocity (b : Body) (w : vec3) : Body :=
  mkBody (position b) w (dir b) (isGrounded b).
Definition set_dir (b : Body) (d : vec3) : Body :=
  mkBody (position b) (velocity b) d (isGrounded b).
Definition set_isGrounded (b : Body) (g : bool) : Body :=
  mkBody (position b) (velocity b) (dir b) g.

(** [UpdateBody], statement by statement; [body] is rebound where the
    program assigns through the pointer.  The block under [#if 0] is not
    compiled and has no counterpart. *)
Definition UpdateBody (body : Body) (rot : R) (side forward : Z)
    (jumpPressed crouchHold : bool) (delta : R) : Body :=
  let input := mkVec2 (IZR side) (IZR (- forward)) in
  let body :=
    if negb (isGrounded body)
    then set_velocity body
           (set_y (velocity body) (y (velocity body) - GRAVITY * delta))
    else body in
  let body :=
    if isGrounded body && jumpPressed
    then set_isGrounded
           (set_velocity body (set_y (velocity body) JUMP_FORCE)) false
    else body in
  let front := mkVec3 (sin rot) 0.0 (cos rot) in
  let right := mkVec3 (cos (- rot)) 0.0 (sin (- rot)) in
  let desiredDir :=
    mkVec3 (x2 input * x right + y2 input * x front)
           0.0
           (x2 input * z right + y2 input * z front) in
  let body :=
    set_dir body (mix3 (dir body) desiredDir (clamp (CONTROL * delta) 0.0 1.0)) in
  let decel := if isGrounded body then FRICTION else AIR_DRAG in
  let hvel :=
    mkVec3 (x (velocity body) * decel) 0.0 (z (velocity body) * decel) in
  let hvelLength := length hvel in
  let hvel :=
    if Rlt_dec hvelLength (MAX_SPEED * 0.01) then splat 0.0 else hvel in
  let speed := dot hvel (dir body) in
  let maxSpeed := if crouchHold then CROUCH_SPEED else MAX_SPEED in
  let accel := clamp (maxSpeed - speed) 0.0 (MAX_ACCEL * delta) in
  let hvel := set_x hvel (x hvel + x (dir body) * accel) in
  let hvel := set_z hvel (z hvel + z (dir body) * accel) in
  let body := set_velocity body (set_x (velocity body) (x hvel)) in
  let body := set_velocity body (set_z (velocity body) (z hvel)) in
  let body :=
    set_position body
      (set_x (position body) (x (position body) + x (velocity body) * delta)) in
  let body :=
    set_position body
      (set_y (position body) (y (position body) + y (velocity body) * delta)) in
  let body :=
    set_position body
      (set_z (position body) (z (position body) + z (velocity body) * delta)) in
  if Rle_dec (y (position body)) 0.0
  then set_isGrounded
         (set_velocity
            (set_position body (set_y (position body) 0.0))
            (set_y (velocity body) 0.0))
         true
  else body.

(** Names for the intermediate values of [UpdateBody], for the statements
    below: the flag the jump block leaves, the vertical velocity before the
    position is integrated, the desired direction, the horizontal velocity
    after the decay factor and the low-speed cut, and the acceleration. *)
Definition jump_taken (b : Body) (jumpPressed : bool) : bool :=
  isGrounded b && jumpPressed.

Definition grounded_after_jump (b : Body) (jumpPressed : bool) : bool :=
  if jump_taken b jumpPressed then false else isGrounded b.

Definition vy_before_clamp (b : Body) (jumpPressed : bool) (delta : R) : R :=
  if jump_taken b jumpPressed then JUMP_FORCE
  else if isGrounded b then y (velocity b)
  else y (velocity b) - GRAVITY * delta.

Definition front_of (rot : R) : vec3 := mkVec3 (sin rot) 0.0 (cos rot).

Definition right_of (rot : R) : vec3 := mkVec3 (cos (- rot)) 0.0 (sin (- rot)).

Definition desired_dir (rot : R) (side forward : Z) : vec3 :=
  mkVec3 (IZR side * x (right_of rot) + IZR (- forward) * x (front_of rot))
         0.0
         (IZR side * z (right_of rot) + IZR (- forward) * z (front_of rot)).

Definition decayed_hvel (vel : vec3) (grounded : bool) : vec3 :=
  let decel := if grounded then FRICTION else AIR_DRAG in
  let hvel := mkVec3 (x vel * decel) 0.0 (z vel * decel) in
  if Rlt_dec (length hvel) (MAX_SPEED * 0.01) then splat 0.0 else hvel.

Definition accel_of (hvel d : vec3) (crouchHold : bool) (delta : R) : R :=
  clamp ((if crouchHold then CROUCH_SPEED else MAX_SPEED) - dot hvel d)
        0.0 (MAX_ACCEL * delta).

(** The horizontal speed, [glm::length(glm::vec2(velocity.x, velocity.z))]. *)
Definition hspeed (b : Body) : R :=
  sqrt (x (velocity b) * x (velocity b) + z (velocity b) * z (velocity b)).

(** [n] calls of [UpdateBody] with the same inputs and no jump request. *)
Fixpoint steps (n : nat) (b : Body) (rot : R) (side forward : Z)
    (crouchHold : bool) (delta : R) : Body :=
  match n with
  | O => b
  | S k =>
      UpdateBody (steps k b rot side forward crouchHold delta)
        rot side forward false crouchHold delta
  end.

(** A grounded body on the line of [front_of rot]: its [dir] is [- a] times
    the front vector and its horizontal velocity [- s] times the front
    vector. *)
Definition along_front (rot a s : R) (b : Body) : Prop :=
  isGrounded b = true /\
  x (dir b) = - a * sin rot /\ z (dir b) = - a * cos rot /\
  x (velocity b) = - s * sin rot /\ z (velocity b) = - s * cos rot.

(** The vertical state of a body that the program can reach: not below the
    ground, and when flagged as grounded at height 0 with no vertical
    velocity. *)
Definition vertical_inv (b : Body) : Prop :=
  0 <= y (position b) /\
  (isGrounded b = true -> y (velocity b) = 0 /\ y (position b) = 0).

(** ** The camera *)

(** The globals of main.cpp, and the locals of [main] that live across
    frames.  [prevTime] is the static [prev] of [getDeltaSeconds]. *)
Record World : Type := mkWorld {
  player : Body;
  lookRotation : vec2;
  headTimer : R;
  walkLerp : R;
  headLerp : R;
  lean : vec2;
  lastMouseX : R;
  lastMouseY : R;
  firstMouse : bool;
  prevSpace : bool;
  prevTime : R;
  cameraFovy : R;
  cameraPosition : vec3;
  cameraTarget : vec3;
  cameraUp : vec3
}.

Definition sensitivity : vec2 := mkVec2 0.001 0.001.

(** What one iteration of the loop reads from GLFW: the clock, the cursor
    and the six keys. *)
Record Input : Type := mkInput {
  now : R;
  mx : R;
  my : R;
  keyD : bool;
  keyA : bool;
  keyW : bool;
  keyS : bool;
  keyLeftControl : bool;
  keySpace : bool
}.

(** The option monad, for the one fallible step. *)
Definition bind {A B : Type} (m : option A) (k : A -> option B) : option B :=
  match m with
  | Some a => k a
  | None => None
  end.

Notation "a <- m ;; k" := (bind m (fun a => k))
  (at level 61, m at next level, right associativity).

(** The test [a == b] on [float]s. *)
Definition feq (a b : R) : bool := if Req_dec_T a b then true else false.

(** A [float] quotient; it has no value when the divisor is zero. *)
Definition fdiv (a b : R) : option R :=
  if feq b 0.0 then None else Some (a / b).

Definition RotateVecByAxisAngle (p axis : vec3) (angle : R) : vec3 :=
  rotate_apply angle (normalize axis) p.

Definition VecAngle (a b : vec3) : option R :=
  let la := length a in
  let lb := length b in
  if feq la 0.0 || feq lb 0.0 then Some 0.0
  else
    d <- fdiv (dot a b) (la * lb) ;;
    let d := clamp d (- 1.0) 1.0 in
    Some (acos d).

Definition set_y2 (a : vec2) (s : R) : vec2 := mkVec2 (x2 a) s.

(** [UpdateCameraFPS].  The three reference parameters are the camera
    fields of the world; [look] stands for the global [lookRotation], which
    the two view clamps assign. *)
Definition UpdateCameraFPS (w : World) : option World :=
  let up := mkVec3 0.0 1.0 0.0 in
  let targetOffset := mkVec3 0.0 0.0 (- 1.0) in
  let look := lookRotation w in
  let yaw := RotateVecByAxisAngle targetOffset up (x2 look) in
  maxAngleUp <- VecAngle up yaw ;;
  let maxAngleUp := maxAngleUp - 0.001 in
  let look :=
    if Rgt_dec (- y2 look) maxAngleUp then set_y2 look (- maxAngleUp)
    else look in
  maxAngleDown <- VecAngle (neg up) yaw ;;
  let maxAngleDown := maxAngleDown * - 1.0 in
  let maxAngleDown := maxAngleDown + 0.001 in
  let look :=
    if Rlt_dec (- y2 look) maxAngleDown then set_y2 look (- maxAngleDown)
    else look in
  let right := normalize (cross yaw up) in
  let pitchAngle := - y2 look - y2 (lean w) in
  let pitchAngle :=
    clamp pitchAngle (- PI_F / 2.0 + 0.0001) (PI_F / 2.0 - 0.0001) in
  let pitch := RotateVecByAxisAngle yaw right pitchAngle in
  let headSin := sin (headTimer w * PI_F) in
  let headCos := cos (headTimer w * PI_F) in
  let stepRotation := 0.01 in
  let camUp :=
    RotateVecByAxisAngle up pitch (headSin * stepRotation + x2 (lean w)) in
  let bobSide := 0.1 in
  let bobUp := 0.15 in
  let bobbing := scale right (headSin * bobSide) in
  let bobbing := set_y bobbing (Rabs (headCos * bobUp)) in
  let camPosition := add (cameraPosition w) (scale bobbing (walkLerp w)) in
  let camTarget := add camPosition pitch in
  Some (mkWorld (player w) look (headTimer w) (walkLerp w) (headLerp w)
          (lean w) (lastMouseX w) (lastMouseY w) (firstMouse w) (prevSpace w)
          (prevTime w) (cameraFovy w) camPosition camTarget camUp).

(** Names for the intermediate values of [UpdateCameraFPS]: the yawed view
    vector, the right vector, and the pitch angle after the last clamp as a
    function of the (already clamped) [lookRotation.y] and of [lean.y]. *)
Definition yaw_vec (yawAngle : R) : vec3 :=
  RotateVecByAxisAngle (mkVec3 0.0 0.0 (- 1.0)) (mkVec3 0.0 1.0 0.0) yawAngle.

Definition right_vec (yawAngle : R) : vec3 :=
  normalize (cross (yaw_vec yawAngle) (mkVec3 0.0 1.0 0.0)).

Definition pitch_angle (lookY leanY : R) : R :=
  clamp (- lookY - leanY) (- PI_F / 2.0 + 0.0001) (PI_F / 2.0 - 0.0001).

(** [lookRotation.y] after the two view clamps, both of which measure the
    angle [PI / 2] between the vertical and the yawed view vector. *)
Definition clamped_look_y (lookY : R) : R :=
  let maxAngleUp := PI / 2 - 0.001 in
  let lookY := if Rgt_dec (- lookY) maxAngleUp then - maxAngleUp else lookY in
  let maxAngleDown := PI / 2 * - 1.0 + 0.001 in
  if Rlt_dec (- lookY) maxAngleDown then - maxAngleDown else lookY.

(** ** The main loop *)

(** [getDeltaSeconds]: the static [prev] and the clock give the tick length
    and the new [prev]. *)
Definition getDeltaSeconds (prev now_ : R) : R * R :=
  let prev := if feq prev 0.0 then now_ else prev in
  let dt := now_ - prev in
  let prev := now_ in
  let dt := if Rle_dec dt 0.0 then 1.0 / 60.0 else dt in
  (dt, prev).

Definition key_axis (plus minus : bool) : Z :=
  (Z.b2z plus - Z.b2z minus)%Z.

(** The state of [main] when the loop is entered, the cursor being at
    [(mx0, my0)]. *)
Definition world0 (mx0 my0 : R) : World :=
  let cameraPosition :=
    mkVec3 (x (position player0))
           (y (position player0) + (BOTTOM_HEIGHT + STAND_HEIGHT))
           (z (position player0)) in
  mkWorld player0 (mkVec2 0.0 0.0) 0.0 0.0 STAND_HEIGHT (mkVec2 0.0 0.0)
    mx0 my0 true false 0.0 60.0
    cameraPosition (add cameraPosition (mkVec3 0.0 0.0 (- 1.0)))
    (mkVec3 0.0 1.0 0.0).

(** One iteration of the loop up to the call of [UpdateCameraFPS]; drawing
    reads the state and leaves it unchanged. *)
Definition frame_update (w : World) (i : Input) : World :=
  let '(delta, prev) := getDeltaSeconds (prevTime w) (now i) in
  let lastMouseX_ := if firstMouse w then mx i else lastMouseX w in
  let lastMouseY_ := if firstMouse w then my i else lastMouseY w in
  let dx := mx i - lastMouseX_ in
  let dy := my i - lastMouseY_ in
  let look :=
    mkVec2 (x2 (lookRotation w) - dx * x2 sensitivity)
           (y2 (lookRotation w) + dy * y2 sensitivity) in
  let sideway := key_axis (keyD i) (keyA i) in
  let forward := key_axis (keyW i) (keyS i) in
  let crouching := keyLeftControl i in
  let spaceNow := keySpace i in
  let jumpPressed := negb (prevSpace w) && spaceNow in
  let body :=
    UpdateBody (player w) (x2 look) sideway forward jumpPressed crouching
      delta in
  let headLerp_ :=
    mix (headLerp w) (if crouching then CROUCH_HEIGHT else STAND_HEIGHT)
      (clamp (20.0 * delta) 0.0 1.0) in
  let moving :=
    isGrounded body && (negb (forward =? 0)%Z || negb (sideway =? 0)%Z) in
  let headTimer_ :=
    if moving then headTimer w + delta * 3.0 else headTimer w in
  let walkLerp_ :=
    if moving then mix (walkLerp w) 1.0 (clamp (10.0 * delta) 0.0 1.0)
    else mix (walkLerp w) 0.0 (clamp (10.0 * delta) 0.0 1.0) in
  let cameraFovy_ :=
    if moving then mix (cameraFovy w) 55.0 (clamp (5.0 * delta) 0.0 1.0)
    else mix (cameraFovy w) 60.0 (clamp (5.0 * delta) 0.0 1.0) in
  let lean_ :=
    mkVec2 (mix (x2 (lean w)) (IZR sideway * 0.02)
              (clamp (10.0 * delta) 0.0 1.0))
           (mix (y2 (lean w)) (IZR forward * 0.015)
              (clamp (10.0 * delta) 0.0 1.0)) in
  let cameraPosition_ :=
    mkVec3 (x (position body))
           (y (position body) + (BOTTOM_HEIGHT + headLerp_))
           (z (position body)) in
  mkWorld body look headTimer_ walkLerp_ headLerp_ lean_
    (mx i) (my i) false spaceNow prev cameraFovy_
    cameraPosition_ (cameraTarget w) (cameraUp w).

Definition frame (w : World) (i : Input) : option World :=
  UpdateCameraFPS (frame_update w i).

Fixpoint run (w : World) (inputs : list Input) : option World :=
  match inputs with
  | [] => Some w
  | i :: rest => w' <- frame w i ;; run w' rest
  end.

(** What [frame_update] passes to [UpdateBody]. *)
Definition frame_delta (w : World) (i : Input) : R :=
  fst (getDeltaSeconds (prevTime w) (now i)).

Definition frame_dx (w : World) (i : Input) : R :=
  mx i - (if firstMouse w then mx i else lastMouseX w).

Definition frame_dy (w : World) (i : Input) : R :=
  my i - (if firstMouse w then my i else lastMouseY w).

Definition frame_jumpPressed (w : World) (i : Input) : bool :=
  negb (prevSpace w) && keySpace i.




(** ** The yaw accumulation in binary32

    [lookRotation.x -= (float)(dx * sensitivity.x)] with IEEE arithmetic:
    [dx] is a [double], the [float] sensitivity is promoted to [double], the
    product is rounded to [double], cast to [float] and subtracted in
    [float].  Numbers are [spec_float] values, sign, mantissa and exponent;
    every operation rounds to nearest, ties to even. *)

Module Binary32.

Definition float_of_Z (n : Z) : spec_float :=
  binary_normalize 24 128 n 0 false.

Definition double_of_Z (n : Z) : spec_float :=
  binary_normalize 53 1024 n 0 false.

Definition to_double (f : spec_float) : spec_float :=
  match f with
  | S754_finite s m e => binary_round 53 1024 s m e
  | _ => f
  end.

Definition to_float (d : spec_float) : spec_float :=
  match d with
  | S754_finite s m e => binary_round 24 128 s m e
  | _ => d
  end.

(** The literal [0.001f]: the [float] nearest to 1/1000. *)
Definition sensitivity_x : spec_float :=
  SFdiv 24 128 (float_of_Z 1) (float_of_Z 1000).

Definition accumulate_yaw (yaw dx : spec_float) : spec_float :=
  SFsub 24 128 yaw (to_float (SFmul 53 1024 dx (to_double sensitivity_x))).

End Binary32.

(** ** The rest of main.cpp *)

Definition VecNeg (a : vec3) : vec3 := neg a.

(** The ranges the blended values of the loop stay in. *)
Definition blend_inv (w : World) : Prop :=
  0 <= walkLerp w <= 1 /\
  CROUCH_HEIGHT <= headLerp w <= STAND_HEIGHT /\
  55 <= cameraFovy w <= 60 /\
  - 0.02 <= x2 (lean w) <= 0.02 /\
  - 0.015 <= y2 (lean w) <= 0.015.

(** The camera position relative to the body: between [BOTTOM_HEIGHT] and
    [BOTTOM_HEIGHT + STAND_HEIGHT + 0.15] above it, and at most 0.1 to the
    side. *)
Definition eye_inv (w : World) : Prop :=
  BOTTOM_HEIGHT <= y (cameraPosition w) - y (position (player w))
    <= BOTTOM_HEIGHT + STAND_HEIGHT + 0.15 /\
  (x (cameraPosition w) - x (position (player w)))
  * (x (cameraPosition w) - x (position (player w)))
  + (z (cameraPosition w) - z (position (player w)))
    * (z (cameraPosition w) - z (position (player w)))
  <= 0.1 * 0.1.

(** The height of a body after [k] steps of free fall, from the height and
    the vertical velocity it starts with. *)
Definition fall_height (b : Body) (delta : R) (k : nat) : R :=
  y (position b) + INR k * delta * y (velocity b)
  - GRAVITY * delta * delta * (INR k * (INR k + 1) / 2).

(** ** The sphere mesh

    [makeSphere] fills a vector of floats, six per vertex (position, then
    the normal), and a vector of [unsigned int] indices, six per cell of
    the latitude/longitude grid.  [int] and [unsigned int] are 32 bits wide;
    [int] arithmetic is taken to wrap, and the loop counters to stay below
    the largest [int]; the two quotients are those of the reals, so the
    angles stand for the program's only at segment counts other than 0.  The calls that hand the two vectors to OpenGL are
    not modelled: the mesh is the two vectors and [indexCount]. *)

Definition int32 (n : Z) : Z :=
  ((n + 2147483648) mod 4294967296 - 2147483648)%Z.

Definition uint32 (n : Z) : Z := (n mod 4294967296)%Z.

(** The values [lo], [lo + 1], ..., [hi - 1] of a loop counter. *)
Definition range (lo hi : Z) : list Z :=
  map (fun i : nat => (lo + Z.of_nat i)%Z) (seq 0 (Z.to_nat (hi - lo))).

(** The six floats pushed for the grid point [(y, x)]. *)
Definition sphere_vertex (latSeg lonSeg y x : Z) : list R :=
  let theta := IZR y / IZR latSeg * PI_F in
  let phi := IZR x / IZR lonSeg * 2.0 * PI_F in
  let sx := sin theta * cos phi in
  let sy := cos theta in
  let sz := sin theta * sin phi in
  [sx; sy; sz; sx; sy; sz].

Definition sphere_verts (latSeg lonSeg : Z) : list R :=
  flat_map
    (fun y : Z =>
       flat_map (fun x : Z => sphere_vertex latSeg lonSeg y x)
         (range 0 (lonSeg + 1)))
    (range 0 (latSeg + 1)).

(** The six indices pushed for the grid cell [(y, x)]. *)
Definition sphere_quad (lonSeg y x : Z) : list Z :=
  let a := int32 (int32 (y * int32 (lonSeg + 1)) + x) in
  let b := int32 (int32 (a + lonSeg) + 1) in
  map uint32 [a; b; int32 (a + 1); b; int32 (b + 1); int32 (a + 1)].

Definition sphere_idx (latSeg lonSeg : Z) : list Z :=
  flat_map
    (fun y : Z =>
       flat_map (fun x : Z => sphere_quad lonSeg y x) (range 0 lonSeg))
    (range 0 latSeg).

Record Mesh : Type := mkMesh {
  mesh_verts : list R;
  mesh_idx : list Z;
  indexCount : Z
}.

Definition makeSphere (latSeg lonSeg : Z) : Mesh :=
  let verts := sphere_verts latSeg lonSeg in
  let idx := sphere_idx latSeg lonSeg in
  mkMesh verts idx (int32 (Z.of_nat (List.length idx))).

(** The floats of the vertex that the index [i] addresses: the vertex
    attributes are read with a stride of six floats, the position at offset
    0 and the normal at offset 3. *)
Definition vertex_at (m : Mesh) (i : Z) : list R :=
  firstn 6 (skipn (Z.to_nat (6 * i)) (mesh_verts m)).

(** ** The floor

    The two loops that draw the level: for each cell [(x, y)] of the floor
    the body decides whether a tile is drawn and in which colour; a drawn
    tile is the unit cube moved to [(x * tileSize, 0, y * tileSize)] and
    scaled to [tileSize] along x and z.  The list holds the translation and
    the colour of every draw call, in the order of the calls. *)

Definition floorExtent : Z := 25.

Definition tileSize : R := 5.0.

Definition tileColor1 : vec3 :=
  mkVec3 (150.0 / 255.0) (200.0 / 255.0) (200.0 / 255.0).

Definition lightGray : vec3 := mkVec3 0.827 0.827 0.827.

Definition tile (x y : Z) : bool * vec3 :=
  let drawTile := false in
  let color := lightGray in
  if negb (Z.land y 1 =? 0)%Z && negb (Z.land x 1 =? 0)%Z
  then (true, tileColor1)
  else if (Z.land y 1 =? 0)%Z && (Z.land x 1 =? 0)%Z
       then (true, lightGray)
       else (drawTile, color).

Definition floor_tiles : list (vec3 * vec3) :=
  flat_map
    (fun y : Z =>
       flat_map
         (fun x : Z =>
            if negb (fst (tile x y)) then []
            else [(mkVec3 (IZR x * tileSize) 0.0 (IZR y * tileSize),
                   snd (tile x y))])
         (range (- floorExtent) floorExtent))
    (range (- floorExtent) floorExtent).

(** ** Sample states

    Concrete bodies and worlds at which the statements below are evaluated. *)

(** In the air at height 0, moving downwards. *)
Definition falling_body : Body :=
  mkBody (mkVec3 3 0 4) (mkVec3 1 (- 2) 0) (splat 0) false.

(** Flagged as grounded while it still has an upward velocity. *)
Definition rising_grounded_body : Body :=
  mkBody (splat 0) (mkVec3 0 1 0) (splat 0) true.

(** On the ground away from the origin, sliding along the x axis. *)
Definition standing_body : Body :=
  mkBody (mkVec3 3 0 4) (mkVec3 2 0 0) (mkVec3 1 0 0) true.

(** The body one frame after the forward key went down in the start state
    (yaw 0, tick 1/60 s), the key being released again. *)
Definition coasting_body : Body :=
  mkBody (mkVec3 0 0 (- (1 / 96))) (mkVec3 0 0 (- (5 / 8)))
         (mkVec3 0 0 (- (1 / 4))) true.

(** On the ground with [dir] at zero: one sliding at speed 2, one creeping
    at speed 1/10. *)
Definition sliding_body : Body :=
  mkBody (mkVec3 3 0 4) (mkVec3 0 0 2) (splat 0) true.

Definition creeping_body : Body :=
  mkBody (mkVec3 3 0 4) (mkVec3 0 0 (1 / 10)) (splat 0) true.

(** Running at speed 10 along the view direction of yaw 0. *)
Definition running_body : Body :=
  mkBody (splat 0) (mkVec3 0 0 (- 10)) (mkVec3 0 0 (- 1)) true.

(** Worlds one second after the clock started, the cursor at the origin:
    the player at rest, the player running, and the mouse already seen. *)
Definition world_with (b : Body) (first : bool) : World :=
  mkWorld b (mkVec2 0 0) 0 0 STAND_HEIGHT (mkVec2 0 0) 0 0 first false 1 60
    (mkVec3 0 (3 / 2) 0) (mkVec3 0 (3 / 2) (- 1)) (mkVec3 0 1 0).

Definition rest_world : World := world_with player0 true.

Definition fast_world : World := world_with running_body true.

Definition turning_world : World := world_with player0 false.

(** Inputs 1/60 s later: the forward key down, the cursor moved 1000 to
    the right, the space bar down. *)
Definition forward_input : Input :=
  mkInput (1 + 1 / 60) 0 0 false false true false false false.

Definition turn_input : Input :=
  mkInput (1 + 1 / 60) 1000 0 false false false false false false.



(** Looking far down, and walking with the bob fully blended in. *)
Definition tilted_world : World :=
  mkWorld player0 (mkVec2 0 5) 0 0 STAND_HEIGHT (mkVec2 0 0) 0 0 false false 1
    60 (mkVec3 0 (3 / 2) 0) (mkVec3 0 (3 / 2) (- 1)) (mkVec3 0 1 0).

Definition walking_world : World :=
  mkWorld player0 (mkVec2 0 0) (1 / 3) 1 STAND_HEIGHT (mkVec2 0 0) 0 0 false
    false 1 55 (mkVec3 0 (3 / 2) 0) (mkVec3 0 (3 / 2) (- 1)) (mkVec3 0 1 0).

(** In the air 20 above the ground, drifting along x at speed 5. *)
Definition drifting_body : Body :=
  mkBody (mkVec3 0 20 0) (mkVec3 5 0 0) (splat 0) false.

(** Crouch-walking at speed 5 along the view direction of yaw 0. *)
Definition crouch_walking_body : Body :=
  mkBody (splat 0) (mkVec3 0 0 (- 5)) (mkVec3 0 0 (- 1)) true.

(** * Properties *)

(** ** The integrator in closed form *)

(** Case analysis on the two comparisons of a [clamp]. *)
Ltac clamp_cases :=
  unfold clamp, min, max;
  match goal with
  | |- context [Rlt_dec ?hi (if Rlt_dec ?s ?lo then _ else _)] =>
      destruct (Rlt_dec s lo); destruct (Rlt_dec hi _)
  end;
  try lra.

Lemma clamp_bounds (s lo hi : R) :
  lo <= hi -> lo <= clamp s lo hi <= hi.
Proof. intros Hle. clamp_cases. Qed.

Lemma clamp_inside (s lo hi : R) :
  lo <= s <= hi -> clamp s lo hi = s.
Proof. intros [H1 H2]. clamp_cases. Qed.

Lemma clamp_above (s lo hi : R) :
  lo <= hi -> hi <= s -> clamp s lo hi = hi.
Proof. intros H1 H2. clamp_cases. Qed.

Lemma clamp_below (s lo hi : R) :
  lo <= hi -> s <= lo -> clamp s lo hi = lo.
Proof. intros H1 H2. clamp_cases. Qed.

(** [UpdateBody] is the ground clamp applied to the values named above. *)
Lemma UpdateBody_eq (b : Body) (rot : R) (side forward : Z)
    (jumpPressed crouchHold : bool) (delta : R) :
  let g1 := grounded_after_jump b jumpPressed in
  let vy1 := vy_before_clamp b jumpPressed delta in
  let d1 :=
    mix3 (dir b) (desired_dir rot side forward)
      (clamp (CONTROL * delta) 0.0 1.0) in
  let hv := decayed_hvel (velocity b) g1 in
  let a := accel_of hv d1 crouchHold delta in
  let hx := x hv + x d1 * a in
  let hz := z hv + z d1 * a in
  let px := x (position b) + hx * delta in
  let py := y (position b) + vy1 * delta in
  let pz := z (position b) + hz * delta in
  UpdateBody b rot side forward jumpPressed crouchHold delta =
  if Rle_dec py 0.0
  then mkBody (mkVec3 px 0.0 pz) (mkVec3 hx 0.0 hz) d1 true
  else mkBody (mkVec3 px py pz) (mkVec3 hx vy1 hz) d1 g1.
Proof.
  destruct b as [p w d g]. destruct g, jumpPressed; reflexivity.
Qed.

Lemma body_eq (a b : Body) :
  position a = position b -> velocity a = velocity b -> dir a = dir b ->
  isGrounded a = isGrounded b -> a = b.
Proof. destruct a, b; cbn; intros; subst; reflexivity. Qed.

Lemma vec3_eq (a b : vec3) :
  x a = x b -> y a = y b -> z a = z b -> a = b.
Proof. destruct a, b; cbn; intros; subst; reflexivity. Qed.

(** The horizontal part of the result does not depend on the ground
    clamp. *)
Lemma UpdateBody_horizontal (b : Body) (rot : R) (side forward : Z)
    (jumpPressed crouchHold : bool) (delta : R) :
  let b' := UpdateBody b rot side forward jumpPressed crouchHold delta in
  let d1 :=
    mix3 (dir b) (desired_dir rot side forward)
      (clamp (CONTROL * delta) 0.0 1.0) in
  let hv := decayed_hvel (velocity b) (grounded_after_jump b jumpPressed) in
  let a := accel_of hv d1 crouchHold delta in
  dir b' = d1 /\
  x (velocity b') = x hv + x d1 * a /\
  z (velocity b') = z hv + z d1 * a /\
  x (position b') = x (position b) + x (velocity b') * delta /\
  z (position b') = z (position b) + z (velocity b') * delta.
Proof.
  cbv zeta. rewrite UpdateBody_eq.
  destruct (Rle_dec _ _); cbn [dir velocity position x z];
    repeat split; reflexivity.
Qed.

(** A grounded body at rest vertically and not below the ground, stepped
    without a jump, keeps its vertical state. *)
Lemma grounded_step_vertical (b : Body) (rot : R) (side forward : Z)
    (crouchHold : bool) (delta : R) :
  isGrounded b = true -> y (velocity b) = 0 -> 0 <= y (position b) ->
  let b' := UpdateBody b rot side forward false crouchHold delta in
  y (position b') = y (position b) /\
  y (velocity b') = y (velocity b) /\
  isGrounded b' = isGrounded b.
Proof.
  intros Hg Hv Hp b'. subst b'.
  rewrite UpdateBody_eq.
  unfold vy_before_clamp, grounded_after_jump, jump_taken.
  rewrite Hg, Hv. cbn [andb].
  destruct (Rle_dec _ _) as [H | H]; cbn [position velocity isGrounded y];
    repeat split; lra.
Qed.

(** ** The ground plane *)

(** The grounded flag alone does not make the step leave the height alone:
    the position is integrated with [velocity.y] whatever the flag says.  A
    body flagged as grounded with [velocity.y = 1], which the loop never
    holds, rises to 1/60 when it is stepped without a jump for 1/60 s. *)
Lemma grounded_flag_alone_moves_height :
  isGrounded rising_grounded_body = true /\
  y (position (UpdateBody rising_grounded_body 0 0 0 false false (1 / 60)))
  <> y (position rising_grounded_body).
Proof.
  split; [reflexivity |].
  rewrite UpdateBody_eq.
  unfold vy_before_clamp, jump_taken, rising_grounded_body;
    cbn [isGrounded andb velocity position y splat].
  destruct (Rle_dec _ _) as [H | H]; cbn [position y]; lra.
Qed.

(** ** Acceleration towards the target speed *)

(** C6.  In every step the horizontal velocity that leaves [UpdateBody] is
    the decayed horizontal velocity plus [accel] times the new, smoothed
    [dir], where [accel = clamp(targetMax - speed, 0, MAX_ACCEL * delta)],
    [speed] is the dot product of the decayed horizontal velocity with that
    smoothed [dir] (the mix of the old [dir] with the desired direction, not
    the desired direction itself) and [targetMax] is [CROUCH_SPEED] when
    crouching and [MAX_SPEED] otherwise. *)
Theorem accel_along_facing_dir :
  forall (b : Body) (rot : R) (side forward : Z)
         (jumpPressed crouchHold : bool) (delta : R),
    let b' := UpdateBody b rot side forward jumpPressed crouchHold delta in
    let hvel :=
      decayed_hvel (velocity b) (grounded_after_jump b jumpPressed) in
    let facingDir := dir b' in
    let speed := dot hvel facingDir in
    let targetMax := if crouchHold then CROUCH_SPEED else MAX_SPEED in
    let accel := clamp (targetMax - speed) 0 (MAX_ACCEL * delta) in
    facingDir =
      mix3 (dir b) (desired_dir rot side forward)
        (clamp (CONTROL * delta) 0 1) /\
    speed = x hvel * x facingDir + z hvel * z facingDir /\
    x (velocity b') = x hvel + accel * x facingDir /\
    z (velocity b') = z hvel + accel * z facingDir.
Proof.
  intros b rot side forward jumpPressed crouchHold delta.
  rewrite UpdateBody_eq. cbv zeta.
  assert (Hy : y (decayed_hvel (velocity b)
                    (grounded_after_jump b jumpPressed)) = 0).
  { unfold decayed_hvel. destruct (Rlt_dec _ _); simpl; lra. }
  assert (Hz : forall s hi, clamp s 0.0 hi = clamp s 0 hi).
  { intros. f_equal. lra. }
  assert (Ho : forall s, clamp s 0.0 1.0 = clamp s 0 1).
  { intros. f_equal; lra. }
  destruct (Rle_dec _ _); cbn [dir velocity x z];
    unfold accel_of, dot; rewrite Hy, ?Ho, ?Hz;
    repeat split; try reflexivity; ring.
Qed.

(** ** Friction *)

Lemma sqrt_sq (a : R) : sqrt (a * a) = Rabs a.
Proof. rewrite <- sqrt_Rsqr_abs. reflexivity. Qed.

Lemma hspeed_nonneg (b : Body) : 0 <= hspeed b.
Proof. apply sqrt_pos. Qed.

Lemma hspeed_z_only (b : Body) :
  x (velocity b) = 0 -> hspeed b = Rabs (z (velocity b)).
Proof.
  intros H. unfold hspeed. rewrite H, <- sqrt_sq. f_equal. ring.
Qed.

Lemma hspeed_zero (b : Body) :
  x (velocity b) = 0 -> z (velocity b) = 0 -> hspeed b = 0.
Proof.
  intros H1 H2. unfold hspeed. rewrite H1, H2.
  replace (0 * 0 + 0 * 0) with 0 by ring. apply sqrt_0.
Qed.

(** The length tested against the threshold is the old speed times the
    decay factor. *)
Lemma length_scaled_hvel (w : vec3) (f : R) :
  0 <= f ->
  length (mkVec3 (x w * f) 0.0 (z w * f)) = f * sqrt (x w * x w + z w * z w).
Proof.
  intros Hf. unfold length, dot; cbn [x y z].
  replace (x w * f * (x w * f) + 0.0 * 0.0 + z w * f * (z w * f))
    with ((f * f) * (x w * x w + z w * z w)) by lra.
  rewrite sqrt_mult; [| nra | nra].
  rewrite sqrt_square by exact Hf. reflexivity.
Qed.

(** ** Motion along the front line *)

Lemma sin2_cos2' (a : R) : sin a * sin a + cos a * cos a = 1.
Proof. pose proof (sin2_cos2 a) as H. unfold Rsqr in H. exact H. Qed.

Lemma along_front_hspeed (rot a s : R) (b : Body) :
  along_front rot a s b -> 0 <= s -> hspeed b = s.
Proof.
  intros (_ & _ & _ & Hx & Hz) Hs. unfold hspeed. rewrite Hx, Hz.
  replace (- s * sin rot * (- s * sin rot) + - s * cos rot * (- s * cos rot))
    with (s * s * (sin rot * sin rot + cos rot * cos rot)) by ring.
  rewrite sin2_cos2', Rmult_1_r. apply sqrt_square. exact Hs.
Qed.

(** One step with no strafe input and no jump keeps the body on the line;
    the two coordinates follow a recurrence in one dimension. *)
Lemma along_front_step (rot a s : R) (b : Body) (forward : Z)
    (crouchHold : bool) (delta : R) :
  along_front rot a s b ->
  0 <= s ->
  let a' := mix a (IZR forward) (clamp (CONTROL * delta) 0 1) in
  let h :=
    if Rlt_dec (FRICTION * s) (MAX_SPEED * 0.01) then 0 else FRICTION * s in
  let s' :=
    h + a' * clamp ((if crouchHold then CROUCH_SPEED else MAX_SPEED) - h * a')
               0 (MAX_ACCEL * delta) in
  along_front rot a' s' (UpdateBody b rot 0 forward false crouchHold delta).
Proof.
  intros (Hg & Hdx & Hdz & Hvx & Hvz) Hs a' h s'.
  assert (Hd1x : x (mix3 (dir b) (desired_dir rot 0 forward)
                      (clamp (CONTROL * delta) 0.0 1.0)) = - a' * sin rot).
  { cbn [mix3 x]. unfold desired_dir, front_of, right_of; cbn [x z].
    rewrite Hdx. subst a'. replace 0.0 with 0 by lra.
    replace 1.0 with 1 by lra. rewrite opp_IZR. unfold mix. ring. }
  assert (Hd1z : z (mix3 (dir b) (desired_dir rot 0 forward)
                      (clamp (CONTROL * delta) 0.0 1.0)) = - a' * cos rot).
  { cbn [mix3 z]. unfold desired_dir, front_of, right_of; cbn [x z].
    rewrite Hdz. subst a'. replace 0.0 with 0 by lra.
    replace 1.0 with 1 by lra. rewrite opp_IZR. unfold mix. ring. }
  assert (Hh : decayed_hvel (velocity b) (grounded_after_jump b false)
               = mkVec3 (- h * sin rot) 0 (- h * cos rot)).
  { unfold grounded_after_jump, jump_taken, decayed_hvel.
    rewrite Hg. cbn [andb].
    rewrite length_scaled_hvel by (unfold FRICTION; lra).
    rewrite Hvx, Hvz.
    replace (- s * sin rot * (- s * sin rot) + - s * cos rot * (- s * cos rot))
      with (s * s * (sin rot * sin rot + cos rot * cos rot)) by ring.
    rewrite sin2_cos2', Rmult_1_r, sqrt_square by exact Hs.
    subst h. destruct (Rlt_dec _ _); unfold splat; f_equal; lra. }
  assert (Ha : accel_of (mkVec3 (- h * sin rot) 0 (- h * cos rot))
                 (mix3 (dir b) (desired_dir rot 0 forward)
                    (clamp (CONTROL * delta) 0.0 1.0)) crouchHold delta
               = clamp ((if crouchHold then CROUCH_SPEED else MAX_SPEED)
                        - h * a') 0 (MAX_ACCEL * delta)).
  { unfold accel_of, dot. rewrite Hd1x, Hd1z. cbn [x y z].
    replace 0.0 with 0 by lra. f_equal.
    match goal with
    | |- ?m - ?A = ?m - ?B =>
        replace A with (B * (sin rot * sin rot + cos rot * cos rot)) by ring
    end.
    rewrite sin2_cos2'. ring. }
  rewrite UpdateBody_eq. cbv zeta. rewrite Hh, Ha.
  unfold along_front.
  destruct (Rle_dec _ _); cbn [isGrounded dir velocity x z];
    rewrite ?Hd1x, ?Hd1z; unfold grounded_after_jump, jump_taken;
    rewrite ?Hg; cbn [andb]; subst s'; repeat split; ring.
Qed.

(** [along_front_step] with the three values of the recurrence supplied. *)
Lemma along_front_step_values (rot a s : R) (b : Body) (forward : Z)
    (crouchHold : bool) (delta a' h s' : R) :
  along_front rot a s b ->
  0 <= s ->
  a' = mix a (IZR forward) (clamp (CONTROL * delta) 0 1) ->
  h = (if Rlt_dec (FRICTION * s) (MAX_SPEED * 0.01) then 0
       else FRICTION * s) ->
  s' = h + a' * clamp ((if crouchHold then CROUCH_SPEED else MAX_SPEED)
                       - h * a') 0 (MAX_ACCEL * delta) ->
  along_front rot a' s' (UpdateBody b rot 0 forward false crouchHold delta).
Proof.
  intros Hal Hs -> -> ->. apply along_front_step; assumption.
Qed.

Lemma control_rate_60 : clamp (CONTROL * (1 / 60)) 0 1 = 1 / 4.
Proof. unfold CONTROL. rewrite clamp_inside; lra. Qed.

Lemma player0_along_front : along_front 0 0 0 player0.
Proof.
  unfold along_front, player0, splat; cbn [isGrounded dir velocity x z].
  repeat split; lra.
Qed.

Lemma player0_step_along_front :
  along_front 0 (1 / 4) (5 / 8)
    (UpdateBody player0 0 0 1 false false (1 / 60)).
Proof.
  apply (along_front_step_values 0 0 0 player0 1 false (1 / 60)
           (1 / 4) 0 (5 / 8) player0_along_front); try lra.
  - rewrite control_rate_60. unfold mix. lra.
  - destruct (Rlt_dec _ _); lra.
  - unfold MAX_SPEED, MAX_ACCEL. rewrite clamp_above; lra.
Qed.

(** The player's start state one frame after the forward key went down. *)
Lemma coasting_body_reached :
  UpdateBody player0 0 0 1 false false (1 / 60) = coasting_body.
Proof.
  pose proof player0_step_along_front as (Hg & Dx & Dz & Vx & Vz).
  destruct (UpdateBody_horizontal player0 0 0 1 false false (1 / 60))
    as (Hd & _ & _ & Px & Pz).
  cbv zeta in Hd, Px, Pz.
  destruct (grounded_step_vertical player0 0 0 1 false (1 / 60))
    as (Py & Vy & _); [reflexivity | cbn; lra | cbn; lra |].
  cbv zeta in Py, Vy.
  rewrite sin_0 in Dx, Vx. rewrite cos_0 in Dz, Vz.
  rewrite Vx in Px. rewrite Vz in Pz.
  apply body_eq; [apply vec3_eq | apply vec3_eq | apply vec3_eq |].
  - rewrite Px. cbn. lra.
  - rewrite Py. cbn. lra.
  - rewrite Pz. cbn. lra.
  - rewrite Vx. cbn. lra.
  - rewrite Vy. cbn. lra.
  - rewrite Vz. cbn. lra.
  - rewrite Dx. cbn. lra.
  - rewrite Hd. unfold mix3, mix, desired_dir, coasting_body;
      cbn [y player0 dir splat]. lra.
  - rewrite Dz. cbn. lra.
  - rewrite Hg. reflexivity.
Qed.

Lemma coasting_body_along_front : along_front 0 (1 / 4) (5 / 8) coasting_body.
Proof.
  unfold along_front, coasting_body; cbn [isGrounded dir velocity x z].
  rewrite sin_0, cos_0. repeat split; lra.
Qed.

Lemma coasting_body_hspeed : hspeed coasting_body = 5 / 8.
Proof.
  apply (along_front_hspeed 0 (1 / 4));
    [exact coasting_body_along_front | lra].
Qed.

(** C5, as stated, fails: with no directional input, on the ground and
    without a jump, the speed can rise.  One frame after a tap on the
    forward key the body moves at 5/8; the next step, with every key
    released, leaves it at 161/160, because [dir] has not decayed to zero
    and the step still accelerates along it. *)
Lemma zero_input_step_speeds_up :
  isGrounded coasting_body = true /\
  hspeed coasting_body = 5 / 8 /\
  hspeed (UpdateBody coasting_body 0 0 0 false false (1 / 60)) = 161 / 160 /\
  hspeed coasting_body
  < hspeed (UpdateBody coasting_body 0 0 0 false false (1 / 60)).
Proof.
  pose proof coasting_body_along_front as H0.
  pose proof coasting_body_hspeed as H5.
  pose proof (along_front_step 0 (1 / 4) (5 / 8) coasting_body 0 false
                (1 / 60) H0 ltac:(lra)) as H1.
  cbv zeta in H1.
  assert (Hc : clamp (CONTROL * (1 / 60)) 0 1 = 1 / 4).
  { unfold CONTROL. rewrite clamp_inside; lra. }
  rewrite Hc in H1.
  destruct (Rlt_dec (FRICTION * (5 / 8)) (MAX_SPEED * 0.01)) as [Hlt | _].
  { exfalso. unfold FRICTION, MAX_SPEED in Hlt. lra. }
  assert (Ha : clamp (MAX_SPEED - FRICTION * (5 / 8) * mix (1 / 4) 0 (1 / 4))
                 0 (MAX_ACCEL * (1 / 60)) = 5 / 2).
  { unfold MAX_SPEED, MAX_ACCEL, FRICTION, mix.
    rewrite clamp_above; lra. }
  rewrite Ha in H1.
  assert (H6 : hspeed (UpdateBody coasting_body 0 0 0 false false (1 / 60))
               = 161 / 160).
  { rewrite (along_front_hspeed _ _ _ _ H1);
      unfold FRICTION, mix; lra. }
  repeat split; try assumption. rewrite H5, H6. lra.
Qed.

(** With [dir] at zero a step without input only applies the decay factor
    and the low-speed cut. *)
Lemma friction_step (b : Body) (rot : R) (crouchHold : bool) (delta : R) :
  isGrounded b = true -> x (dir b) = 0 -> z (dir b) = 0 ->
  let b' := UpdateBody b rot 0 0 false crouchHold delta in
  isGrounded b' = true /\ x (dir b') = 0 /\ z (dir b') = 0 /\
  (FRICTION * hspeed b < MAX_SPEED * 0.01 ->
   x (velocity b') = 0 /\ z (velocity b') = 0) /\
  (~ FRICTION * hspeed b < MAX_SPEED * 0.01 ->
   x (velocity b') = x (velocity b) * FRICTION /\
   z (velocity b') = z (velocity b) * FRICTION).
Proof.
  intros Hg Hx Hz b'. subst b'. rewrite UpdateBody_eq. cbv zeta.
  unfold grounded_after_jump, jump_taken. rewrite Hg. cbn [andb].
  assert (Hd1x : x (mix3 (dir b) (desired_dir rot 0 0)
                      (clamp (CONTROL * delta) 0.0 1.0)) = 0).
  { cbn [mix3 x]. unfold desired_dir, front_of, right_of, mix; cbn [x z].
    rewrite Hx. change (- 0)%Z with 0%Z. lra. }
  assert (Hd1z : z (mix3 (dir b) (desired_dir rot 0 0)
                      (clamp (CONTROL * delta) 0.0 1.0)) = 0).
  { cbn [mix3 z]. unfold desired_dir, front_of, right_of, mix; cbn [x z].
    rewrite Hz. change (- 0)%Z with 0%Z. lra. }
  assert (Hh : forall c,
             (FRICTION * hspeed b < MAX_SPEED * 0.01 ->
              x (decayed_hvel (velocity b) true) + 0 * c = 0 /\
              z (decayed_hvel (velocity b) true) + 0 * c = 0) /\
             (~ FRICTION * hspeed b < MAX_SPEED * 0.01 ->
              x (decayed_hvel (velocity b) true) + 0 * c
              = x (velocity b) * FRICTION /\
              z (decayed_hvel (velocity b) true) + 0 * c
              = z (velocity b) * FRICTION)).
  { intros c. unfold decayed_hvel.
    rewrite length_scaled_hvel by (unfold FRICTION; lra).
    fold (hspeed b).
    destruct (Rlt_dec _ _) as [Hlt | Hge]; unfold splat; cbn [x z];
      split; intros H; try contradiction; split; lra. }
  destruct (Rle_dec _ _); cbn [isGrounded dir velocity x z];
    rewrite Hd1x, Hd1z; repeat split; try apply Hh; assumption.
Qed.

Lemma steps_friction_inv (b : Body) (rot : R) (crouchHold : bool) (delta : R)
    (n : nat) :
  isGrounded b = true -> x (dir b) = 0 -> z (dir b) = 0 ->
  let bn := steps n b rot 0 0 crouchHold delta in
  isGrounded bn = true /\ x (dir bn) = 0 /\ z (dir bn) = 0.
Proof.
  intros Hg Hx Hz. induction n as [| n IH]; cbn [steps].
  - auto.
  - destruct IH as (Ig & Ix & Iz).
    destruct (friction_step _ rot crouchHold delta Ig Ix Iz)
      as (G & X & Z & _).
    auto.
Qed.

(** C5, amended.  On the ground, without a jump, with no directional input
    and with [dir] at zero, each further step does not raise the horizontal
    speed and lowers it when it is positive: the speed is multiplied by
    [FRICTION], and when that product is below 1% of [MAX_SPEED] (so in
    particular when the speed itself is) the horizontal velocity is set to
    exactly zero. *)
Theorem friction_decay_without_residual_dir :
  forall (b : Body) (rot : R) (crouchHold : bool) (delta : R) (n : nat),
    isGrounded b = true -> x (dir b) = 0 -> z (dir b) = 0 ->
    let bn := steps n b rot 0 0 crouchHold delta in
    let bn' := steps (S n) b rot 0 0 crouchHold delta in
    hspeed bn' <= hspeed bn /\
    (0 < hspeed bn -> hspeed bn' < hspeed bn) /\
    (FRICTION * hspeed bn < MAX_SPEED * 0.01 ->
     x (velocity bn') = 0 /\ z (velocity bn') = 0 /\ hspeed bn' = 0) /\
    (hspeed bn < MAX_SPEED * 0.01 -> hspeed bn' = 0) /\
    (MAX_SPEED * 0.01 <= FRICTION * hspeed bn ->
     hspeed bn' = FRICTION * hspeed bn).
Proof.
  intros b rot crouchHold delta n Hg Hx Hz bn bn'.
  destruct (steps_friction_inv b rot crouchHold delta n Hg Hx Hz)
    as (Ig & Ix & Iz). fold bn in Ig, Ix, Iz.
  subst bn'. cbn [steps]. fold bn.
  destruct (friction_step bn rot crouchHold delta Ig Ix Iz)
    as (_ & _ & _ & Hcut & Hkeep).
  pose proof (hspeed_nonneg bn) as Hnn.
  assert (Hzero : FRICTION * hspeed bn < MAX_SPEED * 0.01 ->
                  x (velocity (UpdateBody bn rot 0 0 false crouchHold delta)) = 0 /\
                  z (velocity (UpdateBody bn rot 0 0 false crouchHold delta)) = 0 /\
                  hspeed (UpdateBody bn rot 0 0 false crouchHold delta) = 0).
  { intros Hlt. destruct (Hcut Hlt) as (Vx & Vz).
    repeat split; try assumption. apply hspeed_zero; assumption. }
  assert (Hscaled : ~ FRICTION * hspeed bn < MAX_SPEED * 0.01 ->
                    hspeed (UpdateBody bn rot 0 0 false crouchHold delta)
                    = FRICTION * hspeed bn).
  { intros Hge. destruct (Hkeep Hge) as (Vx & Vz).
    unfold hspeed at 1. rewrite Vx, Vz.
    replace (x (velocity bn) * FRICTION * (x (velocity bn) * FRICTION)
             + z (velocity bn) * FRICTION * (z (velocity bn) * FRICTION))
      with ((FRICTION * FRICTION)
            * (x (velocity bn) * x (velocity bn)
               + z (velocity bn) * z (velocity bn))) by ring.
    rewrite sqrt_mult; [| unfold FRICTION; lra | nra].
    rewrite sqrt_square by (unfold FRICTION; lra). reflexivity. }
  destruct (Rlt_dec (FRICTION * hspeed bn) (MAX_SPEED * 0.01)) as [Hlt | Hge].
  - destruct (Hzero Hlt) as (Vx & Vz & Hs).
    split; [lra |]. split; [intros; lra |]. split; [intros; auto |].
    split; [intros; exact Hs | intros; lra].
  - pose proof (Hscaled Hge) as Hs. unfold FRICTION, MAX_SPEED in *.
    split; [lra |]. split; [intros; lra |]. split; [intros; lra |].
    split; [intros; lra | intros; exact Hs].
Qed.

Lemma friction_decay_without_residual_dir_witness :
  (isGrounded sliding_body = true /\
   x (dir sliding_body) = 0 /\ z (dir sliding_body) = 0 /\
   0 < hspeed (steps 0 sliding_body 0 0 0 false (1 / 60)) /\
   MAX_SPEED * 0.01
   <= FRICTION * hspeed (steps 0 sliding_body 0 0 0 false (1 / 60)) /\
   hspeed (steps 1 sliding_body 0 0 0 false (1 / 60))
   < hspeed (steps 0 sliding_body 0 0 0 false (1 / 60)) /\
   hspeed (steps 1 sliding_body 0 0 0 false (1 / 60))
   = FRICTION * hspeed (steps 0 sliding_body 0 0 0 false (1 / 60))) /\
  (isGrounded creeping_body = true /\
   x (dir creeping_body) = 0 /\ z (dir creeping_body) = 0 /\
   hspeed (steps 0 creeping_body 0 0 0 false (1 / 60)) < MAX_SPEED * 0.01 /\
   FRICTION * hspeed (steps 0 creeping_body 0 0 0 false (1 / 60))
   < MAX_SPEED * 0.01 /\
   hspeed (steps 1 creeping_body 0 0 0 false (1 / 60))
   <= hspeed (steps 0 creeping_body 0 0 0 false (1 / 60)) /\
   x (velocity (steps 1 creeping_body 0 0 0 false (1 / 60))) = 0 /\
   z (velocity (steps 1 creeping_body 0 0 0 false (1 / 60))) = 0 /\
   hspeed (steps 1 creeping_body 0 0 0 false (1 / 60)) = 0).
Proof.
  assert (Hs : hspeed sliding_body = 2).
  { rewrite hspeed_z_only by reflexivity. cbn [sliding_body velocity z].
    apply Rabs_pos_eq. lra. }
  assert (Hc : hspeed creeping_body = 1 / 10).
  { rewrite hspeed_z_only by reflexivity. cbn [creeping_body velocity z].
    apply Rabs_pos_eq. lra. }
  split.
  - destruct (friction_decay_without_residual_dir sliding_body 0 false
                (1 / 60) 0 eq_refl eq_refl eq_refl)
      as (_ & Hlt & _ & _ & Hk).
    cbn [steps] in *. rewrite Hs in *.
    assert (Hp : 0 < 2) by lra.
    assert (Hge : MAX_SPEED * 0.01 <= FRICTION * 2)
      by (unfold MAX_SPEED, FRICTION; lra).
    pose proof (Hlt Hp) as G1. pose proof (Hk Hge) as G2.
    repeat split; assumption.
  - destruct (friction_decay_without_residual_dir creeping_body 0 false
                (1 / 60) 0 eq_refl eq_refl eq_refl)
      as (Hle & _ & Hz & Hz' & _).
    cbn [steps] in *. rewrite Hc in *.
    assert (Hlt : 1 / 10 < MAX_SPEED * 0.01) by (unfold MAX_SPEED; lra).
    assert (Hlt' : FRICTION * (1 / 10) < MAX_SPEED * 0.01)
      by (unfold MAX_SPEED, FRICTION; lra).
    destruct (Hz Hlt') as (G1 & G2 & G3). pose proof (Hz' Hlt) as G4.
    repeat split; assumption.
Defined.

Lemma friction_step_speed (b : Body) (rot : R) (crouchHold : bool)
    (delta : R) :
  isGrounded b = true -> x (dir b) = 0 -> z (dir b) = 0 ->
  let b' := UpdateBody b rot 0 0 false crouchHold delta in
  (FRICTION * hspeed b < MAX_SPEED * 0.01 -> hspeed b' = 0) /\
  hspeed b' <= FRICTION * hspeed b.
Proof.
  intros Hg Hx Hz b'.
  destruct (friction_step b rot crouchHold delta Hg Hx Hz)
    as (_ & _ & _ & Hcut & Hkeep). fold b' in Hcut, Hkeep.
  pose proof (hspeed_nonneg b) as Hnn.
  assert (Hzero : FRICTION * hspeed b < MAX_SPEED * 0.01 -> hspeed b' = 0).
  { intros Hlt. destruct (Hcut Hlt) as (Vx & Vz).
    apply hspeed_zero; assumption. }
  split; [exact Hzero |].
  destruct (Rlt_dec (FRICTION * hspeed b) (MAX_SPEED * 0.01)) as [Hlt | Hge].
  - rewrite (Hzero Hlt). unfold FRICTION. lra.
  - destruct (Hkeep Hge) as (Vx & Vz).
    unfold hspeed at 1. rewrite Vx, Vz.
    replace (x (velocity b) * FRICTION * (x (velocity b) * FRICTION)
             + z (velocity b) * FRICTION * (z (velocity b) * FRICTION))
      with ((FRICTION * FRICTION)
            * (x (velocity b) * x (velocity b)
               + z (velocity b) * z (velocity b))) by ring.
    rewrite sqrt_mult; [| unfold FRICTION; lra | nra].
    rewrite sqrt_square by (unfold FRICTION; lra).
    apply Rle_refl.
Qed.

(** Under the same conditions the body comes to rest after finitely many
    steps and stays at rest. *)
Lemma friction_reaches_rest (b : Body) (rot : R) (crouchHold : bool)
    (delta : R) :
  isGrounded b = true -> x (dir b) = 0 -> z (dir b) = 0 ->
  exists N : nat,
    forall n : nat,
      (N <= n)%nat -> hspeed (steps n b rot 0 0 crouchHold delta) = 0.
Proof.
  intros Hg Hx Hz.
  assert (Hbound : forall n : nat,
             hspeed (steps n b rot 0 0 crouchHold delta)
             <= FRICTION ^ n * hspeed b).
  { induction n as [| n IH]; cbn [steps pow]; [lra |].
    destruct (steps_friction_inv b rot crouchHold delta n Hg Hx Hz)
      as (Ig & Ix & Iz).
    destruct (friction_step_speed _ rot crouchHold delta Ig Ix Iz)
      as (_ & Hle).
    unfold FRICTION in *. nra. }
  assert (Hf : Rabs FRICTION < 1).
  { unfold FRICTION. rewrite Rabs_pos_eq; lra. }
  pose proof (hspeed_nonneg b) as Hnn.
  assert (Heps : 0 < MAX_SPEED * 0.01 / (hspeed b + 1)).
  { unfold MAX_SPEED. apply Rdiv_lt_0_compat; lra. }
  destruct (pow_lt_1_zero FRICTION Hf _ Heps) as [N HN].
  exists (S N). intros n Hn.
  destruct n as [| n]; [lia |].
  cbn [steps].
  destruct (steps_friction_inv b rot crouchHold delta n Hg Hx Hz)
    as (Ig & Ix & Iz).
  destruct (friction_step_speed _ rot crouchHold delta Ig Ix Iz)
    as (Hzero & _).
  apply Hzero.
  specialize (HN n ltac:(lia)). specialize (Hbound n).
  apply Rabs_def2 in HN. destruct HN as (HN & _).
  assert (Hmul : FRICTION ^ n * (hspeed b + 1) < MAX_SPEED * 0.01).
  { apply (Rmult_lt_compat_r (hspeed b + 1)) in HN; [| lra].
    unfold Rdiv in HN. rewrite Rmult_assoc, Rinv_l, Rmult_1_r in HN by lra.
    exact HN. }
  assert (Hpow : 0 <= FRICTION ^ n) by (apply pow_le; unfold FRICTION; lra).
  unfold FRICTION in *. nra.
Qed.

(** ** Running forward *)

(** The recurrence of [along_front_step] at 60 frames per second with the
    forward key held, solved: after [n] steps [dir] is [1 - (3/4)^n] and the
    speed [125/7 - 5375/154 * (43/50)^n + 375/22 * (3/4)^n] along the
    negated front vector. *)
Lemma forward_run_closed_form (b : Body) (rot : R) (n : nat) :
  isGrounded b = true ->
  x (dir b) = 0 -> z (dir b) = 0 ->
  x (velocity b) = 0 -> z (velocity b) = 0 ->
  let a := 1 - (3 / 4) ^ n in
  let s := 125 / 7 - 5375 / 154 * (43 / 50) ^ n + 375 / 22 * (3 / 4) ^ n in
  along_front rot a s (steps n b rot 0 1 false (1 / 60)) /\
  0 <= a <= 1 /\ 0 <= s < 125 / 7 /\ (s = 0 \/ 5 / 8 <= s).
Proof.
  intros Hg Hdx Hdz Hvx Hvz.
  induction n as [| n IH]; cbv zeta.
  - cbn [steps pow]. unfold along_front.
    rewrite Hg, Hdx, Hdz, Hvx, Hvz.
    split; [repeat split; lra |]. split; [lra |]. split; [lra |].
    left. lra.
  - cbv zeta in IH. destruct IH as (Hal & (Ha0 & Ha1) & (Hs0 & Hs1) & Hcut).
    cbn [steps pow].
    set (p := (43 / 50) ^ n) in *. set (q := (3 / 4) ^ n) in *.
    set (s := 125 / 7 - 5375 / 154 * p + 375 / 22 * q) in *.
    assert (Hs' : FRICTION * s + (1 - 3 / 4 * q) * (5 / 2)
                  = 125 / 7 - 5375 / 154 * (43 / 50 * p)
                    + 375 / 22 * (3 / 4 * q)).
    { unfold FRICTION. subst s. lra. }
    split.
    + apply (along_front_step_values rot (1 - q) s _ 1 false (1 / 60)
               (1 - 3 / 4 * q) (FRICTION * s)); [exact Hal | exact Hs0 | | |].
      * rewrite control_rate_60. unfold mix. lra.
      * destruct (Rlt_dec _ _) as [Hlt | _]; [| reflexivity].
        unfold FRICTION, MAX_SPEED in Hlt |- *. destruct Hcut; lra.
      * rewrite <- Hs'. f_equal. f_equal.
        unfold MAX_SPEED, MAX_ACCEL, FRICTION.
        rewrite clamp_above; [lra | lra |]. nra.
    + rewrite <- Hs'. unfold FRICTION.
      split; [lra |]. split; [split; nra |]. right. nra.
Qed.

Lemma player0_at_rest :
  isGrounded player0 = true /\
  x (dir player0) = 0 /\ z (dir player0) = 0 /\
  x (velocity player0) = 0 /\ z (velocity player0) = 0.
Proof. unfold player0, splat; cbn. repeat split; lra. Qed.

Lemma desired_dir_weights (rot : R) (side forward : Z) :
  x (desired_dir rot side forward)
  = IZR side * x (right_of rot) - IZR forward * x (front_of rot) /\
  y (desired_dir rot side forward) = 0 /\
  z (desired_dir rot side forward)
  = IZR side * z (right_of rot) - IZR forward * z (front_of rot).
Proof.
  unfold desired_dir; cbn [x y z]. rewrite opp_IZR. repeat split; lra.
Qed.

Lemma front_right_orthonormal (rot : R) :
  dot (front_of rot) (front_of rot) = 1 /\
  dot (right_of rot) (right_of rot) = 1 /\
  dot (front_of rot) (right_of rot) = 0.
Proof.
  unfold dot, front_of, right_of; cbn [x y z].
  rewrite cos_neg, sin_neg. pose proof (sin2_cos2' rot).
  repeat split; lra.
Qed.

Lemma terminal_speed_limit :
  Un_cv (fun n : nat =>
           125 / 7 - 5375 / 154 * (43 / 50) ^ n + 375 / 22 * (3 / 4) ^ n)
        (125 / 7).
Proof.
  intros eps Heps.
  assert (Hp : Rabs (43 / 50) < 1) by (rewrite Rabs_pos_eq; lra).
  assert (Hq : Rabs (3 / 4) < 1) by (rewrite Rabs_pos_eq; lra).
  assert (He : 0 < eps / 70) by lra.
  destruct (pow_lt_1_zero _ Hp _ He) as [N1 H1].
  destruct (pow_lt_1_zero _ Hq _ He) as [N2 H2].
  exists (N1 + N2)%nat. intros n Hn.
  specialize (H1 n ltac:(lia)). specialize (H2 n ltac:(lia)).
  unfold Rdist.
  apply Rabs_def2 in H1. apply Rabs_def2 in H2.
  apply Rabs_def1; lra.
Qed.

(** C4, as stated, fails at the start state with yaw 0: after 120 steps of
    1/60 s with the forward key held the horizontal speed is below 125/7,
    more than 2 short of [MAX_SPEED], and [dir] points against the vector
    [(sin yaw, 0, cos yaw) = (0, 0, 1)]. *)
Lemma forward_run_misses_max_speed :
  let b := steps 120 player0 0 0 1 false (1 / 60) in
  hspeed b < 125 / 7 /\
  2 < MAX_SPEED - hspeed b /\
  front_of 0 = mkVec3 0 0.0 1 /\
  z (dir b) < - (9 / 10) /\
  dot (dir b) (front_of 0) < 0.
Proof.
  destruct player0_at_rest as (Hg & Hdx & Hdz & Hvx & Hvz).
  destruct (forward_run_closed_form player0 0 120 Hg Hdx Hdz Hvx Hvz)
    as (Hal & Ha & Hs & _).
  intros b. fold b in Hal.
  assert (Hh := along_front_hspeed _ _ _ _ Hal (proj1 Hs)).
  destruct Hal as (_ & Ax & Az & _ & _).
  rewrite sin_0 in Ax. rewrite cos_0 in Az.
  assert (Hpow : (3 / 4) ^ 120 < 1 / 10).
  { replace 120%nat with (12 + 108)%nat by reflexivity.
    rewrite pow_add.
    assert (H12 : 0 <= (3 / 4) ^ 12 < 1 / 10) by (cbn [pow]; lra).
    assert (H108 : 0 <= (3 / 4) ^ 108 <= 1).
    { split; [apply pow_le; lra |].
      rewrite <- (pow1 108). apply pow_incr. lra. }
    nra. }
  unfold MAX_SPEED. rewrite Hh.
  split; [lra |]. split; [lra |]. split.
  { unfold front_of. rewrite sin_0, cos_0. reflexivity. }
  split; [lra |].
  unfold dot, front_of. rewrite sin_0, cos_0. cbn [x y z]. rewrite Ax. lra.
Qed.

(** C4, amended.  From a grounded body at rest whose [dir] is zero, with
    the forward key held, no strafe and no crouch, steps of 1/60 s make the
    horizontal speed rise towards [MAX_ACCEL * dt / (1 - FRICTION) = 125/7],
    which is below [MAX_SPEED] and which the speed never reaches, and make
    [dir] approach the negated front vector [- (sin yaw, 0, cos yaw)], the
    distance left after [n] steps being [(3/4)^n], where [3/4] is
    [1 - CONTROL * dt].  The desired direction of a step is [side] times the
    right unit vector minus [forward] times the front unit vector. *)
Theorem forward_run_terminal_speed :
  forall (b : Body) (rot : R),
    isGrounded b = true ->
    x (dir b) = 0 -> z (dir b) = 0 ->
    x (velocity b) = 0 -> z (velocity b) = 0 ->
    (forall side forward : Z,
        x (desired_dir rot side forward)
        = IZR side * x (right_of rot) - IZR forward * x (front_of rot) /\
        y (desired_dir rot side forward) = 0 /\
        z (desired_dir rot side forward)
        = IZR side * z (right_of rot) - IZR forward * z (front_of rot)) /\
    (dot (front_of rot) (front_of rot) = 1 /\
     dot (right_of rot) (right_of rot) = 1 /\
     dot (front_of rot) (right_of rot) = 0) /\
    (forall n : nat,
        let bn := steps n b rot 0 1 false (1 / 60) in
        x (dir bn) = - (1 - (3 / 4) ^ n) * x (front_of rot) /\
        z (dir bn) = - (1 - (3 / 4) ^ n) * z (front_of rot) /\
        x (velocity bn) = - hspeed bn * x (front_of rot) /\
        z (velocity bn) = - hspeed bn * z (front_of rot) /\
        hspeed bn
        = 125 / 7 - 5375 / 154 * (43 / 50) ^ n + 375 / 22 * (3 / 4) ^ n /\
        hspeed bn < 125 / 7) /\
    1 - CONTROL * (1 / 60) = 3 / 4 /\
    MAX_ACCEL * (1 / 60) / (1 - FRICTION) = 125 / 7 /\
    125 / 7 < MAX_SPEED /\
    Un_cv (fun n : nat => hspeed (steps n b rot 0 1 false (1 / 60))) (125 / 7).
Proof.
  intros b rot Hg Hdx Hdz Hvx Hvz.
  assert (Hn : forall n : nat,
             let bn := steps n b rot 0 1 false (1 / 60) in
             along_front rot (1 - (3 / 4) ^ n) (hspeed bn) bn /\
             hspeed bn
             = 125 / 7 - 5375 / 154 * (43 / 50) ^ n + 375 / 22 * (3 / 4) ^ n /\
             hspeed bn < 125 / 7).
  { intros n bn.
    destruct (forward_run_closed_form b rot n Hg Hdx Hdz Hvx Hvz)
      as (Hal & _ & Hs & _).
    fold bn in Hal.
    rewrite (along_front_hspeed _ _ _ _ Hal (proj1 Hs)).
    split; [exact Hal |]. split; [reflexivity | lra]. }
  split; [intros; apply desired_dir_weights |].
  split; [apply front_right_orthonormal |].
  split.
  { intros n bn. destruct (Hn n) as ((_ & Ax & Az & Vx & Vz) & Hs & Hlt).
    fold bn in Ax, Az, Vx, Vz, Hs, Hlt.
    unfold front_of; cbn [x z]. repeat split; assumption. }
  split; [unfold CONTROL; lra |].
  split; [unfold MAX_ACCEL, FRICTION; lra |].
  split; [unfold MAX_SPEED; lra |].
  intros eps Heps. destruct (terminal_speed_limit eps Heps) as [N HN].
  exists N. intros n Hge. destruct (Hn n) as (_ & Hs & _).
  rewrite Hs. apply HN. exact Hge.
Qed.

Lemma forward_run_terminal_speed_witness :
  isGrounded player0 = true /\
  x (dir player0) = 0 /\ z (dir player0) = 0 /\
  x (velocity player0) = 0 /\ z (velocity player0) = 0 /\
  hspeed (steps 120 player0 0 0 1 false (1 / 60)) < 125 / 7 /\
  125 / 7 < MAX_SPEED.
Proof.
  destruct player0_at_rest as (Hg & Hdx & Hdz & Hvx & Hvz).
  destruct (forward_run_terminal_speed player0 0 Hg Hdx Hdz Hvx Hvz)
    as (_ & _ & Hn & _ & _ & Hmax & _).
  destruct (Hn 120%nat) as (_ & _ & _ & _ & _ & Hlt).
  repeat split; assumption.
Defined.

(** ** The angle between two vectors *)

Lemma feq_true (a b : R) : feq a b = true <-> a = b.
Proof. unfold feq. destruct (Req_dec_T a b); split; congruence. Qed.

Lemma feq_false (a b : R) : feq a b = false <-> a <> b.
Proof. unfold feq. destruct (Req_dec_T a b); split; congruence. Qed.

Lemma length_nonneg (a : vec3) : 0 <= length a.
Proof. apply sqrt_pos. Qed.

Lemma length_zero_iff (a : vec3) :
  length a = 0 <-> x a = 0 /\ y a = 0 /\ z a = 0.
Proof.
  unfold length, dot. split.
  - intros H. apply sqrt_eq_0 in H; [| nra].
    repeat split; nra.
  - intros (Hx & Hy & Hz). rewrite Hx, Hy, Hz.
    replace (0 * 0 + 0 * 0 + 0 * 0) with 0 by ring. apply sqrt_0.
Qed.

Lemma VecAngle_zero_length (a b : vec3) :
  length a = 0 \/ length b = 0 -> VecAngle a b = Some 0.
Proof.
  intros H. unfold VecAngle.
  assert (Ht : feq (length a) 0.0 || feq (length b) 0.0 = true).
  { apply orb_true_iff.
    destruct H as [H | H]; [left | right]; apply feq_true; lra. }
  rewrite Ht. f_equal. lra.
Qed.

Lemma VecAngle_nonzero_length (a b : vec3) :
  length a <> 0 -> length b <> 0 ->
  length a * length b <> 0 /\
  VecAngle a b
  = Some (acos (clamp (dot a b / (length a * length b)) (- 1) 1)).
Proof.
  intros Ha Hb.
  assert (Hab : length a * length b <> 0).
  { intros H. apply Rmult_integral in H. tauto. }
  split; [exact Hab |].
  unfold VecAngle.
  assert (Hf : feq (length a) 0.0 || feq (length b) 0.0 = false).
  { apply orb_false_iff. split; apply feq_false; lra. }
  rewrite Hf. unfold fdiv.
  assert (Hd : feq (length a * length b) 0.0 = false).
  { apply feq_false. lra. }
  rewrite Hd. cbn [bind]. do 2 f_equal. f_equal; lra.
Qed.

(** C9.  [VecAngle] has a value for every pair of vectors, so its quotient
    never has a zero divisor.  When one of the two lengths is zero, which is
    when that vector is the zero vector, the value is the angle 0.
    Otherwise the divisor, the product of the two lengths, is not zero, and
    the value is [acos] of the quotient clamped into [[-1, 1]]. *)
Theorem VecAngle_no_division_by_zero :
  forall a b : vec3,
    VecAngle a b <> None /\
    (length a = 0 \/ length b = 0 -> VecAngle a b = Some 0) /\
    (a = mkVec3 0 0 0 \/ b = mkVec3 0 0 0 -> VecAngle a b = Some 0) /\
    (length a <> 0 -> length b <> 0 ->
     length a * length b <> 0 /\
     exists d : R,
       d = clamp (dot a b / (length a * length b)) (- 1) 1 /\
       - 1 <= d <= 1 /\
       VecAngle a b = Some (acos d)).
Proof.
  intros a b.
  assert (Hnz : length a <> 0 -> length b <> 0 ->
                length a * length b <> 0 /\
                exists d : R,
                  d = clamp (dot a b / (length a * length b)) (- 1) 1 /\
                  - 1 <= d <= 1 /\
                  VecAngle a b = Some (acos d)).
  { intros Ha Hb.
    destruct (VecAngle_nonzero_length a b Ha Hb) as (Hab & Hv).
    split; [exact Hab |].
    eexists. split; [reflexivity |]. split; [| exact Hv].
    apply clamp_bounds. lra. }
  split; [| split; [apply VecAngle_zero_length | split; [| exact Hnz]]].
  - destruct (Req_dec_T (length a) 0) as [Ha | Ha].
    { rewrite VecAngle_zero_length by auto. discriminate. }
    destruct (Req_dec_T (length b) 0) as [Hb | Hb].
    { rewrite VecAngle_zero_length by auto. discriminate. }
    destruct (Hnz Ha Hb) as (_ & d & _ & _ & Hv). rewrite Hv. discriminate.
  - intros H. apply VecAngle_zero_length.
    destruct H as [H | H]; [left | right]; subst;
      apply length_zero_iff; auto.
Qed.

Lemma VecAngle_no_division_by_zero_witness :
  (length (mkVec3 0 0 0) = 0 \/ length (mkVec3 0 1 0) = 0) /\
  (mkVec3 0 0 0 = mkVec3 0 0 0 \/ mkVec3 0 1 0 = mkVec3 0 0 0) /\
  VecAngle (mkVec3 0 0 0) (mkVec3 0 1 0) = Some 0 /\
  length (mkVec3 0 1 0) <> 0 /\
  length (mkVec3 0 0 (- 1)) <> 0 /\
  length (mkVec3 0 1 0) * length (mkVec3 0 0 (- 1)) <> 0 /\
  VecAngle (mkVec3 0 1 0) (mkVec3 0 0 (- 1)) <> None.
Proof.
  assert (H0 : length (mkVec3 0 0 0) = 0).
  { apply length_zero_iff. auto. }
  assert (H1 : length (mkVec3 0 1 0) <> 0).
  { intros H. apply length_zero_iff in H. cbn [x y z] in H. lra. }
  assert (H2 : length (mkVec3 0 0 (- 1)) <> 0).
  { intros H. apply length_zero_iff in H. cbn [x y z] in H. lra. }
  destruct (VecAngle_no_division_by_zero (mkVec3 0 0 0) (mkVec3 0 1 0))
    as (_ & Hz & Hz' & _).
  destruct (VecAngle_no_division_by_zero (mkVec3 0 1 0) (mkVec3 0 0 (- 1)))
    as (Hn & _ & _ & Hd).
  destruct (Hd H1 H2) as (Hp & _).
  pose proof (Hz (or_introl H0)) as G1.
  pose proof (Hz' (or_introl eq_refl)) as G2.
  repeat split; auto.
Defined.

(** ** The camera vectors in closed form *)

Lemma normalize_unit (a : vec3) : dot a a = 1 -> normalize a = a.
Proof.
  intros H. unfold normalize. rewrite H, sqrt_1.
  apply vec3_eq; cbn [scale x y z]; lra.
Qed.

Lemma length_unit (a : vec3) : dot a a = 1 -> length a = 1.
Proof. intros H. unfold length. rewrite H. apply sqrt_1. Qed.

Lemma up_unit : dot (mkVec3 0.0 1.0 0.0) (mkVec3 0.0 1.0 0.0) = 1.
Proof. unfold dot; cbn [x y z]. lra. Qed.

Lemma down_unit :
  dot (neg (mkVec3 0.0 1.0 0.0)) (neg (mkVec3 0.0 1.0 0.0)) = 1.
Proof. unfold dot, neg; cbn [x y z]. lra. Qed.

(** The view vector after the yaw rotation is horizontal and of length 1. *)
Lemma yaw_vec_eq (psi : R) :
  yaw_vec psi = mkVec3 (- sin psi) 0 (- cos psi).
Proof.
  unfold yaw_vec, RotateVecByAxisAngle, rotate_apply.
  rewrite !(normalize_unit _ up_unit).
  apply vec3_eq; cbn [scale x y z]; lra.
Qed.

Lemma yaw_vec_unit (psi : R) : dot (yaw_vec psi) (yaw_vec psi) = 1.
Proof.
  rewrite yaw_vec_eq. unfold dot; cbn [x y z].
  pose proof (sin2_cos2' psi). lra.
Qed.

Lemma cross_yaw_up (psi : R) :
  cross (yaw_vec psi) (mkVec3 0.0 1.0 0.0) = mkVec3 (cos psi) 0 (- sin psi).
Proof.
  rewrite yaw_vec_eq. apply vec3_eq; cbn [cross x y z]; lra.
Qed.

Lemma right_vec_eq (psi : R) :
  right_vec psi = mkVec3 (cos psi) 0 (- sin psi).
Proof.
  unfold right_vec. rewrite cross_yaw_up. apply normalize_unit.
  unfold dot; cbn [x y z]. pose proof (sin2_cos2' psi). lra.
Qed.

Lemma right_vec_unit (psi : R) : dot (right_vec psi) (right_vec psi) = 1.
Proof.
  rewrite right_vec_eq. unfold dot; cbn [x y z].
  pose proof (sin2_cos2' psi). lra.
Qed.

(** The view vector after the pitch rotation: its height is the sine of
    the pitch angle. *)
Lemma pitch_vec_eq (psi theta : R) :
  RotateVecByAxisAngle (yaw_vec psi) (right_vec psi) theta
  = mkVec3 (- (cos theta * sin psi)) (sin theta) (- (cos theta * cos psi)).
Proof.
  unfold RotateVecByAxisAngle, rotate_apply.
  rewrite !(normalize_unit _ (right_vec_unit psi)).
  rewrite right_vec_eq, yaw_vec_eq.
  apply vec3_eq; cbn [scale x y z].
  - ring.
  - replace (sin theta)
      with (sin theta * (sin psi * sin psi + cos psi * cos psi)) at 3
      by (rewrite sin2_cos2'; ring).
    ring.
  - ring.
Qed.

(** Both view clamps measure a right angle. *)
Lemma VecAngle_up_yaw (psi : R) :
  VecAngle (mkVec3 0.0 1.0 0.0) (yaw_vec psi) = Some (PI / 2).
Proof.
  pose proof (length_unit _ up_unit) as Hu.
  pose proof (length_unit _ (yaw_vec_unit psi)) as Hy.
  destruct (VecAngle_nonzero_length (mkVec3 0.0 1.0 0.0) (yaw_vec psi))
    as (_ & Hv); [lra | lra |].
  rewrite Hv, Hu, Hy. f_equal.
  assert (Hd : dot (mkVec3 0.0 1.0 0.0) (yaw_vec psi) = 0).
  { rewrite yaw_vec_eq. unfold dot; cbn [x y z]. lra. }
  rewrite Hd. replace (0 / (1 * 1)) with 0 by lra.
  rewrite clamp_inside by lra. apply acos_0.
Qed.

Lemma VecAngle_down_yaw (psi : R) :
  VecAngle (neg (mkVec3 0.0 1.0 0.0)) (yaw_vec psi) = Some (PI / 2).
Proof.
  pose proof (length_unit _ down_unit) as Hu.
  pose proof (length_unit _ (yaw_vec_unit psi)) as Hy.
  destruct (VecAngle_nonzero_length (neg (mkVec3 0.0 1.0 0.0)) (yaw_vec psi))
    as (_ & Hv); [lra | lra |].
  rewrite Hv, Hu, Hy. f_equal.
  assert (Hd : dot (neg (mkVec3 0.0 1.0 0.0)) (yaw_vec psi) = 0).
  { rewrite yaw_vec_eq. unfold dot, neg; cbn [x y z]. lra. }
  rewrite Hd. replace (0 / (1 * 1)) with 0 by lra.
  rewrite clamp_inside by lra. apply acos_0.
Qed.

(** [UpdateCameraFPS] always returns: it clamps [lookRotation.y], leaves the
    rest of the state alone and places the target one pitch-rotated view
    vector away from the camera position. *)
Lemma UpdateCameraFPS_spec (w : World) :
  exists w' : World,
    UpdateCameraFPS w = Some w' /\
    player w' = player w /\
    x2 (lookRotation w') = x2 (lookRotation w) /\
    y2 (lookRotation w') = clamped_look_y (y2 (lookRotation w)) /\
    headTimer w' = headTimer w /\
    lean w' = lean w /\
    prevSpace w' = prevSpace w /\
    prevTime w' = prevTime w /\
    firstMouse w' = firstMouse w /\
    lastMouseX w' = lastMouseX w /\
    lastMouseY w' = lastMouseY w /\
    cameraTarget w'
    = add (cameraPosition w')
        (RotateVecByAxisAngle (yaw_vec (x2 (lookRotation w')))
           (right_vec (x2 (lookRotation w')))
           (pitch_angle (y2 (lookRotation w')) (y2 (lean w')))).
Proof.
  unfold UpdateCameraFPS. cbv zeta.
  change (RotateVecByAxisAngle (mkVec3 0.0 0.0 (- 1.0)) (mkVec3 0.0 1.0 0.0)
            (x2 (lookRotation w)))
    with (yaw_vec (x2 (lookRotation w))).
  rewrite VecAngle_up_yaw. cbn [bind].
  rewrite VecAngle_down_yaw. cbn [bind].
  eexists. split; [reflexivity |].
  cbn [player lookRotation headTimer lean prevSpace prevTime firstMouse
       lastMouseX lastMouseY cameraTarget cameraPosition].
  unfold clamped_look_y, pitch_angle, right_vec.
  destruct (Rgt_dec _ _); cbn [set_y2 x2 y2];
    destruct (Rlt_dec _ _); cbn [set_y2 x2 y2];
    repeat split; reflexivity.
Qed.

Lemma frame_total (w : World) (i : Input) :
  exists w' : World, frame w i = Some w'.
Proof.
  unfold frame.
  destruct (UpdateCameraFPS_spec (frame_update w i)) as (w' & H & _).
  exists w'. exact H.
Qed.

Lemma run_total (inputs : list Input) :
  forall w : World, exists w' : World, run w inputs = Some w'.
Proof.
  induction inputs as [| i rest IH]; intros w; cbn [run].
  - exists w. reflexivity.
  - destruct (frame_total w i) as (w1 & H1). rewrite H1. cbn [bind].
    apply IH.
Qed.

Lemma run_snoc (inputs : list Input) (i : Input) :
  forall w : World,
    run w (inputs ++ [i]) = bind (run w inputs) (fun w1 => frame w1 i).
Proof.
  induction inputs as [| j rest IH]; intros w; cbn [run app bind].
  - destruct (frame w i); reflexivity.
  - destruct (frame w j) as [w1 |]; cbn [bind]; [apply IH | reflexivity].
Qed.

(** ** The pitch angle *)

Lemma PI_lower_bound : 3.1415 < PI.
Proof.
  pose proof (PI_2_3_7_ineq 2) as [H _].
  unfold PI_2_3_7_tg, tg_alt, Ratan_seq in H. simpl in H. lra.
Qed.

Lemma PI_upper_bound : PI < 3.1416.
Proof.
  pose proof (PI_2_3_7_ineq 2) as [_ H].
  unfold PI_2_3_7_tg, tg_alt, Ratan_seq in H. simpl in H. lra.
Qed.

Lemma pitch_angle_range (lookY leanY : R) :
  - PI_F / 2 + 0.0001 <= pitch_angle lookY leanY <= PI_F / 2 - 0.0001.
Proof.
  unfold pitch_angle.
  replace (- PI_F / 2.0 + 0.0001) with (- PI_F / 2 + 0.0001) by lra.
  replace (PI_F / 2.0 - 0.0001) with (PI_F / 2 - 0.0001) by lra.
  apply clamp_bounds. unfold PI_F. lra.
Qed.

Lemma pitch_angle_inside (lookY leanY : R) :
  - PI / 2 + 1 / 20000 < pitch_angle lookY leanY < PI / 2 - 1 / 20000.
Proof.
  pose proof (pitch_angle_range lookY leanY) as H.
  pose proof PI_lower_bound. unfold PI_F in H. lra.
Qed.

(** C3.  There is a margin, 1/20000, such that the pitch angle handed to
    the pitch rotation lies strictly between [- PI / 2 + margin] and
    [PI / 2 - margin], whatever [lookRotation.y] and [lean.y] are; so after
    any run of frames, with any cursor positions, the last camera update
    has used such an angle, and the view vector it produced has a height
    strictly between -1 and 1 and a horizontal part of positive length
    [cos theta]: it is not on the vertical axis. *)
Theorem pitch_angle_off_the_poles :
  exists margin : R,
    0 < margin /\
    (forall lookY leanY : R,
        - PI / 2 + margin < pitch_angle lookY leanY < PI / 2 - margin) /\
    (forall (w : World) (inputs : list Input) (i : Input),
        exists w' : World,
          run w (inputs ++ [i]) = Some w' /\
          let psi := x2 (lookRotation w') in
          let theta := pitch_angle (y2 (lookRotation w')) (y2 (lean w')) in
          - PI / 2 + margin < theta < PI / 2 - margin /\
          cameraTarget w'
          = add (cameraPosition w')
              (mkVec3 (- (cos theta * sin psi)) (sin theta)
                      (- (cos theta * cos psi))) /\
          0 < cos theta /\
          - 1 < sin theta < 1).
Proof.
  exists (1 / 20000). split; [lra |].
  split; [apply pitch_angle_inside |].
  intros w inputs i. rewrite run_snoc.
  destruct (run_total inputs w) as (w1 & H1). rewrite H1. cbn [bind].
  unfold frame.
  destruct (UpdateCameraFPS_spec (frame_update w1 i))
    as (w' & Hw' & _ & _ & _ & _ & _ & _ & _ & _ & _ & _ & Ht).
  exists w'. split; [exact Hw' |]. cbv zeta.
  set (theta := pitch_angle (y2 (lookRotation w')) (y2 (lean w'))) in *.
  pose proof (pitch_angle_inside (y2 (lookRotation w')) (y2 (lean w')))
    as Hin. fold theta in Hin.
  assert (Hc : 0 < cos theta) by (apply cos_gt_0; lra).
  split; [exact Hin |].
  split; [rewrite Ht, pitch_vec_eq; reflexivity |].
  split; [exact Hc |].
  pose proof (sin2_cos2' theta). split; nra.
Qed.

Lemma pitch_angle_bound_attained :
  pitch_angle (- 2) 0 = PI_F / 2 - 0.0001.
Proof.
  unfold pitch_angle.
  replace (PI_F / 2.0 - 0.0001) with (PI_F / 2 - 0.0001) by lra.
  apply clamp_above; unfold PI_F; lra.
Qed.

(** ** One frame of the loop *)

Lemma getDeltaSeconds_pos (prev now_ : R) :
  0 < fst (getDeltaSeconds prev now_).
Proof.
  unfold getDeltaSeconds. cbn [fst].
  destruct (Rle_dec _ _); lra.
Qed.

Lemma frame_delta_pos (w : World) (i : Input) : 0 < frame_delta w i.
Proof. apply getDeltaSeconds_pos. Qed.

(** The fields [frame_update] writes, in terms of the values it passes
    on. *)
Lemma frame_update_fields (w : World) (i : Input) :
  let w1 := frame_update w i in
  let rot := x2 (lookRotation w) - frame_dx w i * x2 sensitivity in
  let sideway := key_axis (keyD i) (keyA i) in
  let forward := key_axis (keyW i) (keyS i) in
  player w1
  = UpdateBody (player w) rot sideway forward (frame_jumpPressed w i)
      (keyLeftControl i) (frame_delta w i) /\
  lookRotation w1
  = mkVec2 rot (y2 (lookRotation w) + frame_dy w i * y2 sensitivity) /\
  prevSpace w1 = keySpace i /\
  lean w1
  = mkVec2 (mix (x2 (lean w)) (IZR sideway * 0.02)
              (clamp (10.0 * frame_delta w i) 0.0 1.0))
           (mix (y2 (lean w)) (IZR forward * 0.015)
              (clamp (10.0 * frame_delta w i) 0.0 1.0)) /\
  headTimer w1
  = if isGrounded (player w1)
       && (negb (forward =? 0)%Z || negb (sideway =? 0)%Z)
    then headTimer w + frame_delta w i * 3.0
    else headTimer w.
Proof.
  unfold frame_update, frame_delta, frame_dx, frame_dy, frame_jumpPressed.
  destruct (getDeltaSeconds (prevTime w) (now i)) as [delta prev].
  cbn [fst player lookRotation prevSpace lean headTimer].
  repeat split; reflexivity.
Qed.

Lemma clamped_look_y_inside (lookY : R) :
  - (PI / 2 - 0.001) <= lookY <= PI / 2 - 0.001 ->
  clamped_look_y lookY = lookY.
Proof.
  intros H. unfold clamped_look_y. cbv zeta.
  destruct (Rgt_dec _ _) as [H1 | H1]; [unfold Rgt in H1; lra |].
  destruct (Rlt_dec _ _) as [H2 | H2]; [lra | reflexivity].
Qed.

Lemma clamped_look_y_range (lookY : R) :
  - (PI / 2 - 0.001) <= clamped_look_y lookY <= PI / 2 - 0.001.
Proof.
  pose proof PI_lower_bound.
  unfold clamped_look_y. cbv zeta.
  destruct (Rgt_dec _ _) as [H1 | H1]; unfold Rgt in H1;
    destruct (Rlt_dec _ _) as [H2 | H2]; lra.
Qed.

(** ** Turning with the pointer *)

(** C8.  The sensitivity is (0.001, 0.001).  In a frame whose pointer delta
    is (1000, 0) the accumulation [lookRotation.x -= dx * sensitivity.x],
    [lookRotation.y += dy * sensitivity.y] lowers the yaw by exactly 1 and
    leaves the pitch as it was; the camera update that ends the frame keeps
    the yaw, and keeps the pitch too when it was within the view clamps. *)
Theorem pointer_delta_turns_yaw_by_one :
  forall (w : World) (i : Input),
    frame_dx w i = 1000 ->
    frame_dy w i = 0 ->
    sensitivity = mkVec2 0.001 0.001 /\
    x2 (lookRotation (frame_update w i))
    = x2 (lookRotation w) - frame_dx w i * x2 sensitivity /\
    y2 (lookRotation (frame_update w i))
    = y2 (lookRotation w) + frame_dy w i * y2 sensitivity /\
    x2 (lookRotation (frame_update w i)) - x2 (lookRotation w) = - 1 /\
    y2 (lookRotation (frame_update w i)) = y2 (lookRotation w) /\
    exists w' : World,
      frame w i = Some w' /\
      x2 (lookRotation w') - x2 (lookRotation w) = - 1 /\
      (- (PI / 2 - 0.001) <= y2 (lookRotation w) <= PI / 2 - 0.001 ->
       y2 (lookRotation w') = y2 (lookRotation w)).
Proof.
  intros w i Hdx Hdy.
  destruct (frame_update_fields w i) as (_ & Hl & _). cbv zeta in Hl.
  assert (Hx : x2 (lookRotation (frame_update w i)) - x2 (lookRotation w)
               = - 1).
  { rewrite Hl, Hdx. unfold sensitivity; cbn [x2]. lra. }
  assert (Hy : y2 (lookRotation (frame_update w i)) = y2 (lookRotation w)).
  { rewrite Hl, Hdy. unfold sensitivity; cbn [y2]. lra. }
  split; [reflexivity |].
  split; [rewrite Hl; reflexivity |].
  split; [rewrite Hl; reflexivity |].
  split; [exact Hx |]. split; [exact Hy |].
  unfold frame.
  destruct (UpdateCameraFPS_spec (frame_update w i))
    as (w' & Hw' & _ & Hx' & Hy' & _).
  exists w'. split; [exact Hw' |].
  split; [rewrite Hx'; exact Hx |].
  intros Hr. rewrite Hy', Hy. apply clamped_look_y_inside. exact Hr.
Qed.

Lemma pointer_delta_turns_yaw_by_one_witness :
  frame_dx turning_world turn_input = 1000 /\
  frame_dy turning_world turn_input = 0 /\
  - (PI / 2 - 0.001) <= y2 (lookRotation turning_world) <= PI / 2 - 0.001 /\
  x2 (lookRotation (frame_update turning_world turn_input))
  - x2 (lookRotation turning_world) = - 1 /\
  y2 (lookRotation (frame_update turning_world turn_input))
  = y2 (lookRotation turning_world) /\
  exists w' : World,
    frame turning_world turn_input = Some w' /\
    x2 (lookRotation w') - x2 (lookRotation turning_world) = - 1 /\
    y2 (lookRotation w') = y2 (lookRotation turning_world).
Proof.
  assert (Hdx : frame_dx turning_world turn_input = 1000).
  { unfold frame_dx; cbn. lra. }
  assert (Hdy : frame_dy turning_world turn_input = 0).
  { unfold frame_dy; cbn. lra. }
  assert (Hr : - (PI / 2 - 0.001) <= y2 (lookRotation turning_world)
               <= PI / 2 - 0.001).
  { pose proof PI_lower_bound. cbn [turning_world world_with lookRotation y2].
    lra. }
  destruct (pointer_delta_turns_yaw_by_one turning_world turn_input Hdx Hdy)
    as (_ & _ & _ & Hx & Hy & w' & Hw' & Hx' & Hy').
  pose proof (Hy' Hr) as G.
  repeat split; try assumption; try apply Hr.
  exists w'. repeat split; assumption.
Defined.

(** In binary32 the literal [0.001f] is [8589935 * 2^-33], a little above
    1/1000; its product with 1000 still rounds to [1.0f], and a yaw of 0
    becomes [-1.0f = - 8388608 * 2^-23] exactly. *)
Lemma binary32_yaw_turn_from_zero :
  Binary32.sensitivity_x = S754_finite false 8589935 (- 33) /\
  Binary32.accumulate_yaw (S754_zero false) (Binary32.double_of_Z 1000)
  = S754_finite true 8388608 (- 23).
Proof. split; vm_compute; reflexivity. Qed.

(** ** The head-bob timer *)

Lemma sample_frame_delta (b : Body) (first : bool) (i : Input) :
  now i = 1 + 1 / 60 -> frame_delta (world_with b first) i = 1 / 60.
Proof.
  intros Hn. unfold frame_delta, getDeltaSeconds, world_with.
  cbn [prevTime fst]. rewrite Hn.
  assert (Hf : feq 1 0.0 = false) by (apply feq_false; lra).
  rewrite Hf. destruct (Rle_dec _ _); lra.
Qed.

Lemma forward_frame_player (b : Body) :
  player (frame_update (world_with b true) forward_input)
  = UpdateBody b 0 0 1 false false (1 / 60).
Proof.
  destruct (frame_update_fields (world_with b true) forward_input)
    as (Hp & _).
  cbv zeta in Hp. rewrite Hp.
  rewrite (sample_frame_delta b true forward_input eq_refl).
  unfold frame_dx, frame_jumpPressed, key_axis, forward_input, world_with,
    sensitivity.
  cbn [player lookRotation firstMouse prevSpace mx keyD keyA keyW keyS
       keyLeftControl keySpace x2 negb andb Z.b2z Z.sub Z.add Z.opp
       Z.pos_sub].
  f_equal. lra.
Qed.

Lemma running_body_along_front : along_front 0 1 10 running_body.
Proof.
  unfold along_front, running_body; cbn [isGrounded dir velocity x z].
  rewrite sin_0, cos_0. repeat split; lra.
Qed.

Lemma running_body_step :
  along_front 0 1 (111 / 10)
    (UpdateBody running_body 0 0 1 false false (1 / 60)).
Proof.
  pose proof (along_front_step 0 1 10 running_body 1 false (1 / 60)
                running_body_along_front ltac:(lra)) as H.
  cbv zeta in H.
  assert (Hc : clamp (CONTROL * (1 / 60)) 0 1 = 1 / 4).
  { unfold CONTROL. rewrite clamp_inside; lra. }
  rewrite Hc in H.
  destruct (Rlt_dec (FRICTION * 10) (MAX_SPEED * 0.01)) as [Hlt | _].
  { exfalso. unfold FRICTION, MAX_SPEED in Hlt. lra. }
  assert (Hm : mix 1 1 (1 / 4) = 1) by (unfold mix; lra).
  rewrite Hm in H.
  assert (Ha : clamp (MAX_SPEED - FRICTION * 10 * 1) 0 (MAX_ACCEL * (1 / 60))
               = 5 / 2).
  { unfold MAX_SPEED, MAX_ACCEL, FRICTION. rewrite clamp_above; lra. }
  rewrite Ha in H.
  replace (FRICTION * 10 + 1 * (5 / 2)) with (111 / 10) in H
    by (unfold FRICTION; lra).
  exact H.
Qed.

(** C7, as stated, fails: the timer does not advance at a rate
    proportional to the speed.  In the same frame of 1/60 s with the forward
    key down, a player at rest (speed 0 before and 5/8 after the step) and a
    player running (speed 10 before and 111/10 after) see the timer advance
    by the same 1/20; no factor of proportionality fits both. *)
Lemma head_timer_rate_ignores_speed :
  let wa := frame_update rest_world forward_input in
  let wb := frame_update fast_world forward_input in
  frame_delta rest_world forward_input = 1 / 60 /\
  frame_delta fast_world forward_input = 1 / 60 /\
  isGrounded (player wa) = true /\
  isGrounded (player wb) = true /\
  hspeed (player rest_world) = 0 /\
  hspeed (player fast_world) = 10 /\
  hspeed (player wa) = 5 / 8 /\
  hspeed (player wb) = 111 / 10 /\
  headTimer wa - headTimer rest_world = 1 / 20 /\
  headTimer wb - headTimer fast_world = 1 / 20 /\
  ~ (exists k : R,
        headTimer wa - headTimer rest_world
        = k * hspeed (player wa) * (1 / 60) /\
        headTimer wb - headTimer fast_world
        = k * hspeed (player wb) * (1 / 60)) /\
  ~ (exists k : R,
        headTimer wa - headTimer rest_world
        = k * hspeed (player rest_world) * (1 / 60) /\
        headTimer wb - headTimer fast_world
        = k * hspeed (player fast_world) * (1 / 60)).
Proof.
  intros wa wb.
  assert (Da := sample_frame_delta player0 true forward_input eq_refl).
  assert (Db := sample_frame_delta running_body true forward_input eq_refl).
  fold rest_world in Da. fold fast_world in Db.
  assert (Pa : player wa = coasting_body).
  { subst wa. unfold rest_world. rewrite forward_frame_player.
    apply coasting_body_reached. }
  assert (Pb : player wb = UpdateBody running_body 0 0 1 false false (1 / 60)).
  { subst wb. unfold fast_world. apply forward_frame_player. }
  assert (Ga : isGrounded (player wa) = true) by (rewrite Pa; reflexivity).
  assert (Gb : isGrounded (player wb) = true).
  { rewrite Pb. apply running_body_step. }
  assert (Sa0 : hspeed (player rest_world) = 0).
  { apply hspeed_zero; cbn; lra. }
  assert (Sb0 : hspeed (player fast_world) = 10).
  { apply (along_front_hspeed 0 1); [exact running_body_along_front | lra]. }
  assert (Sa : hspeed (player wa) = 5 / 8).
  { rewrite Pa. apply coasting_body_hspeed. }
  assert (Sb : hspeed (player wb) = 111 / 10).
  { rewrite Pb.
    apply (along_front_hspeed 0 1); [exact running_body_step | lra]. }
  assert (Ta : headTimer wa - headTimer rest_world = 1 / 20).
  { destruct (frame_update_fields rest_world forward_input)
      as (_ & _ & _ & _ & Hh).
    cbv zeta in Hh. fold wa in Hh. rewrite Ga, Da in Hh.
    subst wa. rewrite Hh. cbn. lra. }
  assert (Tb : headTimer wb - headTimer fast_world = 1 / 20).
  { destruct (frame_update_fields fast_world forward_input)
      as (_ & _ & _ & _ & Hh).
    cbv zeta in Hh. fold wb in Hh. rewrite Gb, Db in Hh.
    subst wb. rewrite Hh. cbn. lra. }
  repeat match goal with |- _ /\ _ => split end; try assumption.
  - intros (k & Ha & Hb). rewrite Ta, Sa in Ha. rewrite Tb, Sb in Hb. lra.
  - intros (k & Ha & Hb). rewrite Ta, Sa0 in Ha. lra.
Qed.

(** C7, amended.  In every frame the tick length is positive and the
    head-bob timer advances by 3 times the tick length, a fixed rate that
    does not depend on the speed, when the body is grounded after
    [UpdateBody] and one of the two key axes is not zero; in every other
    frame it keeps its value.  The camera update does not touch it. *)
Theorem head_timer_fixed_rate :
  forall (w : World) (i : Input),
    let w1 := frame_update w i in
    let sideway := key_axis (keyD i) (keyA i) in
    let forward := key_axis (keyW i) (keyS i) in
    0 < frame_delta w i /\
    (isGrounded (player w1) = true ->
     (forward <> 0 \/ sideway <> 0)%Z ->
     headTimer w1 = headTimer w + 3 * frame_delta w i) /\
    (isGrounded (player w1) = false \/ (forward = 0 /\ sideway = 0)%Z ->
     headTimer w1 = headTimer w) /\
    exists w' : World, frame w i = Some w' /\ headTimer w' = headTimer w1.
Proof.
  intros w i w1 sideway forward.
  destruct (frame_update_fields w i) as (_ & _ & _ & _ & Hh).
  cbv zeta in Hh. fold w1 sideway forward in Hh.
  split; [apply frame_delta_pos |].
  split; [| split].
  - intros Hg Hk. rewrite Hh, Hg. cbn [andb].
    assert (Hb : negb (forward =? 0)%Z || negb (sideway =? 0)%Z = true).
    { apply orb_true_iff.
      destruct Hk as [Hk | Hk]; [left | right];
        apply negb_true_iff, Z.eqb_neq; exact Hk. }
    rewrite Hb. lra.
  - intros Hn. rewrite Hh.
    destruct Hn as [Hg | (Hf & Hs)].
    + rewrite Hg. reflexivity.
    + rewrite Hf, Hs. cbn [Z.eqb negb orb]. rewrite andb_false_r.
      reflexivity.
  - unfold frame.
    destruct (UpdateCameraFPS_spec w1) as (w' & Hw' & _ & _ & _ & Ht & _).
    exists w'. split; assumption.
Qed.

Lemma head_timer_fixed_rate_witness :
  isGrounded (player (frame_update rest_world forward_input)) = true /\
  (key_axis (keyW forward_input) (keyS forward_input) <> 0 \/
   key_axis (keyD forward_input) (keyA forward_input) <> 0)%Z /\
  headTimer (frame_update rest_world forward_input)
  = headTimer rest_world + 3 * frame_delta rest_world forward_input /\
  (isGrounded (player (frame_update rest_world turn_input)) = false \/
   (key_axis (keyW turn_input) (keyS turn_input) = 0 /\
    key_axis (keyD turn_input) (keyA turn_input) = 0)%Z) /\
  headTimer (frame_update rest_world turn_input) = headTimer rest_world.
Proof.
  assert (Hg : isGrounded (player (frame_update rest_world forward_input))
               = true).
  { unfold rest_world. rewrite forward_frame_player, coasting_body_reached.
    reflexivity. }
  assert (Hk : (key_axis (keyW forward_input) (keyS forward_input) <> 0 \/
                key_axis (keyD forward_input) (keyA forward_input) <> 0)%Z).
  { left. cbn. discriminate. }
  assert (Hz : isGrounded (player (frame_update rest_world turn_input))
               = false \/
               (key_axis (keyW turn_input) (keyS turn_input) = 0 /\
                key_axis (keyD turn_input) (keyA turn_input) = 0)%Z).
  { right. split; reflexivity. }
  destruct (head_timer_fixed_rate rest_world forward_input)
    as (_ & Hadv & _ & _).
  destruct (head_timer_fixed_rate rest_world turn_input)
    as (_ & _ & Hkeep & _).
  pose proof (Hadv Hg Hk) as G1. pose proof (Hkeep Hz) as G2.
  repeat split; assumption.
Defined.

(** ** Jumping *)

Lemma frame_fields (w : World) (i : Input) (w' : World) :
  frame w i = Some w' ->
  player w' = player (frame_update w i) /\ prevSpace w' = keySpace i.
Proof.
  unfold frame. intros H.
  destruct (UpdateCameraFPS_spec (frame_update w i))
    as (w2 & Hw2 & Hp & _ & _ & _ & _ & Hs & _).
  rewrite H in Hw2. injection Hw2 as <-.
  destruct (frame_update_fields w i) as (_ & _ & Hps & _).
  split; [exact Hp | rewrite Hs; exact Hps].
Qed.


(** The step in which the jump block runs leaves the body in the air with
    [velocity.y = JUMP_FORCE], the tick being positive and the body not
    below the ground. *)
Lemma jump_step (b : Body) (rot : R) (side forward : Z) (crouchHold : bool)
    (delta : R) :
  isGrounded b = true -> 0 <= y (position b) -> 0 < delta ->
  let b' := UpdateBody b rot side forward true crouchHold delta in
  y (velocity b') = JUMP_FORCE /\ isGrounded b' = false.
Proof.
  intros Hg Hp Hd b'. subst b'. rewrite UpdateBody_eq.
  unfold grounded_after_jump, vy_before_clamp, jump_taken.
  rewrite Hg. cbn [andb].
  destruct (Rle_dec _ _) as [Hle | _]; cbn [velocity isGrounded y].
  - exfalso. unfold JUMP_FORCE in Hle. nra.
  - split; reflexivity.
Qed.









(** ** Reachable states *)

Lemma UpdateBody_vertical_inv (b : Body) (rot : R) (side forward : Z)
    (jumpPressed crouchHold : bool) (delta : R) :
  vertical_inv b ->
  vertical_inv (UpdateBody b rot side forward jumpPressed crouchHold delta).
Proof.
  intros (Hp & Hg). unfold vertical_inv. rewrite UpdateBody_eq.
  destruct (Rle_dec _ _) as [Hle | Hgt]; cbn [position velocity isGrounded y].
  - split; [lra |]. intros _. split; lra.
  - split; [lra |]. intros Hg1. exfalso. apply Hgt.
    unfold grounded_after_jump, vy_before_clamp in *.
    destruct (jump_taken b jumpPressed); [discriminate |].
    rewrite Hg1. destruct (Hg Hg1) as (Hv & Hy). rewrite Hv, Hy. lra.
Qed.

(** Every state the loop reaches from its start state has a body in a
    sound vertical state. *)
Lemma run_vertical_inv (inputs : list Input) :
  forall w w' : World,
    vertical_inv (player w) ->
    run w inputs = Some w' ->
    vertical_inv (player w').
Proof.
  induction inputs as [| i rest IH]; intros w w' Hinv Hrun; cbn [run] in Hrun.
  - injection Hrun as <-. exact Hinv.
  - destruct (frame w i) as [w1 |] eqn:H1; cbn [bind] in Hrun;
      [| discriminate].
    apply (IH w1 w'); [| exact Hrun].
    destruct (frame_fields w i w1 H1) as (Hp & _). rewrite Hp.
    destruct (frame_update_fields w i) as (Hb & _). cbv zeta in Hb.
    rewrite Hb. apply UpdateBody_vertical_inv. exact Hinv.
Qed.

Lemma world0_vertical_inv (mx0 my0 : R) :
  vertical_inv (player (world0 mx0 my0)).
Proof.
  unfold vertical_inv, world0, player0, splat; cbn. split; [lra |].
  intros _. split; lra.
Qed.

(** C1.  After [UpdateBody], whatever the body and the inputs were,
    [position.y >= 0].  When the integrated height is not above the ground
    the clamp runs and leaves the body grounded at height 0 with
    [velocity.y = 0]; a body that satisfied "grounded implies
    [velocity.y = 0]" before the call satisfies it after the call, so the
    flag never stands beside a vertical velocity.  A body at height 0 that
    moves downwards is not below the ground after one more step: without a
    jump it is at height 0, at rest vertically and grounded.  In every state
    the loop reaches from its start state the body is not below the ground,
    and when it is flagged as grounded its [velocity.y] is 0. *)
Theorem ground_clamp_invariant :
  (forall (b : Body) (rot : R) (side forward : Z)
          (jumpPressed crouchHold : bool) (delta : R),
      let b' := UpdateBody b rot side forward jumpPressed crouchHold delta in
      0 <= y (position b') /\
      (y (position b) + vy_before_clamp b jumpPressed delta * delta <= 0 ->
       isGrounded b' = true /\ y (velocity b') = 0 /\ y (position b') = 0) /\
      ((isGrounded b = true -> y (velocity b) = 0) ->
       isGrounded b' = true -> y (velocity b') = 0) /\
      (y (position b) = 0 -> y (velocity b) < 0 -> 0 < delta ->
       ~ y (position b') < 0 /\
       (jump_taken b jumpPressed = false ->
        y (position b') = 0 /\ y (velocity b') = 0 /\
        isGrounded b' = true))) /\
  (forall (mx0 my0 : R) (inputs : list Input),
      exists w' : World,
        run (world0 mx0 my0) inputs = Some w' /\
        0 <= y (position (player w')) /\
        (isGrounded (player w') = true -> y (velocity (player w')) = 0)).
Proof.
  split.
  - intros b rot side forward jumpPressed crouchHold delta b'.
    subst b'. rewrite UpdateBody_eq.
    set (py := y (position b) + vy_before_clamp b jumpPressed delta * delta).
    destruct (Rle_dec py 0.0) as [Hle | Hgt];
      cbn [position velocity isGrounded y].
    + repeat split; try lra; intros; lra.
    + assert (Hpos : 0 < py) by lra.
      split; [lra |]. split; [intros; lra |]. split.
      * intros Hinv Hg.
        unfold grounded_after_jump, vy_before_clamp in *.
        destruct (jump_taken b jumpPressed); [discriminate |].
        rewrite Hg. auto.
      * intros Hy Hv Hd. split; [lra |].
        intros Hj. exfalso. subst py.
        unfold vy_before_clamp, GRAVITY in Hpos. rewrite Hj in Hpos.
        destruct (isGrounded b); nra.
  - intros mx0 my0 inputs.
    destruct (run_total inputs (world0 mx0 my0)) as (w' & Hrun).
    exists w'. split; [exact Hrun |].
    destruct (run_vertical_inv inputs _ _ (world0_vertical_inv mx0 my0) Hrun)
      as (Hp & Hg).
    split; [exact Hp |]. intros H. apply Hg. exact H.
Qed.

Lemma ground_clamp_invariant_witness :
  let b' := UpdateBody falling_body 0 0 0 false false (1 / 60) in
  (y (position falling_body)
   + vy_before_clamp falling_body false (1 / 60) * (1 / 60) <= 0) /\
  (isGrounded falling_body = true -> y (velocity falling_body) = 0) /\
  y (position falling_body) = 0 /\
  y (velocity falling_body) < 0 /\
  0 < 1 / 60 /\
  jump_taken falling_body false = false /\
  0 <= y (position b') /\
  isGrounded b' = true /\ y (velocity b') = 0 /\ y (position b') = 0.
Proof.
  intros b'.
  destruct ground_clamp_invariant as (Hstep & _).
  destruct (Hstep falling_body 0 0%Z 0%Z false false (1 / 60))
    as (H1 & H2 & H3 & H4).
  assert (Hc : y (position falling_body)
               + vy_before_clamp falling_body false (1 / 60) * (1 / 60) <= 0).
  { unfold vy_before_clamp, GRAVITY; simpl; lra. }
  assert (Hi : isGrounded falling_body = true -> y (velocity falling_body) = 0).
  { simpl; discriminate. }
  assert (Hy : y (position falling_body) = 0) by reflexivity.
  assert (Hv : y (velocity falling_body) < 0) by (simpl; lra).
  assert (Hd : 0 < 1 / 60) by lra.
  assert (Hj : jump_taken falling_body false = false) by reflexivity.
  destruct (H2 Hc) as (G1 & G2 & G3).
  pose proof (H3 Hi G1) as G4.
  destruct (H4 Hy Hv Hd) as (G5 & G6).
  destruct (G6 Hj) as (G7 & G8 & G9).
  repeat split; assumption.
Defined.

(** C10.  A grounded body that is stepped without a jump keeps its height,
    its vertical velocity and its grounded flag, whatever the other inputs:
    gravity is skipped, so only the horizontal components of the position
    and the velocity, and [dir], can change.  The body is one the program
    can hold, grounded with [velocity.y = 0] and not below the ground; every
    body the loop reaches from its start state is of this kind, so there
    the statement holds of every grounded body as it is. *)
Theorem grounded_step_keeps_vertical_state :
  (forall (b : Body) (rot : R) (side forward : Z) (crouchHold : bool)
          (delta : R),
      isGrounded b = true ->
      y (velocity b) = 0 ->
      0 <= y (position b) ->
      let b' := UpdateBody b rot side forward false crouchHold delta in
      y (position b') = y (position b) /\
      y (velocity b') = y (velocity b) /\
      isGrounded b' = isGrounded b) /\
  (forall (mx0 my0 : R) (inputs : list Input),
      exists w : World,
        run (world0 mx0 my0) inputs = Some w /\
        (isGrounded (player w) = true ->
         forall (rot : R) (side forward : Z) (crouchHold : bool) (delta : R),
           let b' :=
             UpdateBody (player w) rot side forward false crouchHold delta in
           y (position b') = y (position (player w)) /\
           y (velocity b') = y (velocity (player w)) /\
           isGrounded b' = isGrounded (player w))).
Proof.
  split.
  - intros b rot side forward crouchHold delta Hg Hv Hp.
    apply grounded_step_vertical; assumption.
  - intros mx0 my0 inputs.
    destruct (run_total inputs (world0 mx0 my0)) as (w & Hrun).
    exists w. split; [exact Hrun |].
    intros Hg rot side forward crouchHold delta.
    destruct (run_vertical_inv inputs (world0 mx0 my0) w
                (world0_vertical_inv mx0 my0) Hrun) as (Hp & Hinv).
    destruct (Hinv Hg) as (Hv & _).
    apply grounded_step_vertical; assumption.
Qed.

Lemma grounded_step_keeps_vertical_state_witness :
  isGrounded standing_body = true /\
  y (velocity standing_body) = 0 /\
  0 <= y (position standing_body) /\
  (let b' := UpdateBody standing_body (1 / 2) 1 (- 1) false true (1 / 60) in
   y (position b') = y (position standing_body) /\
   y (velocity b') = y (velocity standing_body) /\
   isGrounded b' = isGrounded standing_body) /\
  isGrounded (player (world0 0 0)) = true /\
  (let b' :=
     UpdateBody (player (world0 0 0)) (1 / 2) 1 (- 1) false true (1 / 60) in
   y (position b') = y (position (player (world0 0 0))) /\
   y (velocity b') = y (velocity (player (world0 0 0))) /\
   isGrounded b' = isGrounded (player (world0 0 0))).
Proof.
  assert (Hg : isGrounded standing_body = true) by reflexivity.
  assert (Hv : y (velocity standing_body) = 0) by reflexivity.
  assert (Hp : 0 <= y (position standing_body)) by (simpl; lra).
  assert (Hg0 : isGrounded (player (world0 0 0)) = true) by reflexivity.
  destruct grounded_step_keeps_vertical_state as (Hstep & Hreach).
  destruct (Hreach 0 0 []) as (w & Hrun & Hkeep).
  cbn [run] in Hrun. injection Hrun as <-.
  split; [exact Hg |]. split; [exact Hv |]. split; [exact Hp |].
  split; [exact (Hstep standing_body (1 / 2) 1%Z (- 1)%Z true (1 / 60)
                   Hg Hv Hp) |].
  split; [exact Hg0 |].
  exact (Hkeep Hg0 (1 / 2) 1%Z (- 1)%Z true (1 / 60)).
Defined.

(** * Further properties of main.cpp *)

(** ** The tick length *)

(** X1.  [getDeltaSeconds] returns a positive tick length whatever the
    clock reads and stores the reading for the next call.  When the stored
    reading is not 0 and the clock has advanced, the tick is the time
    elapsed; on the first call (stored reading 0) and when the clock has not
    advanced, it is 1/60. *)
Theorem getDeltaSeconds_tick :
  forall prev now_ : R,
    0 < fst (getDeltaSeconds prev now_) /\
    snd (getDeltaSeconds prev now_) = now_ /\
    (prev <> 0 -> prev < now_ ->
     fst (getDeltaSeconds prev now_) = now_ - prev) /\
    (prev = 0 \/ now_ <= prev ->
     fst (getDeltaSeconds prev now_) = 1 / 60).
Proof.
  intros prev now_. unfold getDeltaSeconds. cbn [fst snd].
  split; [destruct (Rle_dec _ _); lra |].
  split; [reflexivity |]. split.
  - intros Hn Hlt.
    assert (Hf : feq prev 0.0 = false) by (apply feq_false; lra).
    rewrite Hf. destruct (Rle_dec _ _); lra.
  - intros [H0 | Hle].
    + assert (Hf : feq prev 0.0 = true) by (apply feq_true; lra).
      rewrite Hf. destruct (Rle_dec _ _); lra.
    + destruct (feq prev 0.0); destruct (Rle_dec _ _); lra.
Qed.

Lemma getDeltaSeconds_tick_witness :
  (2 : R) <> 0 /\ 2 < 5 / 2 /\
  fst (getDeltaSeconds 2 (5 / 2)) = 5 / 2 - 2 /\
  ((0 : R) = 0 \/ 7 <= 0) /\
  fst (getDeltaSeconds 0 7) = 1 / 60.
Proof.
  assert (H2 : (2 : R) <> 0) by lra.
  assert (Hlt : 2 < 5 / 2) by lra.
  assert (H0 : (0 : R) = 0 \/ 7 <= 0) by (left; reflexivity).
  destruct (getDeltaSeconds_tick 2 (5 / 2)) as (_ & _ & Hadv & _).
  destruct (getDeltaSeconds_tick 0 7) as (_ & _ & _ & Hfirst).
  pose proof (Hadv H2 Hlt) as G1. pose proof (Hfirst H0) as G2.
  repeat split; assumption.
Defined.

(** ** Angles *)

Lemma length_sq (a : vec3) : length a * length a = dot a a.
Proof.
  unfold length. apply sqrt_sqrt. unfold dot. nra.
Qed.

Lemma dot_comm (a b : vec3) : dot a b = dot b a.
Proof. unfold dot. ring. Qed.

(** Cauchy-Schwarz, on the vectors of the program. *)
Lemma dot_le_lengths (a b : vec3) :
  - (length a * length b) <= dot a b <= length a * length b.
Proof.
  pose proof (length_nonneg a) as Ha. pose proof (length_nonneg b) as Hb.
  pose proof (length_sq a) as Sa. pose proof (length_sq b) as Sb.
  assert (Hsq : dot a b * dot a b <= (length a * length b) * (length a * length b)).
  { replace (length a * length b * (length a * length b))
      with (dot a a * dot b b) by (rewrite <- Sa, <- Sb; ring).
    unfold dot.
    assert (H := Rle_0_sqr (x a * y b - y a * x b)).
    assert (H' := Rle_0_sqr (x a * z b - z a * x b)).
    assert (H'' := Rle_0_sqr (y a * z b - z a * y b)).
    unfold Rsqr in *. nra. }
  assert (Hp : 0 <= length a * length b) by nra.
  split; nra.
Qed.

Lemma VecAngle_value (a b : vec3) :
  length a <> 0 -> length b <> 0 ->
  VecAngle a b = Some (acos (dot a b / (length a * length b))) /\
  - 1 <= dot a b / (length a * length b) <= 1.
Proof.
  intros Ha Hb.
  destruct (VecAngle_nonzero_length a b Ha Hb) as (Hab & Hv).
  pose proof (length_nonneg a). pose proof (length_nonneg b).
  assert (Hp : 0 < length a * length b) by nra.
  destruct (dot_le_lengths a b) as (Hlo & Hhi).
  assert (Hd : - 1 <= dot a b / (length a * length b) <= 1).
  { split.
    - apply (Rmult_le_reg_r (length a * length b)); [exact Hp |].
      unfold Rdiv. rewrite Rmult_assoc, Rinv_l by lra. lra.
    - apply (Rmult_le_reg_r (length a * length b)); [exact Hp |].
      unfold Rdiv. rewrite Rmult_assoc, Rinv_l by lra. lra. }
  split; [| exact Hd].
  rewrite Hv, clamp_inside by exact Hd. reflexivity.
Qed.

Lemma VecAngle_symmetric (a b : vec3) : VecAngle a b = VecAngle b a.
Proof.
  destruct (Req_dec_T (length a) 0) as [Ha | Ha].
  { rewrite !VecAngle_zero_length by auto. reflexivity. }
  destruct (Req_dec_T (length b) 0) as [Hb | Hb].
  { rewrite !VecAngle_zero_length by auto. reflexivity. }
  destruct (VecAngle_value a b Ha Hb) as (-> & _).
  destruct (VecAngle_value b a Hb Ha) as (-> & _).
  rewrite (dot_comm a b), (Rmult_comm (length a)). reflexivity.
Qed.

(** X2.  [VecAngle] is symmetric in its arguments and its value lies
    between 0 and PI.  For two vectors of non-zero length it is the
    geometric angle: the product of the two lengths and of its cosine is
    the dot product (so in exact arithmetic the clamp leaves the quotient
    as it is). *)
Theorem VecAngle_geometric :
  forall a b : vec3,
    VecAngle a b = VecAngle b a /\
    exists t : R,
      VecAngle a b = Some t /\
      0 <= t <= PI /\
      (length a <> 0 -> length b <> 0 ->
       length a * length b * cos t = dot a b).
Proof.
  intros a b. split; [apply VecAngle_symmetric |].
  destruct (Req_dec_T (length a) 0) as [Ha | Ha].
  { exists 0. rewrite VecAngle_zero_length by auto.
    pose proof PI_RGT_0. split; [reflexivity |]. split; [lra |].
    intros; contradiction. }
  destruct (Req_dec_T (length b) 0) as [Hb | Hb].
  { exists 0. rewrite VecAngle_zero_length by auto.
    pose proof PI_RGT_0. split; [reflexivity |]. split; [lra |].
    intros; contradiction. }
  destruct (VecAngle_value a b Ha Hb) as (Hv & Hd).
  exists (acos (dot a b / (length a * length b))).
  split; [exact Hv |]. split; [apply acos_bound |].
  intros _ _. rewrite cos_acos by exact Hd. field. split; assumption.
Qed.

Lemma VecAngle_geometric_witness :
  length (mkVec3 3 0 4) <> 0 /\
  length (mkVec3 0 2 0) <> 0 /\
  exists t : R,
    VecAngle (mkVec3 3 0 4) (mkVec3 0 2 0) = Some t /\
    length (mkVec3 3 0 4) * length (mkVec3 0 2 0) * cos t
    = dot (mkVec3 3 0 4) (mkVec3 0 2 0).
Proof.
  assert (Ha : length (mkVec3 3 0 4) <> 0).
  { intros H. apply length_zero_iff in H. cbn [x y z] in H. lra. }
  assert (Hb : length (mkVec3 0 2 0) <> 0).
  { intros H. apply length_zero_iff in H. cbn [x y z] in H. lra. }
  destruct (VecAngle_geometric (mkVec3 3 0 4) (mkVec3 0 2 0))
    as (_ & t & Hv & _ & Hc).
  split; [exact Ha |]. split; [exact Hb |].
  exists t. split; [exact Hv | exact (Hc Ha Hb)].
Defined.

Lemma length_scale (a : vec3) (k : R) :
  0 <= k -> length (scale a k) = k * length a.
Proof.
  intros Hk. unfold length, dot, scale; cbn [x y z].
  replace (x a * k * (x a * k) + y a * k * (y a * k) + z a * k * (z a * k))
    with ((k * k) * (x a * x a + y a * y a + z a * z a)) by ring.
  rewrite sqrt_mult; [| nra | nra].
  rewrite sqrt_square by exact Hk. reflexivity.
Qed.

Lemma length_neg (a : vec3) : length (neg a) = length a.
Proof.
  unfold length, dot, neg; cbn [x y z]. f_equal. ring.
Qed.

(** X3.  The angle of a vector with itself is 0; with its negation it is
    PI and with a perpendicular vector PI / 2, the lengths not being zero;
    stretching an argument by a positive factor leaves the angle as it
    is. *)
Theorem VecAngle_special_angles :
  forall a b : vec3,
    VecAngle a a = Some 0 /\
    (length a <> 0 -> VecAngle a (VecNeg a) = Some PI) /\
    (length a <> 0 -> length b <> 0 -> dot a b = 0 ->
     VecAngle a b = Some (PI / 2)) /\
    (forall k : R, 0 < k -> VecAngle (scale a k) b = VecAngle a b).
Proof.
  intros a b.
  assert (Hself : VecAngle a a = Some 0).
  { destruct (Req_dec_T (length a) 0) as [Ha | Ha].
    { apply VecAngle_zero_length; auto. }
    destruct (VecAngle_value a a Ha Ha) as (-> & _).
    rewrite <- length_sq. unfold Rdiv. rewrite Rinv_r; [| nra].
    rewrite acos_1. reflexivity. }
  split; [exact Hself |]. split; [| split].
  - intros Ha. unfold VecNeg.
    assert (Hn : length (neg a) <> 0) by (rewrite length_neg; exact Ha).
    destruct (VecAngle_value a (neg a) Ha Hn) as (-> & _).
    rewrite length_neg.
    replace (dot a (neg a)) with (- (length a * length a)).
    2:{ rewrite length_sq. unfold dot, neg; cbn [x y z]. ring. }
    replace (- (length a * length a) / (length a * length a)) with (- (1)).
    2:{ field. exact Ha. }
    rewrite acos_opp, acos_1. f_equal. ring.
  - intros Ha Hb H0.
    destruct (VecAngle_value a b Ha Hb) as (-> & _).
    rewrite H0. unfold Rdiv. rewrite Rmult_0_l, acos_0. reflexivity.
  - intros k Hk.
    assert (Hl : length (scale a k) = k * length a)
      by (apply length_scale; lra).
    destruct (Req_dec_T (length a) 0) as [Ha | Ha].
    { rewrite !VecAngle_zero_length; [reflexivity | auto |].
      left. rewrite Hl, Ha. ring. }
    destruct (Req_dec_T (length b) 0) as [Hb | Hb].
    { rewrite !VecAngle_zero_length by auto. reflexivity. }
    assert (Hs : length (scale a k) <> 0).
    { rewrite Hl. intros H. apply Rmult_integral in H. destruct H; lra. }
    destruct (VecAngle_value (scale a k) b Hs Hb) as (-> & _).
    destruct (VecAngle_value a b Ha Hb) as (-> & _).
    rewrite Hl. do 2 f_equal.
    replace (dot (scale a k) b) with (k * dot a b)
      by (unfold dot, scale; cbn [x y z]; ring).
    field. repeat split; lra.
Qed.

Lemma VecAngle_special_angles_witness :
  length (mkVec3 3 0 4) <> 0 /\
  length (mkVec3 0 2 0) <> 0 /\
  dot (mkVec3 3 0 4) (mkVec3 0 2 0) = 0 /\
  (0 < 5) /\
  VecAngle (mkVec3 3 0 4) (VecNeg (mkVec3 3 0 4)) = Some PI /\
  VecAngle (mkVec3 3 0 4) (mkVec3 0 2 0) = Some (PI / 2) /\
  VecAngle (scale (mkVec3 3 0 4) 5) (mkVec3 0 2 0)
  = VecAngle (mkVec3 3 0 4) (mkVec3 0 2 0).
Proof.
  assert (Ha : length (mkVec3 3 0 4) <> 0).
  { intros H. apply length_zero_iff in H. cbn [x y z] in H. lra. }
  assert (Hb : length (mkVec3 0 2 0) <> 0).
  { intros H. apply length_zero_iff in H. cbn [x y z] in H. lra. }
  assert (H0 : dot (mkVec3 3 0 4) (mkVec3 0 2 0) = 0).
  { unfold dot; cbn [x y z]. ring. }
  assert (H5 : 0 < 5) by lra.
  destruct (VecAngle_special_angles (mkVec3 3 0 4) (mkVec3 0 2 0))
    as (_ & Hopp & Hperp & Hk).
  pose proof (Hopp Ha) as G1. pose proof (Hperp Ha Hb H0) as G2.
  pose proof (Hk 5 H5) as G3.
  repeat split; assumption.
Defined.

(** ** Rotations *)

Lemma normalize_is_unit (a : vec3) :
  length a <> 0 -> dot (normalize a) (normalize a) = 1.
Proof.
  intros Ha. unfold normalize. fold (length a).
  replace (dot (scale a (1 / length a)) (scale a (1 / length a)))
    with (dot a a * (1 / length a) * (1 / length a))
    by (unfold dot, scale; cbn [x y z]; ring).
  rewrite <- length_sq. field. exact Ha.
Qed.

Lemma normalize_scale (a : vec3) (k : R) :
  0 < k -> length a <> 0 -> normalize (scale a k) = normalize a.
Proof.
  intros Hk Ha. unfold normalize. fold (length (scale a k)) (length a).
  rewrite length_scale by lra.
  apply vec3_eq; cbn [scale x y z]; field; split; lra.
Qed.

(** [RotateVecByAxisAngle] about an axis of non-zero length is the matrix
    of [rotate_apply] for the unit vector [k] along the axis. *)
Lemma RotateVecByAxisAngle_unit (p axis : vec3) (angle : R) :
  length axis <> 0 ->
  let k := normalize axis in
  dot k k = 1 /\
  RotateVecByAxisAngle p axis angle
  = let c := cos angle in
    let s := sin angle in
    mkVec3
      ((c + x k * (1 - c) * x k) * x p
       + (y k * (1 - c) * x k - s * z k) * y p
       + (z k * (1 - c) * x k + s * y k) * z p + 0 * 1)
      ((x k * (1 - c) * y k + s * z k) * x p
       + (c + y k * (1 - c) * y k) * y p
       + (z k * (1 - c) * y k - s * x k) * z p + 0 * 1)
      ((x k * (1 - c) * z k - s * y k) * x p
       + (y k * (1 - c) * z k + s * x k) * y p
       + (c + z k * (1 - c) * z k) * z p + 0 * 1).
Proof.
  intros Ha k. pose proof (normalize_is_unit axis Ha) as Hk. fold k in Hk.
  split; [exact Hk |].
  unfold RotateVecByAxisAngle, rotate_apply. fold k.
  rewrite (normalize_unit k Hk). reflexivity.
Qed.

Lemma RotateVecByAxisAngle_dot (u v axis : vec3) (angle : R) :
  length axis <> 0 ->
  dot (RotateVecByAxisAngle u axis angle) (RotateVecByAxisAngle v axis angle)
  = dot u v.
Proof.
  intros Ha.
  destruct (RotateVecByAxisAngle_unit u axis angle Ha) as (Hk & Hu).
  destruct (RotateVecByAxisAngle_unit v axis angle Ha) as (_ & Hv).
  cbv zeta in Hk, Hu, Hv. rewrite Hu, Hv.
  pose proof (sin2_cos2' angle) as Hsc.
  unfold dot in *; cbn [x y z] in *.
  set (k := normalize axis) in *.
  nsatz.
Qed.

Lemma RotateVecByAxisAngle_along_axis (p axis : vec3) (angle : R) :
  length axis <> 0 ->
  dot (RotateVecByAxisAngle p axis angle) (normalize axis)
  = dot p (normalize axis).
Proof.
  intros Ha.
  destruct (RotateVecByAxisAngle_unit p axis angle Ha) as (Hk & Hr).
  cbv zeta in Hk, Hr. rewrite Hr.
  unfold dot in *; cbn [x y z]. set (k := normalize axis) in *.
  nsatz.
Qed.

(** X4.  A rotation about an axis of non-zero length keeps dot products,
    and so lengths and right angles: the camera's rotated vectors are as
    long as the ones they come from. *)
Theorem rotation_keeps_dot_and_length :
  forall (p q axis : vec3) (angle : R),
    length axis <> 0 ->
    dot (RotateVecByAxisAngle p axis angle)
        (RotateVecByAxisAngle q axis angle) = dot p q /\
    length (RotateVecByAxisAngle p axis angle) = length p /\
    (dot p q = 0 ->
     dot (RotateVecByAxisAngle p axis angle)
         (RotateVecByAxisAngle q axis angle) = 0).
Proof.
  intros p q axis angle Ha.
  pose proof (RotateVecByAxisAngle_dot p q axis angle Ha) as Hpq.
  pose proof (RotateVecByAxisAngle_dot p p axis angle Ha) as Hpp.
  split; [exact Hpq |]. split.
  - unfold length. rewrite Hpp. reflexivity.
  - intros H0. rewrite Hpq. exact H0.
Qed.

Lemma rotation_keeps_dot_and_length_witness :
  length (mkVec3 0 2 0) <> 0 /\
  dot (mkVec3 0 0 (- 1)) (mkVec3 1 0 0) = 0 /\
  length (RotateVecByAxisAngle (mkVec3 0 0 (- 1)) (mkVec3 0 2 0) (1 / 2))
  = length (mkVec3 0 0 (- 1)) /\
  dot (RotateVecByAxisAngle (mkVec3 0 0 (- 1)) (mkVec3 0 2 0) (1 / 2))
      (RotateVecByAxisAngle (mkVec3 1 0 0) (mkVec3 0 2 0) (1 / 2)) = 0.
Proof.
  assert (Ha : length (mkVec3 0 2 0) <> 0).
  { intros H. apply length_zero_iff in H. cbn [x y z] in H. lra. }
  assert (H0 : dot (mkVec3 0 0 (- 1)) (mkVec3 1 0 0) = 0).
  { unfold dot; cbn [x y z]. ring. }
  destruct (rotation_keeps_dot_and_length (mkVec3 0 0 (- 1)) (mkVec3 1 0 0)
              (mkVec3 0 2 0) (1 / 2) Ha) as (_ & Hl & Hperp).
  pose proof (Hperp H0) as G.
  repeat split; assumption.
Defined.

(** X5.  About an axis of non-zero length: the rotation by the angle 0 is
    the identity, the unit vector along the axis is a fixed point, the
    component of a vector along the axis is kept, the length of the axis
    does not matter, and a full turn more changes nothing. *)
Theorem rotation_axis_and_identity :
  forall (p axis : vec3) (angle : R),
    length axis <> 0 ->
    RotateVecByAxisAngle p axis 0 = p /\
    RotateVecByAxisAngle (normalize axis) axis angle = normalize axis /\
    dot (RotateVecByAxisAngle p axis angle) (normalize axis)
    = dot p (normalize axis) /\
    (forall k : R,
        0 < k ->
        RotateVecByAxisAngle p (scale axis k) angle
        = RotateVecByAxisAngle p axis angle) /\
    RotateVecByAxisAngle p axis (angle + 2 * PI)
    = RotateVecByAxisAngle p axis angle.
Proof.
  intros p axis angle Ha.
  split; [| split; [| split; [| split]]].
  - destruct (RotateVecByAxisAngle_unit p axis 0 Ha) as (Hk & Hr).
    cbv zeta in Hk, Hr. rewrite Hr, cos_0, sin_0.
    apply vec3_eq; cbn [x y z]; ring.
  - destruct (RotateVecByAxisAngle_unit (normalize axis) axis angle Ha)
      as (Hk & Hr).
    cbv zeta in Hk, Hr. rewrite Hr.
    unfold dot in Hk. set (k := normalize axis) in *.
    apply vec3_eq; cbn [x y z]; nsatz.
  - apply RotateVecByAxisAngle_along_axis. exact Ha.
  - intros k Hk. unfold RotateVecByAxisAngle.
    rewrite normalize_scale by assumption. reflexivity.
  - assert (Hc : cos (angle + 2 * PI) = cos angle).
    { rewrite cos_plus, cos_2PI, sin_2PI. ring. }
    assert (Hs : sin (angle + 2 * PI) = sin angle).
    { rewrite sin_plus, cos_2PI, sin_2PI. ring. }
    unfold RotateVecByAxisAngle, rotate_apply. rewrite Hc, Hs. reflexivity.
Qed.

Lemma rotation_axis_and_identity_witness :
  length (mkVec3 0 2 0) <> 0 /\
  0 < 3 /\
  RotateVecByAxisAngle (mkVec3 1 2 3) (mkVec3 0 2 0) 0 = mkVec3 1 2 3 /\
  RotateVecByAxisAngle (mkVec3 1 2 3) (scale (mkVec3 0 2 0) 3) (1 / 2)
  = RotateVecByAxisAngle (mkVec3 1 2 3) (mkVec3 0 2 0) (1 / 2).
Proof.
  assert (Ha : length (mkVec3 0 2 0) <> 0).
  { intros H. apply length_zero_iff in H. cbn [x y z] in H. lra. }
  assert (H3 : 0 < 3) by lra.
  destruct (rotation_axis_and_identity (mkVec3 1 2 3) (mkVec3 0 2 0)
              (1 / 2) Ha) as (_ & _ & _ & Hs & _).
  destruct (rotation_axis_and_identity (mkVec3 1 2 3) (mkVec3 0 2 0) 0 Ha)
    as (Hid & _).
  pose proof (Hs 3 H3) as G.
  repeat split; assumption.
Defined.

(** X6.  Two rotations about the same axis compose to the rotation by the
    sum of the angles; the rotation by the opposite angle undoes a
    rotation. *)
Theorem rotation_angles_add :
  forall (p axis : vec3) (a b : R),
    length axis <> 0 ->
    RotateVecByAxisAngle (RotateVecByAxisAngle p axis a) axis b
    = RotateVecByAxisAngle p axis (a + b) /\
    RotateVecByAxisAngle (RotateVecByAxisAngle p axis a) axis (- a) = p.
Proof.
  intros p axis a b Ha.
  assert (Hadd : forall c d : R,
             RotateVecByAxisAngle (RotateVecByAxisAngle p axis c) axis d
             = RotateVecByAxisAngle p axis (c + d)).
  { intros c d.
    destruct (RotateVecByAxisAngle_unit p axis c Ha) as (Hk & H1).
    destruct (RotateVecByAxisAngle_unit p axis (c + d) Ha) as (_ & H3).
    cbv zeta in Hk, H1, H3. rewrite H1, H3.
    match goal with
    | |- RotateVecByAxisAngle ?q axis d = _ =>
        destruct (RotateVecByAxisAngle_unit q axis d Ha) as (_ & H2)
    end.
    cbv zeta in H2. rewrite H2. clear H1 H2 H3.
    rewrite cos_plus, sin_plus.
    pose proof (sin2_cos2' c) as Hc. pose proof (sin2_cos2' d) as Hd.
    unfold dot in Hk. set (k := normalize axis) in *.
    apply vec3_eq; cbn [x y z]; nsatz. }
  split; [apply Hadd |].
  rewrite Hadd. replace (a + - a) with 0 by ring.
  destruct (RotateVecByAxisAngle_unit p axis 0 Ha) as (Hk & Hr).
  cbv zeta in Hk, Hr. rewrite Hr, cos_0, sin_0.
  apply vec3_eq; cbn [x y z]; ring.
Qed.

Lemma rotation_angles_add_witness :
  length (mkVec3 0 2 0) <> 0 /\
  RotateVecByAxisAngle
    (RotateVecByAxisAngle (mkVec3 1 2 3) (mkVec3 0 2 0) (1 / 2))
    (mkVec3 0 2 0) (- (1 / 2)) = mkVec3 1 2 3.
Proof.
  assert (Ha : length (mkVec3 0 2 0) <> 0).
  { intros H. apply length_zero_iff in H. cbn [x y z] in H. lra. }
  split; [exact Ha |].
  apply (rotation_angles_add (mkVec3 1 2 3) (mkVec3 0 2 0) (1 / 2) 0 Ha).
Defined.

(** ** The camera pose *)

(** Everything [UpdateCameraFPS] writes, in terms of the state it reads. *)
Lemma UpdateCameraFPS_pose (w : World) :
  let psi := x2 (lookRotation w) in
  let lookY := clamped_look_y (y2 (lookRotation w)) in
  let theta := pitch_angle lookY (y2 (lean w)) in
  let look := RotateVecByAxisAngle (yaw_vec psi) (right_vec psi) theta in
  let headSin := sin (headTimer w * PI_F) in
  let headCos := cos (headTimer w * PI_F) in
  let bobbing :=
    set_y (scale (right_vec psi) (headSin * 0.1)) (Rabs (headCos * 0.15)) in
  exists w' : World,
    UpdateCameraFPS w = Some w' /\
    lookRotation w' = mkVec2 psi lookY /\
    cameraPosition w' = add (cameraPosition w) (scale bobbing (walkLerp w)) /\
    cameraTarget w' = add (cameraPosition w') look /\
    cameraUp w'
    = RotateVecByAxisAngle (mkVec3 0.0 1.0 0.0) look
        (headSin * 0.01 + x2 (lean w)) /\
    walkLerp w' = walkLerp w /\ headLerp w' = headLerp w /\
    cameraFovy w' = cameraFovy w /\ lean w' = lean w /\
    headTimer w' = headTimer w /\ player w' = player w.
Proof.
  unfold UpdateCameraFPS. cbv zeta.
  change (RotateVecByAxisAngle (mkVec3 0.0 0.0 (- 1.0)) (mkVec3 0.0 1.0 0.0)
            (x2 (lookRotation w)))
    with (yaw_vec (x2 (lookRotation w))).
  rewrite VecAngle_up_yaw. cbn [bind].
  rewrite VecAngle_down_yaw. cbn [bind].
  eexists. split; [reflexivity |].
  cbn [player lookRotation headTimer lean walkLerp headLerp cameraFovy
       cameraTarget cameraPosition cameraUp].
  unfold clamped_look_y, pitch_angle, right_vec.
  destruct (Rgt_dec _ _); cbn [set_y2 x2 y2];
    destruct (Rlt_dec _ _); cbn [set_y2 x2 y2];
    repeat split; try reflexivity;
    destruct (lookRotation w); reflexivity.
Qed.

Lemma clamped_look_y_idempotent (lookY : R) :
  clamped_look_y (clamped_look_y lookY) = clamped_look_y lookY.
Proof.
  apply clamped_look_y_inside. apply clamped_look_y_range.
Qed.

Lemma look_vec_unit (psi theta : R) :
  dot (RotateVecByAxisAngle (yaw_vec psi) (right_vec psi) theta)
      (RotateVecByAxisAngle (yaw_vec psi) (right_vec psi) theta) = 1.
Proof.
  rewrite pitch_vec_eq. unfold dot; cbn [x y z].
  pose proof (sin2_cos2' psi) as Hp. pose proof (sin2_cos2' theta) as Ht.
  replace (- (cos theta * sin psi) * - (cos theta * sin psi)
           + sin theta * sin theta
           + - (cos theta * cos psi) * - (cos theta * cos psi))
    with (cos theta * cos theta * (sin psi * sin psi + cos psi * cos psi)
          + sin theta * sin theta) by ring.
  rewrite Hp. lra.
Qed.

(** X7.  [UpdateCameraFPS] leaves the yaw alone and brings the stored pitch
    into the range from [- (PI / 2 - 0.001)] to [PI / 2 - 0.001]: a pitch
    beyond an end of the range is set to that end, and a second update
    changes neither angle. *)
Theorem camera_update_clamps_stored_pitch :
  forall w : World,
    exists w' : World,
      UpdateCameraFPS w = Some w' /\
      x2 (lookRotation w') = x2 (lookRotation w) /\
      - (PI / 2 - 0.001) <= y2 (lookRotation w') <= PI / 2 - 0.001 /\
      (PI / 2 - 0.001 <= y2 (lookRotation w) ->
       y2 (lookRotation w') = PI / 2 - 0.001) /\
      (y2 (lookRotation w) <= - (PI / 2 - 0.001) ->
       y2 (lookRotation w') = - (PI / 2 - 0.001)) /\
      exists w'' : World,
        UpdateCameraFPS w' = Some w'' /\ lookRotation w'' = lookRotation w'.
Proof.
  intros w.
  destruct (UpdateCameraFPS_pose w) as (w' & Hw' & Hl & _).
  destruct (UpdateCameraFPS_pose w') as (w'' & Hw'' & Hl' & _).
  exists w'. split; [exact Hw' |].
  rewrite Hl. cbn [x2 y2].
  split; [reflexivity |]. split; [apply clamped_look_y_range |].
  pose proof PI_lower_bound as Hpi.
  split; [| split].
  - intros Hhi. unfold clamped_look_y. cbv zeta.
    destruct (Rgt_dec _ _) as [H1 | H1]; unfold Rgt in H1;
      destruct (Rlt_dec _ _) as [H2 | H2]; lra.
  - intros Hlo. unfold clamped_look_y. cbv zeta.
    destruct (Rgt_dec _ _) as [H1 | H1]; unfold Rgt in H1;
      destruct (Rlt_dec _ _) as [H2 | H2]; lra.
  - exists w''. split; [exact Hw'' |].
    rewrite Hl', Hl. cbn [x2 y2].
    rewrite clamped_look_y_idempotent. reflexivity.
Qed.

Lemma camera_update_clamps_stored_pitch_witness :
  PI / 2 - 0.001 <= y2 (lookRotation tilted_world) /\
  exists w' : World,
    UpdateCameraFPS tilted_world = Some w' /\
    y2 (lookRotation w') = PI / 2 - 0.001.
Proof.
  assert (Hhi : PI / 2 - 0.001 <= y2 (lookRotation tilted_world)).
  { pose proof PI_upper_bound. cbn [tilted_world lookRotation y2]. lra. }
  destruct (camera_update_clamps_stored_pitch tilted_world)
    as (w' & Hw' & _ & _ & Hsat & _).
  split; [exact Hhi |].
  exists w'. split; [exact Hw' | exact (Hsat Hhi)].
Defined.

Lemma unit_length_nonzero (a : vec3) : dot a a = 1 -> length a <> 0.
Proof. intros H. rewrite (length_unit a H). lra. Qed.

(** X8.  The pose [UpdateCameraFPS] hands to [lookAt] is well formed: the
    target lies at distance 1 from the camera position, the up vector has
    length 1, the right vector is perpendicular to the view vector, and the
    dot product of the up vector with the view vector is the height of the
    view vector, strictly between -1 and 1, so the two are never
    parallel. *)
Theorem camera_pose_well_formed :
  forall w : World,
    exists (w' : World) (look : vec3),
      UpdateCameraFPS w = Some w' /\
      cameraTarget w' = add (cameraPosition w') look /\
      length look = 1 /\
      length (cameraUp w') = 1 /\
      dot (right_vec (x2 (lookRotation w'))) look = 0 /\
      dot (cameraUp w') look = y look /\
      - 1 < dot (cameraUp w') look < 1.
Proof.
  intros w.
  destruct (UpdateCameraFPS_pose w)
    as (w' & Hw' & Hl & _ & Ht & Hu & _).
  cbv zeta in Ht, Hu.
  set (psi := x2 (lookRotation w)) in *.
  set (theta := pitch_angle (clamped_look_y (y2 (lookRotation w)))
                  (y2 (lean w))) in *.
  set (look := RotateVecByAxisAngle (yaw_vec psi) (right_vec psi) theta) in *.
  assert (Hunit : dot look look = 1) by apply look_vec_unit.
  assert (Hnz : length look <> 0) by (apply unit_length_nonzero; exact Hunit).
  assert (Hy : y look = sin theta).
  { subst look. rewrite pitch_vec_eq. reflexivity. }
  assert (Hup : dot (cameraUp w') look = y look).
  { rewrite Hu.
    rewrite <- (normalize_unit look Hunit) at 2.
    rewrite RotateVecByAxisAngle_along_axis by exact Hnz.
    rewrite (normalize_unit look Hunit).
    unfold dot; cbn [x y z]. lra. }
  exists w', look. split; [exact Hw' |]. split; [exact Ht |].
  split; [apply length_unit; exact Hunit |]. split.
  { rewrite Hu. unfold length.
    rewrite RotateVecByAxisAngle_dot by exact Hnz.
    rewrite up_unit. apply sqrt_1. }
  split.
  { rewrite Hl. cbn [x2]. subst look.
    rewrite pitch_vec_eq, right_vec_eq. unfold dot; cbn [x y z]. ring. }
  split; [exact Hup |].
  rewrite Hup, Hy.
  pose proof (pitch_angle_inside (clamped_look_y (y2 (lookRotation w)))
                (y2 (lean w))) as Hin. fold theta in Hin.
  assert (Hc : 0 < cos theta) by (apply cos_gt_0; lra).
  pose proof (sin2_cos2' theta). split; nra.
Qed.

(** X9.  The head bob moves the camera position by a bounded amount: with
    [walkLerp] between 0 and 1 the camera rises by at most
    [0.15 * walkLerp], never sinks, and is shifted sideways by at most
    [0.1 * walkLerp]; with [walkLerp] at 0 it stays where it was. *)
Theorem camera_bob_bounded :
  forall w : World,
    0 <= walkLerp w <= 1 ->
    exists w' : World,
      UpdateCameraFPS w = Some w' /\
      0 <= y (cameraPosition w') - y (cameraPosition w)
        <= 0.15 * walkLerp w /\
      (x (cameraPosition w') - x (cameraPosition w))
      * (x (cameraPosition w') - x (cameraPosition w))
      + (z (cameraPosition w') - z (cameraPosition w))
        * (z (cameraPosition w') - z (cameraPosition w))
      <= (0.1 * walkLerp w) * (0.1 * walkLerp w) /\
      (walkLerp w = 0 -> cameraPosition w' = cameraPosition w).
Proof.
  intros w (Hw0 & Hw1).
  destruct (UpdateCameraFPS_pose w) as (w' & Hw' & _ & Hp & _).
  cbv zeta in Hp. exists w'. split; [exact Hw' |].
  rewrite Hp, right_vec_eq.
  cbn [add scale set_y x y z].
  set (hs := sin (headTimer w * PI_F)).
  set (hc := cos (headTimer w * PI_F)).
  set (psi := x2 (lookRotation w)).
  pose proof (SIN_bound (headTimer w * PI_F)) as Hs. fold hs in Hs.
  pose proof (COS_bound (headTimer w * PI_F)) as Hc. fold hc in Hc.
  pose proof (sin2_cos2' psi) as Hpsi.
  assert (Habs : 0 <= Rabs (hc * 0.15) <= 0.15).
  { split; [apply Rabs_pos |]. apply Rabs_le. lra. }
  split; [| split].
  - split; nra.
  - replace ((x (cameraPosition w) + cos psi * (hs * 0.1) * walkLerp w
              - x (cameraPosition w))
             * (x (cameraPosition w) + cos psi * (hs * 0.1) * walkLerp w
                - x (cameraPosition w))
             + (z (cameraPosition w) + - sin psi * (hs * 0.1) * walkLerp w
                - z (cameraPosition w))
               * (z (cameraPosition w) + - sin psi * (hs * 0.1) * walkLerp w
                  - z (cameraPosition w)))
      with ((hs * hs) * ((0.1 * walkLerp w) * (0.1 * walkLerp w))
            * (sin psi * sin psi + cos psi * cos psi)) by ring.
    rewrite Hpsi.
    assert (Hs2 : hs * hs <= 1) by nra.
    assert (Hq : 0 <= 0.1 * walkLerp w * (0.1 * walkLerp w)) by nra.
    nra.
  - intros H0. rewrite H0.
    apply vec3_eq; cbn [add scale set_y x y z]; ring.
Qed.

Lemma camera_bob_bounded_witness :
  0 <= walkLerp walking_world <= 1 /\
  (exists w' : World,
      UpdateCameraFPS walking_world = Some w' /\
      0 <= y (cameraPosition w') - y (cameraPosition walking_world)
        <= 0.15 * walkLerp walking_world) /\
  0 <= walkLerp turning_world <= 1 /\
  walkLerp turning_world = 0 /\
  exists w' : World,
    UpdateCameraFPS turning_world = Some w' /\
    cameraPosition w' = cameraPosition turning_world.
Proof.
  assert (Hw : 0 <= walkLerp walking_world <= 1).
  { cbn [walking_world walkLerp]. lra. }
  assert (Ht : 0 <= walkLerp turning_world <= 1).
  { cbn [turning_world world_with walkLerp]. lra. }
  assert (H0 : walkLerp turning_world = 0) by reflexivity.
  destruct (camera_bob_bounded walking_world Hw) as (w' & Hw' & Hy & _).
  destruct (camera_bob_bounded turning_world Ht) as (w2 & Hw2 & _ & _ & Hz).
  split; [exact Hw |]. split; [exists w'; split; assumption |].
  split; [exact Ht |]. split; [exact H0 |].
  exists w2. split; [exact Hw2 | exact (Hz H0)].
Defined.

(** ** The blended values of the loop *)

Lemma mix_between (a b t lo hi : R) :
  lo <= a <= hi -> lo <= b <= hi -> 0 <= t <= 1 ->
  lo <= mix a b t <= hi.
Proof. intros Ha Hb Ht. unfold mix. split; nra. Qed.

Lemma rate_in_unit_interval (s : R) : 0 <= clamp s 0.0 1.0 <= 1.
Proof.
  pose proof (clamp_bounds s 0.0 1.0 ltac:(lra)). lra.
Qed.

Lemma key_axis_range (plus minus : bool) :
  - 1 <= IZR (key_axis plus minus) <= 1.
Proof.
  destruct plus, minus; cbn [key_axis Z.b2z Z.sub Z.add Z.opp Z.pos_sub];
    lra.
Qed.

(** The fields [frame_update] blends, and the ones it copies from its
    input. *)
Lemma frame_update_blends (w : World) (i : Input) :
  let w1 := frame_update w i in
  let delta := frame_delta w i in
  let sideway := key_axis (keyD i) (keyA i) in
  let forward := key_axis (keyW i) (keyS i) in
  let moving :=
    isGrounded (player w1)
    && (negb (forward =? 0)%Z || negb (sideway =? 0)%Z) in
  headLerp w1
  = mix (headLerp w)
      (if keyLeftControl i then CROUCH_HEIGHT else STAND_HEIGHT)
      (clamp (20.0 * delta) 0.0 1.0) /\
  walkLerp w1
  = mix (walkLerp w) (if moving then 1.0 else 0.0)
      (clamp (10.0 * delta) 0.0 1.0) /\
  cameraFovy w1
  = mix (cameraFovy w) (if moving then 55.0 else 60.0)
      (clamp (5.0 * delta) 0.0 1.0) /\
  cameraPosition w1
  = mkVec3 (x (position (player w1)))
           (y (position (player w1)) + (BOTTOM_HEIGHT + headLerp w1))
           (z (position (player w1))) /\
  lastMouseX w1 = mx i /\ lastMouseY w1 = my i /\
  firstMouse w1 = false /\ prevTime w1 = now i.
Proof.
  unfold frame_update, frame_delta, getDeltaSeconds.
  cbn [fst player headLerp walkLerp cameraFovy cameraPosition lastMouseX
       lastMouseY firstMouse prevTime].
  repeat split; try reflexivity;
    match goal with
    | |- context [if ?c then mix _ _ _ else mix _ _ _] => destruct c
    end; reflexivity.
Qed.

Lemma frame_update_blend_inv (w : World) (i : Input) :
  blend_inv w -> blend_inv (frame_update w i).
Proof.
  intros (Hw & Hh & Hf & Hlx & Hly).
  destruct (frame_update_blends w i) as (Eh & Ew & Ef & _).
  destruct (frame_update_fields w i) as (_ & _ & _ & El & _).
  cbv zeta in Eh, Ew, Ef, El.
  unfold blend_inv. rewrite Eh, Ew, Ef, El. cbn [x2 y2].
  unfold CROUCH_HEIGHT, STAND_HEIGHT in *.
  pose proof (key_axis_range (keyD i) (keyA i)) as Ks.
  pose proof (key_axis_range (keyW i) (keyS i)) as Kf.
  split; [| split; [| split; [| split]]].
  - apply mix_between; [exact Hw | | apply rate_in_unit_interval].
    destruct (_ && _); lra.
  - apply mix_between; [exact Hh | | apply rate_in_unit_interval].
    destruct (keyLeftControl i); lra.
  - apply mix_between; [exact Hf | | apply rate_in_unit_interval].
    destruct (_ && _); lra.
  - apply mix_between; [exact Hlx | lra | apply rate_in_unit_interval].
  - apply mix_between; [exact Hly | lra | apply rate_in_unit_interval].
Qed.

(** The camera update puts the camera within the bob of the place
    [frame_update] gave it. *)
Lemma camera_update_eye_inv (w1 w' : World) :
  0 <= walkLerp w1 <= 1 ->
  CROUCH_HEIGHT <= headLerp w1 <= STAND_HEIGHT ->
  cameraPosition w1
  = mkVec3 (x (position (player w1)))
           (y (position (player w1)) + (BOTTOM_HEIGHT + headLerp w1))
           (z (position (player w1))) ->
  UpdateCameraFPS w1 = Some w' ->
  eye_inv w'.
Proof.
  intros Hw Hh Ec Hw'.
  destruct (UpdateCameraFPS_pose w1)
    as (w2 & Hw2 & _ & Hp & _ & _ & _ & _ & _ & _ & _ & Epl).
  rewrite Hw' in Hw2. injection Hw2 as <-.
  cbv zeta in Hp.
  unfold eye_inv. rewrite Hp, Epl, Ec, right_vec_eq.
  cbn [add scale set_y x y z].
  pose proof (SIN_bound (headTimer w1 * PI_F)) as Hs.
  pose proof (COS_bound (headTimer w1 * PI_F)) as Hc.
  pose proof (sin2_cos2' (x2 (lookRotation w1))) as Hpsi.
  set (hs := sin (headTimer w1 * PI_F)) in *.
  set (hc := cos (headTimer w1 * PI_F)) in *.
  set (psi := x2 (lookRotation w1)) in *.
  clearbody hs hc psi.
  assert (Habs : 0 <= Rabs (hc * 0.15) <= 0.15).
  { split; [apply Rabs_pos |]. apply Rabs_le. lra. }
  unfold BOTTOM_HEIGHT, STAND_HEIGHT, CROUCH_HEIGHT in *.
  split; [split; nra |].
  replace ((x (position (player w1)) + cos psi * (hs * 0.1) * walkLerp w1
            - x (position (player w1)))
           * (x (position (player w1))
              + cos psi * (hs * 0.1) * walkLerp w1
              - x (position (player w1)))
           + (z (position (player w1))
              + - sin psi * (hs * 0.1) * walkLerp w1
              - z (position (player w1)))
             * (z (position (player w1))
                + - sin psi * (hs * 0.1) * walkLerp w1
                - z (position (player w1))))
    with ((hs * hs) * ((0.1 * walkLerp w1) * (0.1 * walkLerp w1))
          * (sin psi * sin psi + cos psi * cos psi)) by ring.
  rewrite Hpsi.
  assert (Hs2 : 0 <= hs * hs <= 1) by nra.
  assert (Hq : 0 <= 0.1 * walkLerp w1 * (0.1 * walkLerp w1) <= 0.1 * 0.1)
    by nra.
  nra.
Qed.

Lemma camera_update_blend_inv (w1 w' : World) :
  blend_inv w1 -> UpdateCameraFPS w1 = Some w' -> blend_inv w'.
Proof.
  intros H1 Hw'.
  destruct (UpdateCameraFPS_pose w1)
    as (w2 & Hw2 & _ & _ & _ & _ & Ew & Eh & Ef & El & _).
  rewrite Hw' in Hw2. injection Hw2 as <-.
  unfold blend_inv in *. rewrite Ew, Eh, Ef, El. exact H1.
Qed.

Lemma frame_blend_inv (w : World) (i : Input) :
  blend_inv w ->
  exists w' : World, frame w i = Some w' /\ blend_inv w' /\ eye_inv w'.
Proof.
  intros Hinv.
  pose proof (frame_update_blend_inv w i Hinv) as H1.
  destruct (frame_total w i) as (w' & Hw').
  exists w'. split; [exact Hw' |]. unfold frame in Hw'. split.
  - exact (camera_update_blend_inv _ _ H1 Hw').
  - destruct H1 as (Hw & Hh & _).
    destruct (frame_update_blends w i) as (_ & _ & _ & Ec & _).
    exact (camera_update_eye_inv _ _ Hw Hh Ec Hw').
Qed.

Lemma world0_blend_inv (mx0 my0 : R) :
  blend_inv (world0 mx0 my0) /\ eye_inv (world0 mx0 my0).
Proof.
  unfold blend_inv, eye_inv, world0, player0, splat,
    CROUCH_HEIGHT, STAND_HEIGHT, BOTTOM_HEIGHT.
  cbn [walkLerp headLerp cameraFovy lean cameraPosition player position
       x y z x2 y2].
  repeat split; lra.
Qed.

Lemma run_blend_inv (inputs : list Input) :
  forall w : World,
    blend_inv w -> eye_inv w ->
    exists w' : World, run w inputs = Some w' /\ blend_inv w' /\ eye_inv w'.
Proof.
  induction inputs as [| i rest IH]; intros w Hb He; cbn [run].
  - exists w. auto.
  - destruct (frame_blend_inv w i Hb) as (w1 & H1 & Hb1 & He1).
    rewrite H1. cbn [bind]. apply IH; assumption.
Qed.

(** X10.  The blended values stay in their ranges.  A frame that starts
    with [walkLerp] in [0, 1], [headLerp] between the crouching and the
    standing height, the field of view in [55, 60], [lean.x] in
    [-0.02, 0.02] and [lean.y] in [-0.015, 0.015] ends with all five in
    the same ranges, whatever the tick length and the keys; the start state
    is in the ranges, so every state the loop reaches is. *)
Theorem blended_values_stay_in_range :
  (forall (w : World) (i : Input),
      blend_inv w ->
      exists w' : World, frame w i = Some w' /\ blend_inv w') /\
  (forall (mx0 my0 : R) (inputs : list Input),
      exists w' : World,
        run (world0 mx0 my0) inputs = Some w' /\
        0 <= walkLerp w' <= 1 /\
        CROUCH_HEIGHT <= headLerp w' <= STAND_HEIGHT /\
        55 <= cameraFovy w' <= 60 /\
        - 0.02 <= x2 (lean w') <= 0.02 /\
        - 0.015 <= y2 (lean w') <= 0.015).
Proof.
  split.
  - intros w i Hinv.
    destruct (frame_blend_inv w i Hinv) as (w' & Hw' & Hb & _).
    exists w'. split; assumption.
  - intros mx0 my0 inputs.
    destruct (world0_blend_inv mx0 my0) as (Hb0 & He0).
    destruct (run_blend_inv inputs _ Hb0 He0) as (w' & Hrun & Hb & _).
    exists w'. split; [exact Hrun | exact Hb].
Qed.

Lemma blended_values_stay_in_range_witness :
  blend_inv walking_world /\
  exists w' : World,
    frame walking_world forward_input = Some w' /\ blend_inv w'.
Proof.
  assert (Hb : blend_inv walking_world).
  { unfold blend_inv, walking_world, CROUCH_HEIGHT, STAND_HEIGHT.
    cbn [walkLerp headLerp cameraFovy lean x2 y2]. repeat split; lra. }
  destruct blended_values_stay_in_range as (Hstep & _).
  split; [exact Hb | exact (Hstep walking_world forward_input Hb)].
Defined.

(** X11.  In every state the loop reaches, the camera is at least
    [BOTTOM_HEIGHT] and at most [BOTTOM_HEIGHT + STAND_HEIGHT + 0.15] above
    the body's position, at most 0.1 away from it horizontally, and never
    lower than [BOTTOM_HEIGHT] above the ground. *)
Theorem camera_stays_above_body :
  forall (mx0 my0 : R) (inputs : list Input),
    exists w' : World,
      run (world0 mx0 my0) inputs = Some w' /\
      BOTTOM_HEIGHT <= y (cameraPosition w') - y (position (player w'))
        <= BOTTOM_HEIGHT + STAND_HEIGHT + 0.15 /\
      (x (cameraPosition w') - x (position (player w')))
      * (x (cameraPosition w') - x (position (player w')))
      + (z (cameraPosition w') - z (position (player w')))
        * (z (cameraPosition w') - z (position (player w')))
      <= 0.1 * 0.1 /\
      BOTTOM_HEIGHT <= y (cameraPosition w').
Proof.
  intros mx0 my0 inputs.
  destruct (world0_blend_inv mx0 my0) as (Hb0 & He0).
  destruct (run_blend_inv inputs _ Hb0 He0) as (w' & Hrun & _ & He).
  exists w'. split; [exact Hrun |].
  destruct He as (Hy & Hxz).
  split; [exact Hy |]. split; [exact Hxz |].
  destruct (run_vertical_inv inputs _ _ (world0_vertical_inv mx0 my0) Hrun)
    as (Hp & _).
  lra.
Qed.

(** ** The yaw and the cursor *)

Lemma frame_mouse (w : World) (i : Input) (w' : World) :
  frame w i = Some w' ->
  lastMouseX w' = mx i /\ lastMouseY w' = my i /\ firstMouse w' = false /\
  x2 (lookRotation w')
  = x2 (lookRotation w) - frame_dx w i * x2 sensitivity.
Proof.
  unfold frame. intros H.
  destruct (UpdateCameraFPS_spec (frame_update w i))
    as (w2 & Hw2 & _ & Hx & _ & _ & _ & _ & _ & Hf & Hmx & Hmy & _).
  rewrite H in Hw2. injection Hw2 as <-.
  destruct (frame_update_blends w i) as (_ & _ & _ & _ & Ex & Ey & Ef & _).
  destruct (frame_update_fields w i) as (_ & El & _).
  cbv zeta in El.
  rewrite Hmx, Hmy, Hf, Hx, El. cbn [x2]. auto.
Qed.

Lemma run_yaw (inputs : list Input) :
  forall w w' : World,
    firstMouse w = false ->
    run w inputs = Some w' ->
    x2 (lookRotation w')
    = x2 (lookRotation w) - x2 sensitivity * (lastMouseX w' - lastMouseX w).
Proof.
  induction inputs as [| i rest IH]; intros w w' Hf Hrun; cbn [run] in Hrun.
  - injection Hrun as <-. ring.
  - destruct (frame w i) as [w1 |] eqn:H1; cbn [bind] in Hrun;
      [| discriminate].
    destruct (frame_mouse w i w1 H1) as (Hmx & _ & Hf1 & Hx).
    rewrite (IH w1 w' Hf1 Hrun), Hx, Hmx.
    unfold frame_dx. rewrite Hf. ring.
Qed.

(** X12.  The yaw follows the cursor and nothing else.  The frame that
    sees the cursor for the first time turns by nothing, wherever the
    cursor is; every frame records the cursor position; and after any run
    of frames that starts with the cursor already seen, the yaw has changed
    by minus the sensitivity times the horizontal distance between the last
    and the first cursor position, whatever the path in between and the
    tick lengths. *)
Theorem yaw_follows_cursor :
  (forall (w : World) (i : Input),
      firstMouse w = true ->
      x2 (lookRotation (frame_update w i)) = x2 (lookRotation w) /\
      y2 (lookRotation (frame_update w i)) = y2 (lookRotation w)) /\
  (forall (w : World) (i : Input) (w' : World),
      frame w i = Some w' ->
      lastMouseX w' = mx i /\ lastMouseY w' = my i /\
      firstMouse w' = false) /\
  (forall (inputs : list Input) (w w' : World),
      firstMouse w = false ->
      run w inputs = Some w' ->
      x2 (lookRotation w')
      = x2 (lookRotation w)
        - x2 sensitivity * (lastMouseX w' - lastMouseX w)).
Proof.
  split; [| split].
  - intros w i Hf.
    destruct (frame_update_fields w i) as (_ & El & _). cbv zeta in El.
    rewrite El. unfold frame_dx, frame_dy. rewrite Hf. cbn [x2 y2].
    split; ring.
  - intros w i w' H.
    destruct (frame_mouse w i w' H) as (Hx & Hy & Hf & _). auto.
  - intros inputs w w' Hf Hrun. apply (run_yaw inputs); assumption.
Qed.

Lemma yaw_follows_cursor_witness :
  firstMouse rest_world = true /\
  x2 (lookRotation (frame_update rest_world turn_input))
  = x2 (lookRotation rest_world) /\
  firstMouse turning_world = false /\
  exists w' : World,
    run turning_world [forward_input; turn_input] = Some w' /\
    lastMouseX w' = mx turn_input /\
    x2 (lookRotation w')
    = x2 (lookRotation turning_world)
      - x2 sensitivity * (lastMouseX w' - lastMouseX turning_world).
Proof.
  destruct yaw_follows_cursor as (Hfirst & Hrec & Hrun).
  assert (Ht : firstMouse rest_world = true) by reflexivity.
  assert (Hf : firstMouse turning_world = false) by reflexivity.
  destruct (Hfirst rest_world turn_input Ht) as (G1 & _).
  destruct (frame_total turning_world forward_input) as (w1 & H1).
  destruct (frame_total w1 turn_input) as (w2 & H2).
  assert (Hr : run turning_world [forward_input; turn_input] = Some w2).
  { cbn [run]. rewrite H1. cbn [bind]. rewrite H2. reflexivity. }
  destruct (Hrec w1 turn_input w2 H2) as (G2 & _).
  pose proof (Hrun _ _ _ Hf Hr) as G3.
  split; [exact Ht |]. split; [exact G1 |]. split; [exact Hf |].
  exists w2. repeat split; assumption.
Defined.

(** ** Free fall *)

(** One step of a body in the air: it stays in the air when the integrated
    height is above the ground and lands otherwise. *)
Lemma airborne_step (b : Body) (rot : R) (side forward : Z)
    (jumpPressed crouchHold : bool) (delta : R) :
  isGrounded b = false ->
  let b' := UpdateBody b rot side forward jumpPressed crouchHold delta in
  let py :=
    y (position b) + (y (velocity b) - GRAVITY * delta) * delta in
  (0 < py ->
   isGrounded b' = false /\
   y (velocity b') = y (velocity b) - GRAVITY * delta /\
   y (position b') = py) /\
  (py <= 0 ->
   isGrounded b' = true /\ y (velocity b') = 0 /\ y (position b') = 0).
Proof.
  intros Hg. cbv zeta. rewrite UpdateBody_eq.
  unfold vy_before_clamp, grounded_after_jump, jump_taken.
  rewrite Hg. cbn [andb].
  destruct (Rle_dec _ _) as [Hle | Hgt]; cbn [isGrounded velocity position y].
  - split; [intros; lra |]. intros _. repeat split; lra.
  - split; [| intros; lra]. intros _. repeat split; reflexivity.
Qed.

Lemma fall_height_succ (b : Body) (delta : R) (k : nat) :
  fall_height b delta (S k)
  = fall_height b delta k
    + (y (velocity b) - INR (S k) * GRAVITY * delta) * delta.
Proof. unfold fall_height. rewrite !S_INR. field. Qed.

Lemma fall_steps (b : Body) (rot : R) (side forward : Z) (crouchHold : bool)
    (delta : R) (n : nat) :
  isGrounded b = false ->
  (forall k : nat, (1 <= k <= n)%nat -> 0 < fall_height b delta k) ->
  let bn := steps n b rot side forward crouchHold delta in
  isGrounded bn = false /\
  y (velocity bn) = y (velocity b) - INR n * GRAVITY * delta /\
  y (position bn) = fall_height b delta n.
Proof.
  intros Hg. induction n as [| n IH]; intros Hpos; cbv zeta.
  - cbn [steps INR]. unfold fall_height. cbn [INR].
    repeat split; [exact Hg | ring | field].
  - destruct IH as (Ig & Iv & Ip).
    { intros k Hk. apply Hpos. lia. }
    cbn [steps].
    destruct (airborne_step _ rot side forward false crouchHold delta Ig)
      as (Hair & _).
    cbv zeta in Hair.
    assert (Hh : 0 < fall_height b delta (S n)) by (apply Hpos; lia).
    rewrite fall_height_succ in Hh.
    rewrite Iv, Ip in Hair.
    assert (Hpy : 0 < fall_height b delta n
                      + (y (velocity b) - INR n * GRAVITY * delta
                         - GRAVITY * delta) * delta).
    { rewrite S_INR in Hh. lra. }
    destruct (Hair Hpy) as (G1 & G2 & G3).
    split; [exact G1 |]. split.
    + rewrite G2, S_INR. ring.
    + rewrite G3, fall_height_succ, S_INR. ring.
Qed.

(** X13.  Free fall has no terminal velocity.  While the heights
    [y + k * delta * vy - GRAVITY * delta^2 * k (k + 1) / 2] of a body in
    the air stay positive for [k = 1 .. n], the body is still in the air
    after [n] steps, whatever the keys, its vertical velocity has dropped by
    [n * GRAVITY * delta] and its height is the [n]-th of these heights;
    when the next height is not positive, the next step lands it at
    height 0 with [velocity.y = 0]. *)
Theorem free_fall_is_uncapped :
  forall (b : Body) (rot : R) (side forward : Z) (crouchHold : bool)
         (delta : R) (n : nat),
    isGrounded b = false ->
    (forall k : nat, (1 <= k <= n)%nat -> 0 < fall_height b delta k) ->
    let bn := steps n b rot side forward crouchHold delta in
    let bn' := steps (S n) b rot side forward crouchHold delta in
    isGrounded bn = false /\
    y (velocity bn) = y (velocity b) - INR n * GRAVITY * delta /\
    y (position bn) = fall_height b delta n /\
    (fall_height b delta (S n) <= 0 ->
     isGrounded bn' = true /\ y (velocity bn') = 0 /\ y (position bn') = 0).
Proof.
  intros b rot side forward crouchHold delta n Hg Hpos bn bn'.
  destruct (fall_steps b rot side forward crouchHold delta n Hg Hpos)
    as (Ig & Iv & Ip). fold bn in Ig, Iv, Ip.
  split; [exact Ig |]. split; [exact Iv |]. split; [exact Ip |].
  intros Hland. subst bn'. cbn [steps]. fold bn.
  destruct (airborne_step bn rot side forward false crouchHold delta Ig)
    as (_ & Hl).
  apply Hl. rewrite Iv, Ip.
  rewrite fall_height_succ, S_INR in Hland. lra.
Qed.

Lemma free_fall_is_uncapped_witness :
  isGrounded drifting_body = false /\
  (forall k : nat, (1 <= k <= 2)%nat -> 0 < fall_height drifting_body (1 / 60) k) /\
  y (velocity (steps 2 drifting_body 0 0 0 false (1 / 60)))
  = y (velocity drifting_body) - INR 2 * GRAVITY * (1 / 60) /\
  isGrounded falling_body = false /\
  (forall k : nat, (1 <= k <= 0)%nat -> 0 < fall_height falling_body (1 / 60) k) /\
  fall_height falling_body (1 / 60) 1 <= 0 /\
  isGrounded (steps 1 falling_body 0 0 0 false (1 / 60)) = true.
Proof.
  assert (Hg : isGrounded drifting_body = false) by reflexivity.
  assert (Hpos : forall k : nat,
             (1 <= k <= 2)%nat -> 0 < fall_height drifting_body (1 / 60) k).
  { intros k Hk. unfold fall_height, drifting_body, GRAVITY.
    cbn [position velocity y].
    assert (Hk1 : INR k <= 2) by (change 2 with (INR 2); apply le_INR; lia).
    pose proof (pos_INR k). nra. }
  assert (Hg' : isGrounded falling_body = false) by reflexivity.
  assert (Hpos' : forall k : nat,
             (1 <= k <= 0)%nat -> 0 < fall_height falling_body (1 / 60) k).
  { intros k Hk. lia. }
  assert (Hl : fall_height falling_body (1 / 60) 1 <= 0).
  { unfold fall_height, falling_body, GRAVITY. cbn [position velocity y INR].
    lra. }
  destruct (free_fall_is_uncapped drifting_body 0 0 0 false (1 / 60) 2
              Hg Hpos) as (_ & Hv & _).
  destruct (free_fall_is_uncapped falling_body 0 0 0 false (1 / 60) 0
              Hg' Hpos') as (_ & _ & _ & Hland).
  destruct (Hland Hl) as (G & _).
  repeat split; assumption.
Defined.

(** ** Drag *)

Lemma hspeed_x_only (b : Body) :
  z (velocity b) = 0 -> hspeed b = Rabs (x (velocity b)).
Proof.
  intros H. unfold hspeed. rewrite H, <- sqrt_sq. f_equal. ring.
Qed.

Lemma hspeed_scaled (b b' : Body) (f : R) :
  0 <= f ->
  x (velocity b') = x (velocity b) * f ->
  z (velocity b') = z (velocity b) * f ->
  hspeed b' = f * hspeed b.
Proof.
  intros Hf Vx Vz. unfold hspeed. rewrite Vx, Vz.
  replace (x (velocity b) * f * (x (velocity b) * f)
           + z (velocity b) * f * (z (velocity b) * f))
    with ((f * f)
          * (x (velocity b) * x (velocity b)
             + z (velocity b) * z (velocity b))) by ring.
  rewrite sqrt_mult; [| nra | nra].
  rewrite sqrt_square by exact Hf. reflexivity.
Qed.

(** With [dir] at zero and no input a step applies the decay factor of the
    flag it starts with, and the low-speed cut, to the horizontal
    velocity. *)
Lemma coast_step (b : Body) (rot : R) (crouchHold : bool) (delta : R) :
  x (dir b) = 0 -> z (dir b) = 0 ->
  let b' := UpdateBody b rot 0 0 false crouchHold delta in
  let f := if isGrounded b then FRICTION else AIR_DRAG in
  x (dir b') = 0 /\ z (dir b') = 0 /\
  (f * hspeed b < MAX_SPEED * 0.01 ->
   x (velocity b') = 0 /\ z (velocity b') = 0) /\
  (~ f * hspeed b < MAX_SPEED * 0.01 ->
   x (velocity b') = x (velocity b) * f /\
   z (velocity b') = z (velocity b) * f).
Proof.
  intros Hx Hz. cbv zeta.
  destruct (UpdateBody_horizontal b rot 0 0 false crouchHold delta)
    as (Hd & Vx & Vz & _).
  cbv zeta in Hd, Vx, Vz.
  assert (Hd1x : x (mix3 (dir b) (desired_dir rot 0 0)
                      (clamp (CONTROL * delta) 0.0 1.0)) = 0).
  { cbn [mix3 x]. unfold desired_dir, front_of, right_of, mix; cbn [x z].
    rewrite Hx. change (- 0)%Z with 0%Z. lra. }
  assert (Hd1z : z (mix3 (dir b) (desired_dir rot 0 0)
                      (clamp (CONTROL * delta) 0.0 1.0)) = 0).
  { cbn [mix3 z]. unfold desired_dir, front_of, right_of, mix; cbn [x z].
    rewrite Hz. change (- 0)%Z with 0%Z. lra. }
  rewrite Hd, Vx, Vz, Hd1x, Hd1z.
  assert (Hgj : grounded_after_jump b false = isGrounded b).
  { unfold grounded_after_jump, jump_taken. rewrite andb_false_r.
    reflexivity. }
  rewrite Hgj. unfold decayed_hvel.
  assert (Hf : 0 <= (if isGrounded b then FRICTION else AIR_DRAG)).
  { destruct (isGrounded b); unfold FRICTION, AIR_DRAG; lra. }
  rewrite length_scaled_hvel by exact Hf. fold (hspeed b).
  split; [reflexivity |]. split; [reflexivity |].
  destruct (Rlt_dec _ _) as [Hlt | Hge]; unfold splat; cbn [x z];
    split; intros H; try contradiction; split; lra.
Qed.

(** One more step of drag for a body that is in the air before and after
    the step. *)
Lemma drag_step (b : Body) (rot : R) (crouchHold : bool) (delta s0 q : R) :
  isGrounded b = false ->
  x (dir b) = 0 -> z (dir b) = 0 ->
  hspeed b = q * s0 ->
  MAX_SPEED * 0.01 <= AIR_DRAG * q * s0 ->
  let b' := UpdateBody b rot 0 0 false crouchHold delta in
  x (dir b') = 0 /\ z (dir b') = 0 /\
  x (velocity b') = AIR_DRAG * x (velocity b) /\
  z (velocity b') = AIR_DRAG * z (velocity b) /\
  hspeed b' = AIR_DRAG * q * s0.
Proof.
  intros Hg Hx Hz Hs Hfast b'.
  destruct (coast_step b rot crouchHold delta Hx Hz)
    as (Dx & Dz & _ & Hkeep).
  cbv zeta in Dx, Dz, Hkeep. rewrite Hg in Hkeep. fold b' in Dx, Dz, Hkeep.
  assert (Hge : ~ AIR_DRAG * hspeed b < MAX_SPEED * 0.01).
  { rewrite Hs. lra. }
  destruct (Hkeep Hge) as (Vx & Vz).
  split; [exact Dx |]. split; [exact Dz |].
  split; [rewrite Vx; ring |]. split; [rewrite Vz; ring |].
  rewrite (hspeed_scaled b b' AIR_DRAG);
    [rewrite Hs; ring | unfold AIR_DRAG; lra | exact Vx | exact Vz].
Qed.

Lemma steps_S (n : nat) (b : Body) (rot : R) (side forward : Z)
    (crouchHold : bool) (delta : R) :
  steps (S n) b rot side forward crouchHold delta
  = UpdateBody (steps n b rot side forward crouchHold delta)
      rot side forward false crouchHold delta.
Proof. reflexivity. Qed.

Lemma drag_steps (b : Body) (rot : R) (crouchHold : bool) (delta : R)
    (n : nat) :
  isGrounded b = false ->
  x (dir b) = 0 -> z (dir b) = 0 ->
  (forall k : nat, (1 <= k <= n)%nat -> 0 < fall_height b delta k) ->
  MAX_SPEED * 0.01 <= AIR_DRAG ^ n * hspeed b ->
  let bn := steps n b rot 0 0 crouchHold delta in
  isGrounded bn = false /\ x (dir bn) = 0 /\ z (dir bn) = 0 /\
  x (velocity bn) = AIR_DRAG ^ n * x (velocity b) /\
  z (velocity bn) = AIR_DRAG ^ n * z (velocity b) /\
  hspeed bn = AIR_DRAG ^ n * hspeed b.
Proof.
  intros Hg Hx Hz. induction n as [| n IH]; intros Hpos Hfast; cbv zeta.
  - cbn [steps pow]. repeat split; try assumption; ring.
  - pose proof (hspeed_nonneg b) as Hnn.
    assert (Hp : 0 <= AIR_DRAG ^ n) by (apply pow_le; unfold AIR_DRAG; lra).
    assert (Hfast' : MAX_SPEED * 0.01 <= AIR_DRAG * AIR_DRAG ^ n * hspeed b).
    { rewrite tech_pow_Rmult. exact Hfast. }
    destruct IH as (Ig & Ix & Iz & Vx & Vz & Hs).
    { intros k Hk. apply Hpos. lia. }
    { assert (H0 : 0 <= AIR_DRAG ^ n * hspeed b)
        by (apply Rmult_le_pos; assumption).
      rewrite Rmult_assoc in Hfast'. revert Hfast' H0.
      generalize (AIR_DRAG ^ n * hspeed b). intros q.
      unfold AIR_DRAG, MAX_SPEED. lra. }
    pose proof (fall_steps b rot 0 0 crouchHold delta (S n) Hg Hpos) as HF.
    cbv zeta in HF. destruct HF as (Ig' & _).
    destruct (drag_step _ rot crouchHold delta (hspeed b) (AIR_DRAG ^ n)
                Ig Ix Iz Hs Hfast') as (Dx & Dz & Vx' & Vz' & Hs').
    rewrite steps_S in *.
    rewrite <- !tech_pow_Rmult.
    split; [exact Ig' |]. split; [exact Dx |]. split; [exact Dz |].
    split; [rewrite Vx', Vx; ring |].
    split; [rewrite Vz', Vz; ring |].
    rewrite Hs'. ring.
Qed.

(** X14.  Air drag.  A body in the air with [dir] at zero and no input,
    whose free-fall heights stay positive for [n] steps and whose speed
    times [AIR_DRAG^n] is not below 1% of [MAX_SPEED], has after [n] steps
    its horizontal velocity, and so its horizontal speed, multiplied by
    [AIR_DRAG^n]: the decay is per step, not per second. *)
Theorem air_drag_decay :
  forall (b : Body) (rot : R) (crouchHold : bool) (delta : R) (n : nat),
    isGrounded b = false ->
    x (dir b) = 0 -> z (dir b) = 0 ->
    (forall k : nat, (1 <= k <= n)%nat -> 0 < fall_height b delta k) ->
    MAX_SPEED * 0.01 <= AIR_DRAG ^ n * hspeed b ->
    let bn := steps n b rot 0 0 crouchHold delta in
    isGrounded bn = false /\
    x (velocity bn) = AIR_DRAG ^ n * x (velocity b) /\
    z (velocity bn) = AIR_DRAG ^ n * z (velocity b) /\
    hspeed bn = AIR_DRAG ^ n * hspeed b /\
    (0 < hspeed b -> (0 < n)%nat -> hspeed bn < hspeed b).
Proof.
  intros b rot crouchHold delta n Hg Hx Hz Hpos Hfast bn.
  destruct (drag_steps b rot crouchHold delta n Hg Hx Hz Hpos Hfast)
    as (Ig & _ & _ & Vx & Vz & Hs). fold bn in Ig, Vx, Vz, Hs.
  split; [exact Ig |]. split; [exact Vx |]. split; [exact Vz |].
  split; [exact Hs |].
  intros Hp Hn. rewrite Hs.
  assert (Hlt : AIR_DRAG ^ n < 1).
  { destruct n as [| n]; [lia |].
    apply pow_lt_1_compat; [unfold AIR_DRAG; lra | lia]. }
  nra.
Qed.

(** The numbers of the drifting body over one second of steps of 1/60 s. *)
Lemma drifting_body_second :
  (forall k : nat,
      (1 <= k <= 60)%nat -> 0 < fall_height drifting_body (1 / 60) k) /\
  hspeed drifting_body = 5 /\
  MAX_SPEED * 0.01 <= AIR_DRAG ^ 60 * hspeed drifting_body.
Proof.
  assert (Hs : hspeed drifting_body = 5).
  { rewrite hspeed_x_only by reflexivity.
    unfold drifting_body. cbn [velocity x]. apply Rabs_pos_eq. lra. }
  split; [| split; [exact Hs |]].
  - intros k Hk. unfold fall_height, drifting_body, GRAVITY.
    cbn [position velocity y].
    assert (Hk1 : INR k <= INR 60) by (apply le_INR; lia).
    rewrite (INR_IZR_INZ 60) in Hk1. change (Z.of_nat 60) with 60%Z in Hk1.
    pose proof (pos_INR k). nra.
  - rewrite Hs. change 60%nat with (10 * 6)%nat. rewrite pow_mult.
    assert (H10 : 0.8 <= AIR_DRAG ^ 10) by (unfold AIR_DRAG; cbn [pow]; lra).
    assert (H6 : 0.8 ^ 6 <= (AIR_DRAG ^ 10) ^ 6) by (apply pow_incr; lra).
    assert (H8 : 0.2 <= 0.8 ^ 6) by (cbn [pow]; lra).
    unfold MAX_SPEED. lra.
Qed.

Lemma air_drag_decay_witness :
  isGrounded drifting_body = false /\
  x (dir drifting_body) = 0 /\ z (dir drifting_body) = 0 /\
  (forall k : nat,
      (1 <= k <= 60)%nat -> 0 < fall_height drifting_body (1 / 60) k) /\
  MAX_SPEED * 0.01 <= AIR_DRAG ^ 60 * hspeed drifting_body /\
  0 < hspeed drifting_body /\ (0 < 60)%nat /\
  hspeed (steps 60 drifting_body 0 0 0 false (1 / 60))
  = AIR_DRAG ^ 60 * hspeed drifting_body /\
  hspeed (steps 60 drifting_body 0 0 0 false (1 / 60)) < hspeed drifting_body.
Proof.
  destruct drifting_body_second as (Hpos & Hs & Hfast).
  assert (Hp : 0 < hspeed drifting_body) by (rewrite Hs; lra).
  assert (Hn : (0 < 60)%nat) by lia.
  destruct (air_drag_decay drifting_body 0 false (1 / 60) 60
              eq_refl eq_refl eq_refl Hpos Hfast) as (_ & _ & _ & Hd & Hlt).
  split; [reflexivity |]. split; [reflexivity |]. split; [reflexivity |].
  split; [exact Hpos |]. split; [exact Hfast |]. split; [exact Hp |].
  split; [exact Hn |]. split; [exact Hd |]. exact (Hlt Hp Hn).
Defined.

(** ** A jump from take-off to landing *)

(** The step that takes a jump request on the ground leaves the body in the
    air, [JUMP_FORCE * delta] higher, with [velocity.y = JUMP_FORCE]. *)
Lemma jump_step_height (b : Body) (rot : R) (side forward : Z)
    (crouchHold : bool) (delta : R) :
  isGrounded b = true -> 0 <= y (position b) -> 0 < delta ->
  let b' := UpdateBody b rot side forward true crouchHold delta in
  y (position b') = y (position b) + JUMP_FORCE * delta.
Proof.
  intros Hg Hp Hd b'. subst b'. rewrite UpdateBody_eq.
  unfold grounded_after_jump, vy_before_clamp, jump_taken.
  rewrite Hg. cbn [andb].
  destruct (Rle_dec _ _) as [Hle | _]; cbn [position y].
  - exfalso. unfold JUMP_FORCE in Hle. nra.
  - reflexivity.
Qed.

(** The heights of the free fall that follows a take-off from the ground. *)
Lemma jump_fall_height (b1 : Body) (delta : R) (k : nat) :
  y (position b1) = JUMP_FORCE * delta ->
  y (velocity b1) = JUMP_FORCE ->
  fall_height b1 delta k
  = delta * (INR k + 1) * (JUMP_FORCE - GRAVITY / 2 * delta * INR k).
Proof.
  intros Hp Hv. unfold fall_height. rewrite Hp, Hv. unfold GRAVITY. field.
Qed.

Lemma jump_in_flight (b1 : Body) (rot : R) (side forward : Z)
    (crouchHold : bool) (delta : R) (n : nat) :
  0 < delta ->
  isGrounded b1 = false ->
  y (position b1) = JUMP_FORCE * delta ->
  y (velocity b1) = JUMP_FORCE ->
  INR n * delta < 2 * JUMP_FORCE / GRAVITY ->
  let bn := steps n b1 rot side forward crouchHold delta in
  isGrounded bn = false /\
  y (velocity bn) = JUMP_FORCE - INR n * GRAVITY * delta /\
  y (position bn)
  = delta * (INR n + 1) * (JUMP_FORCE - GRAVITY / 2 * delta * INR n).
Proof.
  intros Hd Hg Hp Hv Hn bn.
  assert (Hpos : forall k : nat,
             (1 <= k <= n)%nat -> 0 < fall_height b1 delta k).
  { intros k Hk. rewrite (jump_fall_height b1 delta k Hp Hv).
    assert (Hkn : INR k <= INR n) by (apply le_INR; lia).
    pose proof (pos_INR k) as Hk0.
    assert (Hkd : INR k * delta < 2 * JUMP_FORCE / GRAVITY) by nra.
    unfold JUMP_FORCE, GRAVITY in *.
    apply Rmult_lt_0_compat; [apply Rmult_lt_0_compat; lra | lra]. }
  destruct (fall_steps b1 rot side forward crouchHold delta n Hg Hpos)
    as (Ig & Iv & Ip). fold bn in Ig, Iv, Ip.
  split; [exact Ig |]. split; [rewrite Iv, Hv; reflexivity |].
  rewrite Ip. apply jump_fall_height; assumption.
Qed.

Lemma jump_landed (b1 : Body) (rot : R) (side forward : Z)
    (crouchHold : bool) (delta : R) (n : nat) :
  0 < delta ->
  isGrounded b1 = false ->
  y (position b1) = JUMP_FORCE * delta ->
  y (velocity b1) = JUMP_FORCE ->
  2 * JUMP_FORCE / GRAVITY <= INR n * delta ->
  let bn := steps n b1 rot side forward crouchHold delta in
  isGrounded bn = true /\ y (velocity bn) = 0 /\ y (position bn) = 0.
Proof.
  intros Hd Hg Hp Hv. cbv zeta. induction n as [| n IH]; intros Hn.
  - exfalso. cbn [INR] in Hn. unfold JUMP_FORCE, GRAVITY in Hn. lra.
  - rewrite steps_S.
    destruct (Rlt_dec (INR n * delta) (2 * JUMP_FORCE / GRAVITY))
      as [Hlt | Hge].
    + destruct (jump_in_flight b1 rot side forward crouchHold delta n
                  Hd Hg Hp Hv Hlt) as (Ig & Iv & Ip).
      destruct (airborne_step
                  (steps n b1 rot side forward crouchHold delta)
                  rot side forward false crouchHold delta Ig) as (_ & Hland).
      apply Hland. rewrite Ip, Iv. rewrite S_INR in Hn.
      pose proof (pos_INR n) as Hn0.
      unfold JUMP_FORCE, GRAVITY in *.
      assert (Hq : 0 <= (INR n + 1) * delta * (32 / 2 * (INR n + 1) * delta - 12)).
      { apply Rmult_le_pos; [apply Rmult_le_pos; lra | nra]. }
      nra.
    + destruct IH as (Ig & Iv & Ip); [lra |].
      destruct (grounded_step_vertical
                  (steps n b1 rot side forward crouchHold delta)
                  rot side forward crouchHold delta Ig Iv)
        as (Jp & Jv & Jg); [rewrite Ip; lra |].
      cbv zeta in Jp, Jv, Jg.
      split; [rewrite Jg; exact Ig |].
      split; [rewrite Jv; exact Iv | rewrite Jp; exact Ip].
Qed.

(** X15.  A jump from the ground.  After the step that takes the jump
    request at height 0, and with no further request, the body is in the air
    for as long as [n * delta] is below [2 * JUMP_FORCE / GRAVITY] (3/4 s),
    at the height [delta (n + 1) (JUMP_FORCE - GRAVITY / 2 * delta * n)];
    from the first step with [n * delta] at or above that time on it stands
    on the ground again, at height 0 with no vertical velocity.  It never
    rises above [JUMP_FORCE^2 / (2 GRAVITY) + JUMP_FORCE * delta]. *)
Theorem jump_rises_and_lands :
  forall (b : Body) (rot : R) (side forward : Z) (crouchHold : bool)
         (delta : R),
    0 < delta ->
    isGrounded b = true ->
    y (position b) = 0 ->
    let b1 := UpdateBody b rot side forward true crouchHold delta in
    forall n : nat,
      let bn := steps n b1 rot side forward crouchHold delta in
      (INR n * delta < 2 * JUMP_FORCE / GRAVITY ->
       isGrounded bn = false /\
       y (velocity bn) = JUMP_FORCE - INR n * GRAVITY * delta /\
       y (position bn)
       = delta * (INR n + 1) * (JUMP_FORCE - GRAVITY / 2 * delta * INR n)) /\
      (2 * JUMP_FORCE / GRAVITY <= INR n * delta ->
       isGrounded bn = true /\ y (velocity bn) = 0 /\ y (position bn) = 0) /\
      0 <= y (position bn)
        <= JUMP_FORCE * JUMP_FORCE / (2 * GRAVITY) + JUMP_FORCE * delta.
Proof.
  intros b rot side forward crouchHold delta Hd Hg Hy b1 n bn.
  assert (Hp0 : 0 <= y (position b)) by lra.
  destruct (jump_step b rot side forward crouchHold delta Hg Hp0 Hd)
    as (Hv1 & Hg1).
  pose proof (jump_step_height b rot side forward crouchHold delta Hg Hp0 Hd)
    as Hp1.
  cbv zeta in Hv1, Hg1, Hp1. fold b1 in Hv1, Hg1, Hp1.
  rewrite Hy, Rplus_0_l in Hp1.
  pose proof (jump_in_flight b1 rot side forward crouchHold delta n
                Hd Hg1 Hp1 Hv1) as Hfly.
  pose proof (jump_landed b1 rot side forward crouchHold delta n
                Hd Hg1 Hp1 Hv1) as Hland.
  cbv zeta in Hfly, Hland. fold bn in Hfly, Hland.
  split; [exact Hfly |]. split; [exact Hland |].
  destruct (Rlt_dec (INR n * delta) (2 * JUMP_FORCE / GRAVITY))
    as [Hlt | Hge].
  - destruct (Hfly Hlt) as (_ & _ & Ip). rewrite Ip.
    pose proof (pos_INR n) as Hn0.
    assert (HJ : JUMP_FORCE = 12) by (unfold JUMP_FORCE; lra).
    assert (HG : GRAVITY = 32) by (unfold GRAVITY; lra).
    rewrite HJ, HG in *.
    assert (Ht : 0 <= INR n * delta) by (apply Rmult_le_pos; lra).
    split.
    + apply Rmult_le_pos; [apply Rmult_le_pos; lra | lra].
    + replace (delta * (INR n + 1) * (12 - 32 / 2 * delta * INR n))
        with (12 * (INR n * delta) - 16 * ((INR n * delta) * (INR n * delta))
              + 12 * delta - 16 * (delta * (INR n * delta))) by field.
      pose proof (Rmult_le_pos delta (INR n * delta) (Rlt_le _ _ Hd) Ht).
      pose proof (pow2_ge_0 (4 * (INR n * delta) - 3 / 2)) as Hsq.
      replace ((4 * (INR n * delta) - 3 / 2) ^ 2)
        with (16 * ((INR n * delta) * (INR n * delta))
              - 12 * (INR n * delta) + 9 / 4) in Hsq by field.
      lra.
  - destruct Hland as (_ & _ & Ip); [lra |]. rewrite Ip.
    unfold JUMP_FORCE, GRAVITY. lra.
Qed.

Lemma jump_rises_and_lands_witness :
  0 < 1 / 60 /\
  isGrounded standing_body = true /\
  y (position standing_body) = 0 /\
  INR 44 * (1 / 60) < 2 * JUMP_FORCE / GRAVITY /\
  2 * JUMP_FORCE / GRAVITY <= INR 45 * (1 / 60) /\
  isGrounded
    (steps 44 (UpdateBody standing_body 0 0 0 true false (1 / 60))
       0 0 0 false (1 / 60)) = false /\
  isGrounded
    (steps 45 (UpdateBody standing_body 0 0 0 true false (1 / 60))
       0 0 0 false (1 / 60)) = true.
Proof.
  assert (Hd : 0 < 1 / 60) by lra.
  assert (Hg : isGrounded standing_body = true) by reflexivity.
  assert (Hy : y (position standing_body) = 0).
  { unfold standing_body. cbn [position y]. lra. }
  assert (H44 : INR 44 * (1 / 60) < 2 * JUMP_FORCE / GRAVITY).
  { rewrite (INR_IZR_INZ 44). change (Z.of_nat 44) with 44%Z.
    unfold JUMP_FORCE, GRAVITY. lra. }
  assert (H45 : 2 * JUMP_FORCE / GRAVITY <= INR 45 * (1 / 60)).
  { rewrite (INR_IZR_INZ 45). change (Z.of_nat 45) with 45%Z.
    unfold JUMP_FORCE, GRAVITY. lra. }
  destruct (jump_rises_and_lands standing_body 0 0 0 false (1 / 60)
              Hd Hg Hy 44%nat) as (Hfly & _).
  destruct (jump_rises_and_lands standing_body 0 0 0 false (1 / 60)
              Hd Hg Hy 45%nat) as (_ & Hland & _).
  destruct (Hfly H44) as (G44 & _). destruct (Hland H45) as (G45 & _).
  repeat split; assumption.
Defined.

(** ** The steady speed of a run *)

(** X16.  The speed a run settles at depends on the tick length.  On the
    ground with the forward key held, [dir] already on the view direction
    and the body moving along it at the speed
    [s = min(target, MAX_ACCEL * delta / (1 - FRICTION))], where the target
    is [CROUCH_SPEED] or [MAX_SPEED], a step leaves [dir] and the speed as
    they are, as long as [FRICTION * s] is not below the low-speed cut: the
    target speed is held only when
    [(1 - FRICTION) * target <= MAX_ACCEL * delta]. *)
Theorem steady_speed_depends_on_tick :
  forall (b : Body) (rot : R) (crouchHold : bool) (delta : R),
    0 < delta ->
    let target := if crouchHold then CROUCH_SPEED else MAX_SPEED in
    let s := Rmin target (MAX_ACCEL * delta / (1 - FRICTION)) in
    MAX_SPEED * 0.01 <= FRICTION * s ->
    along_front rot 1 s b ->
    let b' := UpdateBody b rot 0 1 false crouchHold delta in
    along_front rot 1 s b' /\ hspeed b' = s /\
    (s = target <-> (1 - FRICTION) * target <= MAX_ACCEL * delta).
Proof.
  intros b rot crouchHold delta Hd target s Hcut Hal b'.
  assert (HF : FRICTION = 0.86) by reflexivity.
  assert (Hs0 : 0 <= s) by (rewrite HF in Hcut; unfold MAX_SPEED in Hcut; lra).
  assert (Hq : (1 - FRICTION) * (MAX_ACCEL * delta / (1 - FRICTION))
               = MAX_ACCEL * delta).
  { field. rewrite HF. lra. }
  assert (Hiff : s = target <-> (1 - FRICTION) * target <= MAX_ACCEL * delta).
  { unfold s. split; intros H.
    - pose proof (Rmin_r target (MAX_ACCEL * delta / (1 - FRICTION))) as Hr.
      rewrite H in Hr. rewrite HF in *. nra.
    - apply Rmin_left. rewrite HF in *. nra. }
  assert (Hal' : along_front rot 1 s b').
  { apply (along_front_step_values rot 1 s b 1 crouchHold delta
             1 (FRICTION * s) s Hal Hs0).
    - unfold mix. ring.
    - destruct (Rlt_dec _ _); [lra | reflexivity].
    - fold target. rewrite !Rmult_1_r, Rmult_1_l.
      destruct (Rle_dec target (MAX_ACCEL * delta / (1 - FRICTION)))
        as [Hle | Hgt].
      + assert (Hst : s = target) by (apply Rmin_left; exact Hle).
        rewrite Hst in *. rewrite clamp_inside; [ring | split].
        * rewrite HF. unfold MAX_SPEED in Hcut. lra.
        * pose proof (proj1 Hiff eq_refl). lra.
      + assert (Hst : s = MAX_ACCEL * delta / (1 - FRICTION)).
        { apply Rmin_right. lra. }
        rewrite clamp_above.
        * rewrite Hst at 1. rewrite <- Hq at 2. rewrite <- Hst. ring.
        * unfold MAX_ACCEL. lra.
        * rewrite <- Hq, <- Hst. rewrite HF in *. lra. }
  split; [exact Hal' |]. split; [| exact Hiff].
  apply (along_front_hspeed rot 1 s b' Hal' Hs0).
Qed.

Lemma steady_speed_depends_on_tick_witness :
  0 < 1 / 60 /\
  MAX_SPEED * 0.01 <= FRICTION * Rmin CROUCH_SPEED (MAX_ACCEL * (1 / 60) / (1 - FRICTION)) /\
  along_front 0 1 (Rmin CROUCH_SPEED (MAX_ACCEL * (1 / 60) / (1 - FRICTION)))
    crouch_walking_body /\
  hspeed (UpdateBody crouch_walking_body 0 0 1 false true (1 / 60))
  = Rmin CROUCH_SPEED (MAX_ACCEL * (1 / 60) / (1 - FRICTION)).
Proof.
  assert (Hd : 0 < 1 / 60) by lra.
  assert (Hm : Rmin CROUCH_SPEED (MAX_ACCEL * (1 / 60) / (1 - FRICTION)) = 5).
  { rewrite Rmin_left; unfold CROUCH_SPEED, MAX_ACCEL, FRICTION; lra. }
  assert (Hcut : MAX_SPEED * 0.01
                 <= FRICTION
                    * Rmin CROUCH_SPEED (MAX_ACCEL * (1 / 60) / (1 - FRICTION))).
  { rewrite Hm. unfold MAX_SPEED, FRICTION. lra. }
  assert (Hal : along_front 0 1
                  (Rmin CROUCH_SPEED (MAX_ACCEL * (1 / 60) / (1 - FRICTION)))
                  crouch_walking_body).
  { rewrite Hm. unfold along_front, crouch_walking_body.
    cbn [isGrounded dir velocity x z]. rewrite sin_0, cos_0.
    repeat split; lra. }
  destruct (steady_speed_depends_on_tick crouch_walking_body 0 true (1 / 60)
              Hd Hcut Hal) as (_ & Hs & _).
  split; [exact Hd |]. split; [exact Hcut |]. split; [exact Hal |].
  exact Hs.
Defined.

(** ** The smoothed direction *)

(** The desired direction has the squared length
    [side^2 + forward^2]. *)
Lemma desired_dir_dot (rot : R) (side forward : Z) :
  dot (desired_dir rot side forward) (desired_dir rot side forward)
  = IZR side * IZR side + IZR forward * IZR forward.
Proof.
  unfold desired_dir, right_of, front_of, dot. cbn [x y z].
  rewrite cos_neg, sin_neg, opp_IZR.
  pose proof (sin2_cos2' rot) as H.
  replace 0.0 with 0 by lra.
  replace (IZR side * IZR side + IZR forward * IZR forward)
    with ((IZR side * IZR side + IZR forward * IZR forward)
          * (sin rot * sin rot + cos rot * cos rot))
    by (rewrite H; ring).
  ring.
Qed.

(** A mix of two vectors of squared length at most [B] has squared length
    at most [B]. *)
Lemma mix3_dot_bound (d e : vec3) (t B : R) :
  0 <= t <= 1 -> dot d d <= B -> dot e e <= B ->
  dot (mix3 d e t) (mix3 d e t) <= B.
Proof.
  intros [Ht0 Ht1] Hd He.
  assert (Hde : 2 * dot d e <= dot d d + dot e e).
  { unfold dot.
    pose proof (pow2_ge_0 (x d - x e)). pose proof (pow2_ge_0 (y d - y e)).
    pose proof (pow2_ge_0 (z d - z e)). nra. }
  assert (Heq : dot (mix3 d e t) (mix3 d e t)
                = (1 - t) * (1 - t) * dot d d
                  + t * (1 - t) * (2 * dot d e)
                  + t * t * dot e e).
  { unfold mix3, mix, dot. cbn [x y z]. ring. }
  rewrite Heq.
  assert (H1 : 0 <= (1 - t) * (1 - t)) by nra.
  assert (H2 : 0 <= t * (1 - t)) by nra.
  assert (H3 : 0 <= t * t) by nra.
  assert (G1 : (1 - t) * (1 - t) * dot d d <= (1 - t) * (1 - t) * B)
    by (apply Rmult_le_compat_l; assumption).
  assert (G2 : t * (1 - t) * (2 * dot d e) <= t * (1 - t) * (2 * B))
    by (apply Rmult_le_compat_l; [assumption | lra]).
  assert (G3 : t * t * dot e e <= t * t * B)
    by (apply Rmult_le_compat_l; assumption).
  replace B with ((1 - t) * (1 - t) * B + t * (1 - t) * (2 * B) + t * t * B)
    at 4 by ring.
  lra.
Qed.

(** X17.  The smoothed direction stays in the disc of its inputs.  The
    desired direction has the squared length [side^2 + forward^2], which is
    2 when two keys are held at once (the normalisation of the input is
    compiled out); a step whose [dir] has a squared length of at most [B],
    for a [B] that is at least that of the desired direction, leaves a
    [dir] of squared length at most [B]; and a step with
    [1 <= CONTROL * delta] sets [dir] to the desired direction. *)
Theorem dir_stays_in_disc :
  forall (b : Body) (rot : R) (side forward : Z)
         (jumpPressed crouchHold : bool) (delta B : R),
    IZR side * IZR side + IZR forward * IZR forward <= B ->
    dot (dir b) (dir b) <= B ->
    let b' := UpdateBody b rot side forward jumpPressed crouchHold delta in
    dot (desired_dir rot side forward) (desired_dir rot side forward)
    = IZR side * IZR side + IZR forward * IZR forward /\
    dot (dir b') (dir b') <= B /\
    (1 <= CONTROL * delta -> dir b' = desired_dir rot side forward).
Proof.
  intros b rot side forward jumpPressed crouchHold delta B Hin Hd b'.
  destruct (UpdateBody_horizontal b rot side forward jumpPressed crouchHold
              delta) as (Hdir & _).
  cbv zeta in Hdir. fold b' in Hdir.
  split; [apply desired_dir_dot |]. split.
  - rewrite Hdir. apply mix3_dot_bound.
    + pose proof (clamp_bounds (CONTROL * delta) 0.0 1.0). lra.
    + exact Hd.
    + rewrite desired_dir_dot. exact Hin.
  - intros Hc. rewrite Hdir. rewrite (clamp_above _ 0.0 1.0) by lra.
    apply vec3_eq; unfold mix3, mix; cbn [x y z]; lra.
Qed.

Lemma dir_stays_in_disc_witness :
  IZR 1 * IZR 1 + IZR 1 * IZR 1 <= 2 /\
  dot (dir standing_body) (dir standing_body) <= 2 /\
  dot (desired_dir 0 1 1) (desired_dir 0 1 1) = IZR 1 * IZR 1 + IZR 1 * IZR 1 /\
  dot (dir (UpdateBody standing_body 0 1 1 false false (1 / 60)))
      (dir (UpdateBody standing_body 0 1 1 false false (1 / 60))) <= 2 /\
  1 <= CONTROL * (1 / 15) /\
  dir (UpdateBody standing_body 0 1 1 false false (1 / 15))
  = desired_dir 0 1 1.
Proof.
  assert (Hin : IZR 1 * IZR 1 + IZR 1 * IZR 1 <= 2) by lra.
  assert (Hd : dot (dir standing_body) (dir standing_body) <= 2).
  { unfold standing_body, dot. cbn [dir x y z]. lra. }
  assert (Hc : 1 <= CONTROL * (1 / 15)) by (unfold CONTROL; lra).
  destruct (dir_stays_in_disc standing_body 0 1 1 false false (1 / 60) 2
              Hin Hd) as (He & Hb & _).
  destruct (dir_stays_in_disc standing_body 0 1 1 false false (1 / 15) 2
              Hin Hd) as (_ & _ & Hset).
  split; [exact Hin |]. split; [exact Hd |]. split; [exact He |].
  split; [exact Hb |]. split; [exact Hc |]. exact (Hset Hc).
Defined.

(** ** The sphere mesh *)

Lemma int32_small (n : Z) :
  (- 2147483648 <= n <= 2147483647)%Z -> int32 n = n.
Proof.
  intros H. unfold int32. rewrite Z.mod_small; lia.
Qed.

Lemma uint32_small (n : Z) : (0 <= n <= 4294967295)%Z -> uint32 n = n.
Proof. intros H. unfold uint32. apply Z.mod_small. lia. Qed.

Lemma range_length (lo hi : Z) :
  List.length (range lo hi) = Z.to_nat (hi - lo).
Proof. unfold range. rewrite length_map, length_seq. reflexivity. Qed.

Lemma range_In (lo hi i : Z) : In i (range lo hi) -> (lo <= i < hi)%Z.
Proof.
  unfold range. rewrite in_map_iff. intros (k & <- & Hk).
  apply in_seq in Hk. lia.
Qed.

Lemma range_nth (n : Z) (k : nat) :
  (Z.of_nat k < n)%Z -> nth k (range 0 n) 0%Z = Z.of_nat k.
Proof.
  intros Hk. unfold range.
  rewrite (nth_indep _ 0%Z (0 + Z.of_nat 0)%Z)
    by (rewrite length_map, length_seq; lia).
  rewrite (map_nth (fun i : nat => (0 + Z.of_nat i)%Z)).
  rewrite seq_nth by lia. lia.
Qed.

(** A [flat_map] whose blocks all have [n] elements. *)
Lemma flat_map_blocks_length {A B : Type} (f : A -> list B) (n : nat)
    (l : list A) :
  (forall a : A, List.length (f a) = n) ->
  List.length (flat_map f l) = (List.length l * n)%nat.
Proof.
  intros Hf. induction l as [| a l IH]; cbn [flat_map List.length].
  - reflexivity.
  - rewrite length_app, Hf, IH. lia.
Qed.

Lemma skipn_blocks {A B : Type} (f : A -> list B) (n : nat) (l : list A)
    (k : nat) (rest : list B) :
  (forall a : A, List.length (f a) = n) ->
  (k <= List.length l)%nat ->
  skipn (k * n) (flat_map f l ++ rest) = flat_map f (skipn k l) ++ rest.
Proof.
  intros Hf. revert l. induction k as [| k IH]; intros l Hk.
  - reflexivity.
  - destruct l as [| a l]; [cbn [List.length] in Hk; lia |].
    cbn [List.length] in Hk. cbn [flat_map skipn].
    replace (S k * n)%nat with (List.length (f a) + k * n)%nat
      by (rewrite Hf; lia).
    rewrite <- app_assoc, skipn_app.
    rewrite skipn_all2 by lia.
    replace (List.length (f a) + k * n - List.length (f a))%nat
      with (k * n)%nat by lia.
    cbn [app]. apply IH. lia.
Qed.

Lemma block_at {A B : Type} (f : A -> list B) (n : nat) (l : list A)
    (k : nat) (a0 : A) (rest : list B) :
  (forall a : A, List.length (f a) = n) ->
  (k < List.length l)%nat ->
  exists rest' : list B,
    skipn (k * n) (flat_map f l ++ rest) = f (nth k l a0) ++ rest'.
Proof.
  intros Hf Hk. rewrite (skipn_blocks f n l k rest Hf) by lia.
  revert k Hk. induction l as [| a l IH]; intros k Hk.
  - cbn [List.length] in Hk. lia.
  - destruct k as [| k].
    + cbn [skipn flat_map nth]. rewrite <- app_assoc. eexists. reflexivity.
    + cbn [skipn nth]. apply IH. cbn [List.length] in Hk. lia.
Qed.

Lemma sphere_vertex_length (latSeg lonSeg y x : Z) :
  List.length (sphere_vertex latSeg lonSeg y x) = 6%nat.
Proof. reflexivity. Qed.

Lemma sphere_quad_length (lonSeg y x : Z) :
  List.length (sphere_quad lonSeg y x) = 6%nat.
Proof. reflexivity. Qed.

Lemma sphere_verts_length (latSeg lonSeg : Z) :
  List.length (sphere_verts latSeg lonSeg)
  = (Z.to_nat (latSeg + 1) * (Z.to_nat (lonSeg + 1) * 6))%nat.
Proof.
  unfold sphere_verts.
  rewrite (flat_map_blocks_length _ (Z.to_nat (lonSeg + 1) * 6)).
  - rewrite range_length. f_equal. f_equal. lia.
  - intros y. rewrite (flat_map_blocks_length _ 6).
    + rewrite range_length. f_equal. f_equal. lia.
    + intros x. apply sphere_vertex_length.
Qed.

Lemma sphere_idx_length (latSeg lonSeg : Z) :
  List.length (sphere_idx latSeg lonSeg)
  = (Z.to_nat latSeg * (Z.to_nat lonSeg * 6))%nat.
Proof.
  unfold sphere_idx.
  rewrite (flat_map_blocks_length _ (Z.to_nat lonSeg * 6)).
  - rewrite range_length. f_equal. f_equal. lia.
  - intros y. rewrite (flat_map_blocks_length _ 6).
    + rewrite range_length. f_equal. f_equal. lia.
    + intros x. apply sphere_quad_length.
Qed.

(** Without overflow the indices of the cell [(y, x)] are those of its four
    corners in the grid of [lonSeg + 1] points per row. *)
Lemma sphere_quad_corners (latSeg lonSeg y x : Z) :
  (0 <= y < latSeg)%Z -> (0 <= x < lonSeg)%Z ->
  ((latSeg + 1) * (lonSeg + 1) <= 2147483647)%Z ->
  let g := fun y x : Z => (y * (lonSeg + 1) + x)%Z in
  sphere_quad lonSeg y x
  = [g y x; g (y + 1) x; g y (x + 1);
     g (y + 1) x; g (y + 1) (x + 1); g y (x + 1)]%Z.
Proof.
  intros Hy Hx Hsz g. unfold sphere_quad.
  assert (H1 : (0 <= y * (lonSeg + 1))%Z) by nia.
  assert (H2 : ((y + 2) * (lonSeg + 1) <= (latSeg + 1) * (lonSeg + 1))%Z)
    by nia.
  assert (H3 : (y * (lonSeg + 1) + 2 * (lonSeg + 1) <= 2147483647)%Z) by lia.
  rewrite (int32_small (lonSeg + 1)) by lia.
  rewrite (int32_small (y * (lonSeg + 1))) by lia.
  rewrite (int32_small (y * (lonSeg + 1) + x)) by lia.
  rewrite (int32_small (y * (lonSeg + 1) + x + lonSeg)) by lia.
  rewrite (int32_small (y * (lonSeg + 1) + x + lonSeg + 1)) by lia.
  rewrite (int32_small (y * (lonSeg + 1) + x + 1)) by lia.
  rewrite (int32_small (y * (lonSeg + 1) + x + lonSeg + 1 + 1)) by lia.
  cbn [map]. rewrite !uint32_small by lia.
  unfold g. repeat (f_equal; try lia).
Qed.

(** X18.  The sphere's index buffer stays inside its vertex buffer.  For
    segment counts that are not negative and a grid of at most [2^31 - 1]
    floats, [makeSphere] pushes six floats for each of the
    [(latSeg + 1) (lonSeg + 1)] grid points and six indices for each of the
    [latSeg * lonSeg] cells, [indexCount] is the number of indices, and
    every index is that of a vertex in the buffer: no draw call reads past
    the vertex data. *)
Theorem sphere_indices_address_vertices :
  forall latSeg lonSeg : Z,
    (0 <= latSeg)%Z -> (0 <= lonSeg)%Z ->
    (6 * ((latSeg + 1) * (lonSeg + 1)) <= 2147483647)%Z ->
    let m := makeSphere latSeg lonSeg in
    Z.of_nat (List.length (mesh_verts m))
    = (6 * ((latSeg + 1) * (lonSeg + 1)))%Z /\
    Z.of_nat (List.length (mesh_idx m)) = (6 * (latSeg * lonSeg))%Z /\
    indexCount m = (6 * (latSeg * lonSeg))%Z /\
    Forall
      (fun i : Z =>
         (0 <= i)%Z /\
         (6 * i + 6 <= Z.of_nat (List.length (mesh_verts m)))%Z)
      (mesh_idx m).
Proof.
  intros latSeg lonSeg Hlat Hlon Hsz m.
  assert (Hv : Z.of_nat (List.length (mesh_verts m))
               = (6 * ((latSeg + 1) * (lonSeg + 1)))%Z).
  { unfold m, makeSphere. cbn [mesh_verts].
    rewrite sphere_verts_length. lia. }
  assert (Hi : Z.of_nat (List.length (mesh_idx m))
               = (6 * (latSeg * lonSeg))%Z).
  { unfold m, makeSphere. cbn [mesh_idx].
    rewrite sphere_idx_length. lia. }
  split; [exact Hv |]. split; [exact Hi |]. split.
  - unfold m, makeSphere in *. cbn [indexCount mesh_idx] in *.
    rewrite Hi. apply int32_small. nia.
  - rewrite Hv. unfold m, makeSphere. cbn [mesh_idx]. unfold sphere_idx.
    apply Forall_flat_map, Forall_forall. intros y Hy.
    apply Forall_flat_map, Forall_forall. intros x Hx.
    apply range_In in Hy, Hx.
    rewrite (sphere_quad_corners latSeg lonSeg y x) by lia.
    assert (H1 : (0 <= y * (lonSeg + 1))%Z) by nia.
    assert (H2 : ((y + 2) * (lonSeg + 1) <= (latSeg + 1) * (lonSeg + 1))%Z)
      by nia.
    repeat (apply Forall_cons; [lia |]). apply Forall_nil.
Qed.

Lemma sphere_indices_address_vertices_witness :
  (0 <= 24)%Z /\ (0 <= 32)%Z /\
  (6 * ((24 + 1) * (32 + 1)) <= 2147483647)%Z /\
  Z.of_nat (List.length (mesh_verts (makeSphere 24 32))) = 4950%Z /\
  indexCount (makeSphere 24 32) = 4608%Z.
Proof.
  assert (H1 : (0 <= 24)%Z) by lia.
  assert (H2 : (0 <= 32)%Z) by lia.
  assert (H3 : (6 * ((24 + 1) * (32 + 1)) <= 2147483647)%Z) by lia.
  destruct (sphere_indices_address_vertices 24 32 H1 H2 H3)
    as (Hv & _ & Hc & _).
  split; [exact H1 |]. split; [exact H2 |]. split; [exact H3 |].
  split; [exact Hv | exact Hc].
Defined.

(** X19.  For positive segment counts, the index [y * (lonSeg + 1) + x]
    addresses the vertex that was computed for the grid point [(y, x)]: its
    six floats are a position on the unit sphere followed by the same three
    numbers as the normal. *)
Theorem sphere_vertex_layout :
  forall latSeg lonSeg y x : Z,
    (0 < latSeg)%Z -> (0 < lonSeg)%Z ->
    (0 <= y <= latSeg)%Z -> (0 <= x <= lonSeg)%Z ->
    let m := makeSphere latSeg lonSeg in
    vertex_at m (y * (lonSeg + 1) + x) = sphere_vertex latSeg lonSeg y x /\
    exists sx sy sz : R,
      vertex_at m (y * (lonSeg + 1) + x) = [sx; sy; sz; sx; sy; sz] /\
      sx * sx + sy * sy + sz * sz = 1.
Proof.
  intros latSeg lonSeg y x Hlat Hlon Hy Hx m.
  assert (Hat : vertex_at m (y * (lonSeg + 1) + x)
                = sphere_vertex latSeg lonSeg y x).
  { unfold vertex_at, m, makeSphere. cbn [mesh_verts]. unfold sphere_verts.
    set (fx := fun y0 x0 : Z => sphere_vertex latSeg lonSeg y0 x0).
    set (fy := fun y0 : Z => flat_map (fx y0) (range 0 (lonSeg + 1))).
    assert (Hfx : forall y0 x0 : Z, List.length (fx y0 x0) = 6%nat)
      by (intros; reflexivity).
    assert (Hfy : forall y0 : Z,
               List.length (fy y0) = (Z.to_nat (lonSeg + 1) * 6)%nat).
    { intros y0. unfold fy.
      rewrite (flat_map_blocks_length _ 6) by apply Hfx.
      rewrite range_length. f_equal. f_equal. lia. }
    replace (Z.to_nat (6 * (y * (lonSeg + 1) + x)))
      with (Z.to_nat x * 6 + Z.to_nat y * (Z.to_nat (lonSeg + 1) * 6))%nat
      by nia.
    rewrite <- skipn_skipn.
    rewrite <- (app_nil_r (flat_map fy (range 0 (latSeg + 1)))).
    destruct (block_at fy (Z.to_nat (lonSeg + 1) * 6)
                (range 0 (latSeg + 1)) (Z.to_nat y) 0%Z [] Hfy)
      as (r1 & ->); [rewrite range_length; lia |].
    rewrite range_nth by lia. rewrite Z2Nat.id by lia.
    unfold fy at 1.
    destruct (block_at (fx y) 6 (range 0 (lonSeg + 1)) (Z.to_nat x) 0%Z r1
                (Hfx y))
      as (r2 & ->); [rewrite range_length; lia |].
    rewrite range_nth by lia. rewrite Z2Nat.id by lia.
    unfold fx. reflexivity. }
  split; [exact Hat |].
  rewrite Hat. unfold sphere_vertex. cbv zeta.
  eexists _, _, _. split; [reflexivity |].
  set (theta := IZR y / IZR latSeg * PI_F).
  set (phi := IZR x / IZR lonSeg * 2.0 * PI_F).
  pose proof (sin2_cos2' theta) as Ht. pose proof (sin2_cos2' phi) as Hp.
  replace (sin theta * cos phi * (sin theta * cos phi)
           + cos theta * cos theta
           + sin theta * sin phi * (sin theta * sin phi))
    with (sin theta * sin theta * (sin phi * sin phi + cos phi * cos phi)
          + cos theta * cos theta) by ring.
  rewrite Hp. lra.
Qed.

Lemma sphere_vertex_layout_witness :
  (0 < 24)%Z /\ (0 < 32)%Z /\ (0 <= 24 <= 24)%Z /\ (0 <= 0 <= 32)%Z /\
  vertex_at (makeSphere 24 32) (24 * (32 + 1) + 0)
  = sphere_vertex 24 32 24 0.
Proof.
  assert (H1 : (0 <= 24 <= 24)%Z) by lia.
  assert (H2 : (0 <= 0 <= 32)%Z) by lia.
  assert (H3 : (0 < 24)%Z) by lia.
  assert (H4 : (0 < 32)%Z) by lia.
  destruct (sphere_vertex_layout 24 32 24 0 H3 H4 H1 H2) as (Hat & _).
  split; [exact H3 |]. split; [exact H4 |].
  split; [exact H1 |]. split; [exact H2 |]. exact Hat.
Defined.

(** ** The floor *)

Lemma range_In_iff (lo hi i : Z) : In i (range lo hi) <-> (lo <= i < hi)%Z.
Proof.
  split; [apply range_In |]. intros H. unfold range. apply in_map_iff.
  exists (Z.to_nat (i - lo)). split; [lia |]. apply in_seq. lia.
Qed.

Lemma land_1_mod (n : Z) : Z.land n 1 = (n mod 2)%Z.
Proof. apply (Z.land_ones n 1). lia. Qed.

(** A tile is drawn for the cells whose coordinates have the same parity;
    it has the first colour when both are odd. *)
Lemma tile_parity (x y : Z) :
  tile x y
  = (Z.even (x + y),
     if Z.even (x + y) && Z.odd x then tileColor1 else lightGray).
Proof.
  unfold tile. rewrite !land_1_mod.
  rewrite <- Z.negb_even, !Zeven_mod, Zplus_mod.
  pose proof (Z.mod_pos_bound x 2 ltac:(lia)) as Hx.
  pose proof (Z.mod_pos_bound y 2 ltac:(lia)) as Hy.
  assert (Hx' : (x mod 2 = 0 \/ x mod 2 = 1)%Z) by lia.
  assert (Hy' : (y mod 2 = 0 \/ y mod 2 = 1)%Z) by lia.
  destruct Hx' as [-> | ->], Hy' as [-> | ->]; reflexivity.
Qed.

(** X20.  The floor is a checkerboard.  The level loop issues a draw call
    for exactly the cells [(x, y)] of the square
    [- floorExtent <= x, y < floorExtent] whose coordinates have the same
    parity, at [(x * tileSize, 0, y * tileSize)], in the first colour when
    both are odd and in light grey when both are even; of two cells that
    share an edge never more than one is drawn. *)
Theorem floor_is_checkerboard :
  (forall (p c : vec3),
      In (p, c) floor_tiles <->
      exists x y : Z,
        (- floorExtent <= x < floorExtent)%Z /\
        (- floorExtent <= y < floorExtent)%Z /\
        Z.even (x + y) = true /\
        p = mkVec3 (IZR x * tileSize) 0 (IZR y * tileSize) /\
        c = (if Z.odd x then tileColor1 else lightGray)) /\
  (forall x y : Z,
      fst (tile x y) && fst (tile (x + 1) y) = false /\
      fst (tile x y) && fst (tile x (y + 1)) = false).
Proof.
  split.
  - intros p c. unfold floor_tiles. rewrite in_flat_map. split.
    + intros (y & Hy & Hin). apply in_flat_map in Hin.
      destruct Hin as (x & Hx & Hin).
      apply range_In in Hy, Hx. rewrite tile_parity in Hin.
      cbn [fst snd] in Hin.
      destruct (Z.even (x + y)) eqn:He; cbn [negb andb] in Hin;
        [| destruct Hin].
      destruct Hin as [Heq | []]. inversion Heq; subst p c.
      exists x, y. split; [exact Hx |]. split; [exact Hy |].
      split; [exact He |]. split; [f_equal; lra | reflexivity].
    + intros (x & y & Hx & Hy & He & -> & ->).
      exists y. split; [apply range_In_iff; exact Hy |].
      apply in_flat_map. exists x. split; [apply range_In_iff; exact Hx |].
      rewrite tile_parity. cbn [fst snd]. rewrite He. cbn [negb andb].
      left. f_equal. f_equal. lra.
  - intros x y. rewrite !tile_parity. cbn [fst].
    replace (x + 1 + y)%Z with (Z.succ (x + y)) by lia.
    replace (x + (y + 1))%Z with (Z.succ (x + y)) by lia.
    rewrite Z.even_succ, <- Z.negb_even.
    destruct (Z.even (x + y)); split; reflexivity.
Qed.
